(** * The multi-line editor of packages/tui (src/components/editor.ts)

    A shallow embedding of the editor component: the JavaScript string
    operations it relies on, the Kitty CSI-u decoder, the word-wrap layout,
    the buffer and cursor operations, input dispatch and rendering, followed
    by the properties of the specification that were checked against them. *)

From Stdlib Require Import String Ascii.
From Stdlib Require Import ZArith List Bool Lia.
From Stdlib Require QArith Qround.
From coqutil Require Import Datatypes.RecordSetters.
Import ListNotations.
Import TriangleBracketNotations.
Open Scope Z_scope.

(* ===================================================================== *)
(** ** JavaScript strings

    A JavaScript string is a sequence of UTF-16 code units; [length],
    [slice], [charCodeAt] and the cursor column all count code units. *)
(* ===================================================================== *)

Module Js.

Definition jsstring := list Z.

(** An ASCII literal as a JavaScript string. *)
Definition str (s : string) : jsstring :=
  map (fun a => Z.of_nat (nat_of_ascii a)) (list_ascii_of_string s).

(** [s.length], of a string or of an array. *)
Definition len {A : Type} (s : list A) : Z := Z.of_nat (length s).

(** [s.slice(a, b)], on strings and on arrays alike: negative indices count
    from the end, everything is clamped to [0, s.length]. *)
Definition sliceIndex (n i : Z) : Z :=
  if i <? 0 then Z.max (n + i) 0 else Z.min i n.

Definition slice {A : Type} (s : list A) (a b : Z) : list A :=
  let n := Z.of_nat (length s) in
  let from := sliceIndex n a in
  let to := sliceIndex n b in
  firstn (Z.to_nat (to - from)) (skipn (Z.to_nat from) s).

(** [s.slice(a)] *)
Definition sliceFrom {A : Type} (s : list A) (a : Z) : list A :=
  slice s a (Z.of_nat (length s)).

(** [s.substring(a, b)] and [s.substring(a)] for [0 <= a <= b], the only
    use the editor makes of them. *)
Definition substring (s : jsstring) (a b : Z) : jsstring :=
  firstn (Z.to_nat (b - a)) (skipn (Z.to_nat a) s).

Definition substringFrom (s : jsstring) (a : Z) : jsstring :=
  skipn (Z.to_nat a) s.

Definition isEmpty (s : jsstring) : bool :=
  match s with [] => true | _ :: _ => false end.

Fixpoint streq (s t : jsstring) : bool :=
  match s, t with
  | [], [] => true
  | c :: s', d :: t' => (c =? d) && streq s' t'
  | _, _ => false
  end.

Fixpoint startsWith (s p : jsstring) : bool :=
  match p, s with
  | [], _ => true
  | d :: p', c :: s' => (c =? d) && startsWith s' p'
  | _ :: _, [] => false
  end.

(** [s.indexOf(p)] as an option: [None] is the source's [-1]. *)
Fixpoint indexOf (s p : jsstring) : option Z :=
  if startsWith s p then Some 0
  else match s with
       | [] => None
       | _ :: s' => option_map Z.succ (indexOf s' p)
       end.

Definition includes (s p : jsstring) : bool :=
  match indexOf s p with Some _ => true | None => false end.

(** [s.replace(p, "")] with a string pattern: the first occurrence only. *)
Definition removeFirst (s p : jsstring) : jsstring :=
  match indexOf s p with
  | Some i => firstn (Z.to_nat i) s ++ skipn (Z.to_nat i + length p) s
  | None => s
  end.

(** [s.charCodeAt(0)]; [None] is [NaN] (every comparison with it fails). *)
Definition charCodeAt0 (s : jsstring) : option Z := hd_error s.

(** [c.repeat(n)] for a one-unit string [c]; the callers guard [n >= 0]. *)
Definition repeatUnit (c : Z) (n : Z) : jsstring := repeat c (Z.to_nat n).

(** [s.split(sep)] for a one-unit separator. *)
Fixpoint split (sep : Z) (s : jsstring) : list jsstring :=
  match s with
  | [] => [[]]
  | c :: r =>
      if c =? sep then [] :: split sep r
      else match split sep r with
           | h :: t => (c :: h) :: t
           | [] => [[c]]
           end
  end.

(** [parts.join(sep)] for a one-unit separator. *)
Fixpoint join (sep : Z) (parts : list jsstring) : jsstring :=
  match parts with
  | [] => []
  | [p] => p
  | p :: rest => p ++ sep :: join sep rest
  end.

Definition LF : Z := 10.
Definition CR : Z := 13.
Definition TAB : Z := 9.
Definition ESC : Z := 27.
Definition SPACE : Z := 32.

(** [s.replace(/\r\n/g, "\n")] *)
Fixpoint replaceCRLF (s : jsstring) : jsstring :=
  match s with
  | [] => []
  | c :: r =>
      match r with
      | d :: r' =>
          if (c =? CR) && (d =? LF) then LF :: replaceCRLF r'
          else c :: replaceCRLF r
      | [] => [c]
      end
  end.

(** [s.replace(/\r/g, "\n")] *)
Definition replaceCR (s : jsstring) : jsstring :=
  map (fun c => if c =? CR then LF else c) s.

(** [s.replace(/\r\n/g, "\n").replace(/\r/g, "\n")] *)
Definition normalizeNewlines (s : jsstring) : jsstring :=
  replaceCR (replaceCRLF s).

(** [s.replace(/\t/g, "    ")] *)
Definition expandTabs (s : jsstring) : jsstring :=
  flat_map (fun c => if c =? TAB then [SPACE; SPACE; SPACE; SPACE] else [c]) s.

(** ECMAScript WhiteSpace and LineTerminator code units: what [trim] strips
    and what the regular-expression class [\s] matches. *)
Definition isJsSpace (c : Z) : bool :=
  ((9 <=? c) && (c <=? 13)) || (c =? 32) || (c =? 160) || (c =? 5760)
  || ((8192 <=? c) && (c <=? 8202)) || (c =? 8232) || (c =? 8233)
  || (c =? 8239) || (c =? 8287) || (c =? 12288) || (c =? 65279).

Fixpoint trimStart (s : jsstring) : jsstring :=
  match s with
  | [] => []
  | c :: r => if isJsSpace c then trimStart r else s
  end.

Definition trimEnd (s : jsstring) : jsstring := rev (trimStart (rev s)).

Definition trim (s : jsstring) : jsstring := trimEnd (trimStart s).

Definition isDigit (c : Z) : bool := (48 <=? c) && (c <=? 57).

(** The class [\w] *)
Definition isWordUnit (c : Z) : bool :=
  isDigit c || ((65 <=? c) && (c <=? 90)) || ((97 <=? c) && (c <=? 122))
  || (c =? 95).

(** Longest prefix of decimal digits, and the rest: the greedy [\d*]. *)
Fixpoint spanDigits (s : jsstring) : jsstring * jsstring :=
  match s with
  | c :: r =>
      if isDigit c then let (ds, rest) := spanDigits r in (c :: ds, rest)
      else ([], s)
  | [] => ([], [])
  end.

(** [Number.parseInt(ds, 10)] on a string of decimal digits.  The value is
    kept exact; JavaScript keeps it exact below 2^53. *)
Definition parseInt (ds : jsstring) : Z :=
  fold_left (fun acc d => acc * 10 + (d - 48)) ds 0.

Fixpoint digitsOf (fuel : nat) (n : Z) (acc : jsstring) : jsstring :=
  let acc' := (48 + n mod 10) :: acc in
  match fuel with
  | O => acc'
  | S f => if n <? 10 then acc' else digitsOf f (n / 10) acc'
  end.

(** An integer inside a template literal: [`${n}`]. *)
Definition toDecimal (n : Z) : jsstring :=
  if n <? 0 then 45 :: digitsOf (Z.to_nat (Z.log2 (- n))) (- n) []
  else digitsOf (Z.to_nat (Z.log2 n)) n [].

Definition isHighSurrogate (c : Z) : bool := (55296 <=? c) && (c <=? 56319).
Definition isLowSurrogate (c : Z) : bool := (56320 <=? c) && (c <=? 57343).

(** The iteration [for (const ch of s)]: by code point, so that a surrogate
    pair is one two-unit element. *)
Fixpoint codePoints (s : jsstring) : list jsstring :=
  match s with
  | [] => []
  | c :: r =>
      match r with
      | d :: r' =>
          if isHighSurrogate c && isLowSurrogate d then [c; d] :: codePoints r'
          else [c] :: codePoints r
      | [] => [[c]]
      end
  end.

(** [String.fromCodePoint(cp)]: [None] is the [RangeError] it throws outside
    [0, 0x10FFFF]. *)
Definition fromCodePoint (cp : Z) : option jsstring :=
  if (cp <? 0) || (1114111 <? cp) then None
  else if cp <? 65536 then Some [cp]
  else Some [55296 + (cp - 65536) / 1024; 56320 + (cp - 65536) mod 1024].

(** [lines[i] || ""] *)
Definition lineAt (lines : list jsstring) (i : nat) : jsstring := nth i lines [].

(** [lines[i] = x]: an assignment past the end extends the array; the holes
    it leaves read as [undefined], which every reader here turns into the
    empty string. *)
Fixpoint setLineAt (lines : list jsstring) (i : nat) (x : jsstring) : list jsstring :=
  match i, lines with
  | O, [] => [x]
  | O, _ :: t => x :: t
  | S j, [] => [] :: setLineAt [] j x
  | S j, h :: t => h :: setLineAt t j x
  end.

(** [xs[i]] for a numeric index that may be negative or past the end. *)
Definition nthZ {A : Type} (xs : list A) (i : Z) : option A :=
  if i <? 0 then None else nth_error xs (Z.to_nat i).

End Js.
Import Js.


(* ===================================================================== *)
(** ** Kitty CSI-u printable keys (editor.ts, lines 190-226) *)
(* ===================================================================== *)

Module Kitty.

Definition KITTY_MOD_SHIFT : Z := 1.
Definition KITTY_MOD_ALT : Z := 2.
Definition KITTY_MOD_CTRL : Z := 4.

(** The five capture groups of [KITTY_CSI_U_REGEX]: after [ESC] and an
    opening bracket, the key code (digits), then optionally a colon and the
    shifted code (digits, possibly none), a colon and the base code, a
    semicolon and the modifier, a colon and the event type, then [u] and
    the end of the input. *)
Record CsiU := {
  group1 : jsstring;
  group2 : option jsstring;
  group3 : option jsstring;
  group4 : option jsstring;
  group5 : option jsstring
}.

(** An optional group of a separator and a possibly empty run of digits:
    taken whenever the separator is there. *)
Definition optStar (sep : Z) (s : jsstring) : option jsstring * jsstring :=
  match s with
  | c :: r => if c =? sep then let (ds, rest) := spanDigits r in (Some ds, rest)
              else (None, s)
  | [] => (None, s)
  end.

(** An optional group of a separator and a non-empty run of digits: taken
    when the separator and at least one digit are there. *)
Definition optPlus (sep : Z) (s : jsstring) : option jsstring * jsstring :=
  match s with
  | c :: r =>
      if c =? sep then
        let (ds, rest) := spanDigits r in
        if isEmpty ds then (None, s) else (Some ds, rest)
      else (None, s)
  | [] => (None, s)
  end.

(** [data.match(KITTY_CSI_U_REGEX)].  Every quantifier of the pattern is
    greedy and no group can start with a digit, so the first alternative
    the regular-expression engine tries is the only one that can succeed:
    the match is a single left-to-right pass. *)
Definition matchCsiU (data : jsstring) : option CsiU :=
  if startsWith data [ESC; 91] then
    let (cp, r1) := spanDigits (skipn 2 data) in
    if isEmpty cp then None
    else
      let (g2, r2) := optStar 58 r1 in
      let (g3, r3) := optPlus 58 r2 in
      let (g4, r4) := optPlus 59 r3 in
      let (g5, r5) := optPlus 58 r4 in
      if streq r5 [117] then
        Some {| group1 := cp; group2 := g2; group3 := g3; group4 := g4; group5 := g5 |}
      else None
  else None.

(** [decodeKittyPrintable]; [None] is [undefined].  [parseInt] is exact
    here, which is what JavaScript computes for fields of up to 15 digits. *)
Definition decodeKittyPrintable (data : jsstring) : option jsstring :=
  match matchCsiU data with
  | None => None
  | Some m =>
      let codepoint := parseInt (group1 m) in
      let shiftedKey :=
        match group2 m with
        | Some ds => if isEmpty ds then None else Some (parseInt ds)
        | None => None
        end in
      let modValue :=
        match group4 m with Some ds => parseInt ds | None => 1 end in
      let modifier := modValue - 1 in
      if negb (Z.land modifier (Z.lor KITTY_MOD_ALT KITTY_MOD_CTRL) =? 0) then None
      else
        let effectiveCodepoint :=
          match shiftedKey with
          | Some k => if negb (Z.land modifier KITTY_MOD_SHIFT =? 0) then k else codepoint
          | None => codepoint
          end in
        if effectiveCodepoint <? 32 then None
        else fromCodePoint effectiveCodepoint
  end.

End Kitty.
Import Kitty.

(* ===================================================================== *)
(** ** What the editor imports

    [utils.js] (segmenter, character classes, visible width),
    [keybindings.js] and [keys.js] (the key tables), [tui.js] (the cursor
    marker) and [select-list.js] are not part of the sources at hand.  The
    editor is therefore parameterised by a [Host] that provides them. *)
(* ===================================================================== *)

Module Action.
(** The action names the editor asks the keybinding table about. *)
Inductive EditorAction :=
| submit | newLine | copy | tab
| selectUp | selectDown | selectConfirm | selectCancel
| deleteToLineEnd | deleteToLineStart | deleteWordBackward
| deleteCharBackward | deleteCharForward
| cursorLineStart | cursorLineEnd | cursorWordLeft | cursorWordRight
| cursorUp | cursorDown | cursorLeft | cursorRight
| pageUp | pageDown.
End Action.

(** The key identifiers passed to [matchesKey]. *)
Inductive KeyId := shiftBackspace | shiftDelete | shiftSpace.

Record AutocompleteItem := { value : jsstring; label : jsstring }.

(** [new SelectList(items, 5, theme)] *)
Record SelectList := { slItems : list AutocompleteItem; selectedIndex : nat }.

Definition getSelectedItem (l : SelectList) : option AutocompleteItem :=
  nth_error (slItems l) (selectedIndex l).

Record Suggestions := { items : list AutocompleteItem; prefix : jsstring }.

Record Completion := {
  resLines : list jsstring;
  resCursorLine : nat;
  resCursorCol : Z
}.

(** The [AutocompleteProvider] interface, with the two optional members of
    [CombinedAutocompleteProvider]. *)
Record AutocompleteProvider := {
  getSuggestions : list jsstring -> nat -> Z -> option Suggestions;
  applyCompletion :
    list jsstring -> nat -> Z -> AutocompleteItem -> jsstring -> Completion;
  shouldTriggerFileCompletion : option (list jsstring -> nat -> Z -> bool);
  getForceFileSuggestions :
    option (list jsstring -> nat -> Z -> option Suggestions)
}.

Record Host := {
  (** the text of the segments of [getSegmenter().segment(s)] *)
  segment : jsstring -> list jsstring;
  isWhitespaceChar : jsstring -> bool;
  isPunctuationChar : jsstring -> bool;
  visibleWidth : jsstring -> Z;
  (** [getEditorKeybindings().matches(data, action)] *)
  kbMatches : jsstring -> Action.EditorAction -> bool;
  matchesKey : jsstring -> KeyId -> bool;
  CURSOR_MARKER : jsstring;
  selectListHandleInput : SelectList -> jsstring -> SelectList;
  selectListRender : SelectList -> Z -> list jsstring
}.

(* ===================================================================== *)
(** ** Word wrap (editor.ts, lines 10-188) *)
(* ===================================================================== *)

Record TextChunk := { text : jsstring; startIndex : Z; endIndex : Z }.

Record Token := {
  tText : jsstring;
  tStartIndex : Z;
  tEndIndex : Z;
  tIsWhitespace : bool
}.

(** The variables of the tokenising loop. *)
Record Tokenizer := {
  tokens : list Token;
  currentToken : jsstring;
  tokenStart : Z;
  inWhitespace : bool;
  charIndex : Z
}.

(** The variables of the chunk-building loop. *)
Record Wrapper := {
  chunks : list TextChunk;
  currentChunk : jsstring;
  currentWidth : Z;
  chunkStartIndex : Z;
  atLineStart : bool
}.

(** The variables of the loop that breaks one over-long token. *)
Record Breaker := {
  bChunks : list TextChunk;
  tokenChunk : jsstring;
  tokenChunkWidth : Z;
  tokenChunkStart : Z;
  tokenCharIndex : Z
}.

Definition emptyChunk : TextChunk := {| text := []; startIndex := 0; endIndex := 0 |}.

Section Wrap.
Context (H : Host).

(** One iteration of [for (const seg of segmenter.segment(line))]. *)
Definition tokenizeStep (st : Tokenizer) (grapheme : jsstring) : Tokenizer :=
  let graphemeIsWhitespace := isWhitespaceChar H grapheme in
  let st1 :=
    if isEmpty (currentToken st) then
      {| tokens := tokens st; currentToken := currentToken st;
         tokenStart := charIndex st; inWhitespace := graphemeIsWhitespace;
         charIndex := charIndex st |}
    else if negb (Bool.eqb graphemeIsWhitespace (inWhitespace st)) then
      {| tokens := tokens st ++
           [{| tText := currentToken st; tStartIndex := tokenStart st;
               tEndIndex := charIndex st; tIsWhitespace := inWhitespace st |}];
         currentToken := [];
         tokenStart := charIndex st; inWhitespace := graphemeIsWhitespace;
         charIndex := charIndex st |}
    else st in
  {| tokens := tokens st1; currentToken := currentToken st1 ++ grapheme;
     tokenStart := tokenStart st1; inWhitespace := inWhitespace st1;
     charIndex := charIndex st1 + len grapheme |}.

Definition tokenize (line : jsstring) : list Token :=
  let st := fold_left tokenizeStep (segment H line)
              {| tokens := []; currentToken := []; tokenStart := 0;
                 inWhitespace := false; charIndex := 0 |} in
  if isEmpty (currentToken st) then tokens st
  else tokens st ++
         [{| tText := currentToken st; tStartIndex := tokenStart st;
             tEndIndex := charIndex st; tIsWhitespace := inWhitespace st |}].

(** One iteration of [for (const seg of segmenter.segment(token.text))]. *)
Definition breakStep (maxWidth : Z) (b : Breaker) (grapheme : jsstring) : Breaker :=
  let graphemeWidth := visibleWidth H grapheme in
  if (tokenChunkWidth b + graphemeWidth >? maxWidth) && negb (isEmpty (tokenChunk b)) then
    {| bChunks := bChunks b ++
         [{| text := tokenChunk b; startIndex := tokenChunkStart b;
             endIndex := tokenCharIndex b |}];
       tokenChunk := grapheme; tokenChunkWidth := graphemeWidth;
       tokenChunkStart := tokenCharIndex b;
       tokenCharIndex := tokenCharIndex b + len grapheme |}
  else
    {| bChunks := bChunks b; tokenChunk := tokenChunk b ++ grapheme;
       tokenChunkWidth := tokenChunkWidth b + graphemeWidth;
       tokenChunkStart := tokenChunkStart b;
       tokenCharIndex := tokenCharIndex b + len grapheme |}.

(** One iteration of [for (const token of tokens)]. *)
Definition wrapStep (maxWidth : Z) (st : Wrapper) (token : Token) : Wrapper :=
  let tokenWidth := visibleWidth H (tText token) in
  if atLineStart st && tIsWhitespace token then
    {| chunks := chunks st; currentChunk := currentChunk st;
       currentWidth := currentWidth st; chunkStartIndex := tEndIndex token;
       atLineStart := atLineStart st |}
  else if tokenWidth >? maxWidth then
    let st1 :=
      if isEmpty (currentChunk st) then st
      else {| chunks := chunks st ++
                [{| text := currentChunk st; startIndex := chunkStartIndex st;
                    endIndex := tStartIndex token |}];
              currentChunk := []; currentWidth := 0;
              chunkStartIndex := tStartIndex token; atLineStart := false |} in
    let b := fold_left (breakStep maxWidth) (segment H (tText token))
               {| bChunks := chunks st1; tokenChunk := []; tokenChunkWidth := 0;
                  tokenChunkStart := tStartIndex token;
                  tokenCharIndex := tStartIndex token |} in
    if isEmpty (tokenChunk b) then
      {| chunks := bChunks b; currentChunk := currentChunk st1;
         currentWidth := currentWidth st1; chunkStartIndex := chunkStartIndex st1;
         atLineStart := false |}
    else
      {| chunks := bChunks b; currentChunk := tokenChunk b;
         currentWidth := tokenChunkWidth b; chunkStartIndex := tokenChunkStart b;
         atLineStart := false |}
  else if currentWidth st + tokenWidth >? maxWidth then
    let trimmedChunk := trimEnd (currentChunk st) in
    let chunks' :=
      if negb (isEmpty trimmedChunk) || (length (chunks st) =? 0)%nat then
        chunks st ++
          [{| text := trimmedChunk; startIndex := chunkStartIndex st;
              endIndex := chunkStartIndex st + len (currentChunk st) |}]
      else chunks st in
    if tIsWhitespace token then
      {| chunks := chunks'; currentChunk := []; currentWidth := 0;
         chunkStartIndex := tEndIndex token; atLineStart := true |}
    else
      {| chunks := chunks'; currentChunk := tText token; currentWidth := tokenWidth;
         chunkStartIndex := tStartIndex token; atLineStart := false |}
  else
    {| chunks := chunks st; currentChunk := currentChunk st ++ tText token;
       currentWidth := currentWidth st + tokenWidth;
       chunkStartIndex := chunkStartIndex st; atLineStart := false |}.

Definition wordWrapLine (line : jsstring) (maxWidth : Z) : list TextChunk :=
  if isEmpty line || (maxWidth <=? 0) then [emptyChunk]
  else if visibleWidth H line <=? maxWidth then
    [{| text := line; startIndex := 0; endIndex := len line |}]
  else
    let st := fold_left (wrapStep maxWidth) (tokenize line)
                {| chunks := []; currentChunk := []; currentWidth := 0;
                   chunkStartIndex := 0; atLineStart := true |} in
    let chunks' :=
      if isEmpty (currentChunk st) then chunks st
      else chunks st ++
             [{| text := currentChunk st; startIndex := chunkStartIndex st;
                 endIndex := len line |}] in
    match chunks' with
    | [] => [emptyChunk]
    | _ :: _ => chunks'
    end.

End Wrap.

(* ===================================================================== *)
(** ** The editor object (editor.ts, lines 228-321) *)
(* ===================================================================== *)

Inductive EditorBorderStyle := rounded | sharp | none.

Record BorderChars := {
  topLeft : jsstring; topRight : jsstring;
  bottomLeft : jsstring; bottomRight : jsstring
}.

Definition BORDER_STYLES (s : EditorBorderStyle) : BorderChars :=
  match s with
  | rounded => {| topLeft := [9581]; topRight := [9582];
                  bottomLeft := [9584]; bottomRight := [9583] |}
  | sharp => {| topLeft := [9484]; topRight := [9488];
                bottomLeft := [9492]; bottomRight := [9496] |}
  | none => {| topLeft := []; topRight := []; bottomLeft := []; bottomRight := [] |}
  end.

Record LayoutLine := {
  lText : jsstring;
  hasCursor : bool;
  cursorPos : option Z
}.

Record VisualLine := { logicalLine : nat; startCol : Z; vlLength : Z }.

(** The fields of [Editor].  [lines], [cursorLine] and [cursorCol] are the
    members of [this.state]; [terminalRows] is [this.tui.terminal.rows].
    The two callbacks are modelled as recorders: [None] when no callback is
    installed, otherwise the arguments it has been called with, oldest
    first.  [pastes] is the [Map] of pastes in insertion order, which is the
    order its iteration follows.  [cursorLine] is only ever assigned an
    index of [lines], so it is a natural number; [cursorCol] is computed by
    subtraction and is an integer. *)
Record Editor := {
  lines : list jsstring;
  cursorLine : nat;
  cursorCol : Z;
  focused : bool;
  terminalRows : Z;
  paddingX : Z;
  borderStyle : EditorBorderStyle;
  lastWidth : Z;
  scrollOffset : Z;
  borderColor : jsstring -> jsstring;
  autocompleteProvider : option AutocompleteProvider;
  autocompleteList : option SelectList;
  isAutocompleting : bool;
  autocompletePrefix : jsstring;
  pastes : list (Z * jsstring);
  pasteCounter : Z;
  pasteBuffer : jsstring;
  isInPaste : bool;
  pendingShiftEnter : bool;
  history : list jsstring;
  historyIndex : Z;
  onSubmit : option (list jsstring);
  onChange : option (list jsstring);
  disableSubmit : bool
}.

(** The field initialisers and the constructor, for a terminal of [rows]
    rows, with the callbacks installed as recorders. *)
Definition newEditor (rows : Z) (color : jsstring -> jsstring) (padding : Z)
    (style : option EditorBorderStyle) : Editor :=
  {| lines := [[]]; cursorLine := 0; cursorCol := 0;
     focused := false;
     terminalRows := rows;
     paddingX := Z.max 0 padding;
     borderStyle := match style with Some s => s | None => rounded end;
     lastWidth := 80;
     scrollOffset := 0;
     borderColor := color;
     autocompleteProvider := None;
     autocompleteList := None;
     isAutocompleting := false;
     autocompletePrefix := [];
     pastes := [];
     pasteCounter := 0;
     pasteBuffer := [];
     isInPaste := false;
     pendingShiftEnter := false;
     history := [];
     historyIndex := -1;
     onSubmit := Some [];
     onChange := Some [];
     disableSubmit := false |}.

(** [map.set(k, v)] on an insertion-ordered [Map]. *)
Fixpoint mapSet (k : Z) (v : jsstring) (m : list (Z * jsstring)) : list (Z * jsstring) :=
  match m with
  | [] => [(k, v)]
  | (k', v') :: rest => if k' =? k then (k, v) :: rest else (k', v') :: mapSet k v rest
  end.

(* --------------------------------------------------------------------- *)
(** *** History (lines 346-392) and text access (lines 899-927) *)
(* --------------------------------------------------------------------- *)

Definition addToHistory (e : Editor) (text : jsstring) : Editor :=
  let trimmed := trim text in
  if isEmpty trimmed then e
  else if (0 <? length (history e))%nat && streq (lineAt (history e) 0) trimmed then e
  else
    let h := trimmed :: history e in
    (* history.unshift(trimmed); if (history.length > 100) history.pop() *)
    e<|history := if (100 <? length h)%nat then removelast h else h|>.

Definition getText (e : Editor) : jsstring := join LF (lines e).

(** [if (this.onChange) this.onChange(arg)]: an installed callback records
    the argument. *)
Definition callOnChange (e : Editor) (arg : jsstring) : Editor :=
  e<|onChange := option_map (fun log => log ++ [arg]) (onChange e)|>.

(** [if (this.onSubmit) this.onSubmit(arg)] *)
Definition callOnSubmit (e : Editor) (arg : jsstring) : Editor :=
  e<|onSubmit := option_map (fun log => log ++ [arg]) (onSubmit e)|>.

(** [if (this.onChange) this.onChange(this.getText())] *)
Definition notifyChange (e : Editor) : Editor := callOnChange e (getText e).

Definition isEditorEmpty (e : Editor) : bool :=
  (length (lines e) =? 1)%nat && isEmpty (lineAt (lines e) 0).

Definition setTextInternal (e : Editor) (text : jsstring) : Editor :=
  let ls := split LF (normalizeNewlines text) in
  let ls' := match ls with [] => [[]] | _ :: _ => ls end in
  let e1 := e<|lines := ls'|> in
  let e2 := e1<|cursorLine := (length (lines e1) - 1)%nat|> in
  let e3 := e2<|cursorCol := len (lineAt (lines e2) (cursorLine e2))|> in
  let e4 := e3<|scrollOffset := 0|> in
  notifyChange e4.


Definition navigateHistory (e : Editor) (direction : Z) : Editor :=
  if (length (history e) =? 0)%nat then e
  else
    let newIndex := historyIndex e - direction in
    if (newIndex <? -1) || (newIndex >=? len (history e)) then e
    else
      let e1 := e<|historyIndex := newIndex|> in
      if historyIndex e1 =? -1 then setTextInternal e1 []
      else setTextInternal e1 (lineAt (history e1) (Z.to_nat (historyIndex e1))).

(* --------------------------------------------------------------------- *)
(** *** Paste markers (lines 735-742 and 907-914) *)
(* --------------------------------------------------------------------- *)

Module Marker.

(** What one match of the marker pattern captured: the length of the match
    and the two groups. *)
Record Match := { mLength : nat; cap1 : option jsstring; cap2 : option jsstring }.

(** The literal head of the pattern for paste [pasteId]. *)
Definition head (pasteId : Z) : jsstring :=
  str "[paste #" ++ toDecimal pasteId.

(** The alternation inside the optional group, after its leading space: a
    plus sign, digits and [" lines"], or digits and [" chars"].  Returns the
    text of the alternative and what follows it. *)
Definition matchCount (s : jsstring) : option (jsstring * jsstring) :=
  match s with
  | c :: r =>
      if c =? 43 then
        let (ds, rest) := spanDigits r in
        if negb (isEmpty ds) && startsWith rest (str " lines") then
          Some (c :: ds ++ str " lines", skipn 6 rest)
        else None
      else
        let (ds, rest) := spanDigits s in
        if negb (isEmpty ds) && startsWith rest (str " chars") then
          Some (ds ++ str " chars", skipn 6 rest)
        else None
  | [] => None
  end.

(** An anchored match of the marker pattern for [pasteId] at the head of
    [s].  The optional group is tried first; if it matches, a closing
    bracket has to follow, because without the group the bracket would have
    to stand where the group's space is. *)
Definition matchAt (pasteId : Z) (s : jsstring) : option Match :=
  if startsWith s (head pasteId) then
    let r := skipn (length (head pasteId)) s in
    match r with
    | c :: r' =>
        if c =? 93 then
          Some {| mLength := S (length (head pasteId)); cap1 := None; cap2 := None |}
        else if c =? 32 then
          match matchCount r' with
          | Some (g2, rest) =>
              if startsWith rest [93] then
                Some {| mLength := length (head pasteId) + 1 + length g2 + 1;
                        cap1 := Some (32 :: g2); cap2 := Some g2 |}
              else None
          | None => None
          end
        else None
    | [] => None
    end
  else None.

Definition capture (c : option jsstring) : jsstring :=
  match c with Some s => s | None => [] end.

(** The replacement text of [String.prototype.replace] for a pattern with
    two capture groups: in the replacement string a dollar sign followed by
    a dollar sign, an ampersand, a backquote, a quote, or a group number
    (1, 2, 01 or 02) is a substitution; everything else is literal. *)
Fixpoint substitution (tpl : jsstring) (matched before after : jsstring)
    (m : Match) : jsstring :=
  match tpl with
  | [] => []
  | c :: r =>
      if c =? 36 then
        match r with
        | d :: r' =>
            if d =? 36 then 36 :: substitution r' matched before after m
            else if d =? 38 then matched ++ substitution r' matched before after m
            else if d =? 96 then before ++ substitution r' matched before after m
            else if d =? 39 then after ++ substitution r' matched before after m
            else if d =? 49 then capture (cap1 m) ++ substitution r' matched before after m
            else if d =? 50 then capture (cap2 m) ++ substitution r' matched before after m
            else if d =? 48 then
              match r' with
              | d2 :: r'' =>
                  if d2 =? 49 then capture (cap1 m) ++ substitution r'' matched before after m
                  else if d2 =? 50 then capture (cap2 m) ++ substitution r'' matched before after m
                  else 36 :: substitution r matched before after m
              | [] => 36 :: substitution r matched before after m
              end
            else 36 :: substitution r matched before after m
        | [] => [36]
        end
      else c :: substitution r matched before after m
  end.

(** [result.replace(markerRegex, pasteContent)] with the global flag: the
    matches are found left to right in the subject and do not overlap; the
    text put in is not scanned again.  [done] is the part of the subject
    already passed, most recent unit first. *)
Fixpoint replaceFrom (fuel : nat) (pasteId : Z) (pasteContent : jsstring)
    (done : jsstring) (s : jsstring) : jsstring :=
  match fuel with
  | O => s
  | S f =>
      match matchAt pasteId s with
      | Some m =>
          let matched := firstn (mLength m) s in
          let after := skipn (mLength m) s in
          substitution pasteContent matched (rev done) after m
            ++ replaceFrom f pasteId pasteContent (rev matched ++ done) after
      | None =>
          match s with
          | [] => []
          | c :: r => c :: replaceFrom f pasteId pasteContent (c :: done) r
          end
      end
  end.

Definition replaceMarkers (pasteId : Z) (pasteContent : jsstring) (s : jsstring) : jsstring :=
  replaceFrom (S (length s)) pasteId pasteContent [] s.

(** [for (const [pasteId, pasteContent] of this.pastes) result = result.replace(...)] *)
Definition expand (pastes : list (Z * jsstring)) (s : jsstring) : jsstring :=
  fold_left (fun result p => replaceMarkers (fst p) (snd p) result) pastes s.

End Marker.

Definition getExpandedText (e : Editor) : jsstring :=
  Marker.expand (pastes e) (join LF (lines e)).

(* ===================================================================== *)
(** ** Editing operations (editor.ts, lines 933-1637) *)
(* ===================================================================== *)

Section Operations.
Context (H : Host).

(* --------------------------------------------------------------------- *)
(** *** Autocomplete bookkeeping (lines 1521-1636) *)
(* --------------------------------------------------------------------- *)

Definition cancelAutocomplete (e : Editor) : Editor :=
  e<|isAutocompleting := false|><|autocompleteList := None|><|autocompletePrefix := []|>.

Definition isAtStartOfMessage (e : Editor) : bool :=
  let currentLine := lineAt (lines e) (cursorLine e) in
  let beforeCursor := slice currentLine 0 (cursorCol e) in
  isEmpty (trim beforeCursor) || streq (trim beforeCursor) [47].

(** The common tail of [tryTriggerAutocomplete] and [forceFileAutocomplete]. *)
Definition showSuggestions (e : Editor) (s : option Suggestions) : Editor :=
  match s with
  | Some sg =>
      if (0 <? length (items sg))%nat then
        e<|autocompletePrefix := prefix sg|>
         <|autocompleteList := Some {| slItems := items sg; selectedIndex := 0 |}|>
         <|isAutocompleting := true|>
      else cancelAutocomplete e
  | None => cancelAutocomplete e
  end.

Definition tryTriggerAutocomplete (explicitTab : bool) (e : Editor) : Editor :=
  match autocompleteProvider e with
  | None => e
  | Some provider =>
      let shouldTrigger :=
        match shouldTriggerFileCompletion provider with
        | None => true
        | Some f => f (lines e) (cursorLine e) (cursorCol e)
        end in
      if explicitTab && negb shouldTrigger then e
      else showSuggestions e
             (getSuggestions provider (lines e) (cursorLine e) (cursorCol e))
  end.

Definition forceFileAutocomplete (e : Editor) : Editor :=
  match autocompleteProvider e with
  | None => e
  | Some provider =>
      match getForceFileSuggestions provider with
      | None => tryTriggerAutocomplete true e
      | Some force =>
          showSuggestions e (force (lines e) (cursorLine e) (cursorCol e))
      end
  end.

Definition handleSlashCommandCompletion (e : Editor) : Editor :=
  tryTriggerAutocomplete true e.

Definition handleTabCompletion (e : Editor) : Editor :=
  match autocompleteProvider e with
  | None => e
  | Some _ =>
      let currentLine := lineAt (lines e) (cursorLine e) in
      let beforeCursor := slice currentLine 0 (cursorCol e) in
      if startsWith (trimStart beforeCursor) [47]
         && negb (includes (trimStart beforeCursor) [SPACE])
      then handleSlashCommandCompletion e
      else forceFileAutocomplete e
  end.

Definition updateAutocomplete (e : Editor) : Editor :=
  if negb (isAutocompleting e) then e
  else
    match autocompleteProvider e with
    | None => e
    | Some provider =>
        match getSuggestions provider (lines e) (cursorLine e) (cursorCol e) with
        | Some sg =>
            if (0 <? length (items sg))%nat then
              e<|autocompletePrefix := prefix sg|>
               <|autocompleteList := Some {| slItems := items sg; selectedIndex := 0 |}|>
            else cancelAutocomplete e
        | None => cancelAutocomplete e
        end
    end.

(** Whether the text ends in an at-sign reference: an at-sign at the start
    or after a blank, followed by non-blanks up to the end. *)
Fixpoint atRefFrom (boundary : bool) (s : jsstring) : bool :=
  match s with
  | [] => false
  | c :: r =>
      (boundary && (c =? 64) && forallb (fun d => negb (isJsSpace d)) r)
      || atRefFrom (isJsSpace c) r
  end.

Definition endsInAtReference (s : jsstring) : bool := atRefFrom true s.

(** The character class of letters, digits, dot, hyphen and underscore,
    tested anywhere in the inserted string. *)
Definition isCommandUnit (c : Z) : bool :=
  isWordUnit c || (c =? 46) || (c =? 45).

(** The "re-trigger" tail shared by backspace and forward delete. *)
Definition retriggerAutocomplete (e : Editor) : Editor :=
  if isAutocompleting e then updateAutocomplete e
  else
    let currentLine := lineAt (lines e) (cursorLine e) in
    let textBeforeCursor := slice currentLine 0 (cursorCol e) in
    if startsWith (trimStart textBeforeCursor) [47] then tryTriggerAutocomplete false e
    else if endsInAtReference textBeforeCursor then tryTriggerAutocomplete false e
    else e.

(* --------------------------------------------------------------------- *)
(** *** Insertion (lines 933-1108) *)
(* --------------------------------------------------------------------- *)

(** [insertCharacter], first half (lines 941-953): the buffer update and
    the change notification. *)
Definition insertCharacterText (e : Editor) (char : jsstring) : Editor :=
  let e1 := e<|historyIndex := -1|> in
  let line := lineAt (lines e1) (cursorLine e1) in
  let before := slice line 0 (cursorCol e1) in
  let after := sliceFrom line (cursorCol e1) in
  let e2 := e1<|lines := setLineAt (lines e1) (cursorLine e1) (before ++ char ++ after)|> in
  let e3 := e2<|cursorCol := cursorCol e2 + len char|> in
  notifyChange e3.

(** [insertCharacter]: the first half, then the autocomplete check (lines
    955-986). *)
Definition insertCharacter (e : Editor) (char : jsstring) : Editor :=
  let e4 := insertCharacterText e char in
  if negb (isAutocompleting e4) then
    if streq char [47] && isAtStartOfMessage e4 then tryTriggerAutocomplete false e4
    else if streq char [64] then
      let currentLine := lineAt (lines e4) (cursorLine e4) in
      let textBeforeCursor := slice currentLine 0 (cursorCol e4) in
      let charBeforeAt := nthZ textBeforeCursor (len textBeforeCursor - 2) in
      if (len textBeforeCursor =? 1)
         || match charBeforeAt with
            | Some c => (c =? SPACE) || (c =? TAB)
            | None => false
            end
      then tryTriggerAutocomplete false e4
      else e4
    else if existsb isCommandUnit char then
      let currentLine := lineAt (lines e4) (cursorLine e4) in
      let textBeforeCursor := slice currentLine 0 (cursorCol e4) in
      if startsWith (trimStart textBeforeCursor) [47] then tryTriggerAutocomplete false e4
      else if endsInAtReference textBeforeCursor then tryTriggerAutocomplete false e4
      else e4
    else e4
  else updateAutocomplete e4.

Definition insertTextAtCursor (e : Editor) (text : jsstring) : Editor :=
  fold_left insertCharacter (codePoints text) e.

(** The cleaning of a pasted text: line endings, tabs, control characters. *)
Definition cleanPaste (pastedText : jsstring) : jsstring :=
  let cleanText := normalizeNewlines pastedText in
  let tabExpandedText := expandTabs cleanText in
  filter (fun c => (c =? LF) || (c >=? 32)) tabExpandedText.

(** [filteredText] as it stands when the lines are counted: cleaned, and
    with a space in front when a path is pasted right after a word
    character. *)
Definition filteredPaste (e : Editor) (pastedText : jsstring) : jsstring :=
  let filteredText := cleanPaste pastedText in
  match filteredText with
  | c :: _ =>
      if (c =? 47) || (c =? 126) || (c =? 46) then
        let currentLine := lineAt (lines e) (cursorLine e) in
        let charBeforeCursor :=
          if cursorCol e >? 0 then nthZ currentLine (cursorCol e - 1) else None in
        match charBeforeCursor with
        | Some b => if isWordUnit b then SPACE :: filteredText else filteredText
        | None => filteredText
        end
      else filteredText
  | [] => filteredText
  end.

Definition linesMarker (pasteId : Z) (n : Z) : jsstring :=
  str "[paste #" ++ toDecimal pasteId ++ str " +" ++ toDecimal n ++ str " lines]".

Definition charsMarker (pasteId : Z) (n : Z) : jsstring :=
  str "[paste #" ++ toDecimal pasteId ++ str " " ++ toDecimal n ++ str " chars]".


Definition handlePaste (e : Editor) (pastedText : jsstring) : Editor :=
  let e1 := e<|historyIndex := -1|> in
  let filteredText := filteredPaste e1 pastedText in
  let pastedLines := split LF filteredText in
  let totalChars := len filteredText in
  if (len pastedLines >? 10) || (totalChars >? 1000) then
    let e2 := e1<|pasteCounter := pasteCounter e1 + 1|> in
    let pasteId := pasteCounter e2 in
    let e3 := e2<|pastes := mapSet pasteId filteredText (pastes e2)|> in
    let marker :=
      if len pastedLines >? 10 then linesMarker pasteId (len pastedLines)
      else charsMarker pasteId totalChars in
    fold_left insertCharacter (codePoints marker) e3
  else if len pastedLines =? 1 then
    let text := lineAt pastedLines 0 in
    fold_left insertCharacter (codePoints text) e1
  else
    let currentLine := lineAt (lines e1) (cursorLine e1) in
    let beforeCursor := slice currentLine 0 (cursorCol e1) in
    let afterCursor := sliceFrom currentLine (cursorCol e1) in
    let newLines :=
      map (lineAt (lines e1)) (seq 0 (cursorLine e1))
      ++ [beforeCursor ++ lineAt pastedLines 0]
      ++ map (lineAt pastedLines) (seq 1 (length pastedLines - 2))
      ++ [lineAt pastedLines (length pastedLines - 1) ++ afterCursor]
      ++ map (lineAt (lines e1))
           (seq (cursorLine e1 + 1) (length (lines e1) - (cursorLine e1 + 1))) in
    let e2 := e1<|lines := newLines|> in
    let e3 := e2<|cursorLine := (cursorLine e2 + (length pastedLines - 1))%nat|> in
    let e4 := e3<|cursorCol := len (lineAt pastedLines (length pastedLines - 1))|> in
    notifyChange e4.

(** [lines.splice(i, 0, x)] *)
Definition spliceIn (ls : list jsstring) (i : nat) (x : jsstring) : list jsstring :=
  firstn i ls ++ x :: skipn i ls.

(** [lines.splice(i, 1)] *)
Definition spliceOut (ls : list jsstring) (i : nat) : list jsstring :=
  firstn i ls ++ skipn (S i) ls.

Definition addNewLine (e : Editor) : Editor :=
  let e1 := e<|historyIndex := -1|> in
  let currentLine := lineAt (lines e1) (cursorLine e1) in
  let before := slice currentLine 0 (cursorCol e1) in
  let after := sliceFrom currentLine (cursorCol e1) in
  let e2 := e1<|lines := setLineAt (lines e1) (cursorLine e1) before|> in
  let e3 := e2<|lines := spliceIn (lines e2) (cursorLine e2 + 1) after|> in
  let e4 := e3<|cursorLine := (cursorLine e3 + 1)%nat|><|cursorCol := 0|> in
  notifyChange e4.

(* --------------------------------------------------------------------- *)
(** *** Cursor motion inside a line and by words (lines 1162-1169, 1436-1519) *)
(* --------------------------------------------------------------------- *)

Definition moveToLineStart (e : Editor) : Editor := e<|cursorCol := 0|>.

Definition moveToLineEnd (e : Editor) : Editor :=
  let currentLine := lineAt (lines e) (cursorLine e) in
  e<|cursorCol := len currentLine|>.

(** [while (graphemes.length > 0 && p(last)) newCol -= graphemes.pop().length],
    on the graphemes in reverse order. *)
Fixpoint popWhile (p : jsstring -> bool) (reversed : list jsstring) (newCol : Z)
    : list jsstring * Z :=
  match reversed with
  | g :: r => if p g then popWhile p r (newCol - len g) else (reversed, newCol)
  | [] => ([], newCol)
  end.

Definition isWordGrapheme (g : jsstring) : bool :=
  negb (isWhitespaceChar H g) && negb (isPunctuationChar H g).

Definition moveWordBackwards (e : Editor) : Editor :=
  let currentLine := lineAt (lines e) (cursorLine e) in
  if cursorCol e =? 0 then
    if (0 <? cursorLine e)%nat then
      let e1 := e<|cursorLine := (cursorLine e - 1)%nat|> in
      let prevLine := lineAt (lines e1) (cursorLine e1) in
      e1<|cursorCol := len prevLine|>
    else e
  else
    let textBeforeCursor := slice currentLine 0 (cursorCol e) in
    let graphemes := rev (segment H textBeforeCursor) in
    let '(graphemes1, newCol1) := popWhile (isWhitespaceChar H) graphemes (cursorCol e) in
    let newCol2 :=
      match graphemes1 with
      | lastGrapheme :: _ =>
          if isPunctuationChar H lastGrapheme
          then snd (popWhile (isPunctuationChar H) graphemes1 newCol1)
          else snd (popWhile isWordGrapheme graphemes1 newCol1)
      | [] => newCol1
      end in
    e<|cursorCol := newCol2|>.

(** [while (!next.done && p(next.value.segment)) cursorCol += ...; next = iterator.next()] *)
Fixpoint skipWhile (p : jsstring -> bool) (segments : list jsstring) (col : Z)
    : list jsstring * Z :=
  match segments with
  | g :: r => if p g then skipWhile p r (col + len g) else (segments, col)
  | [] => ([], col)
  end.

Definition moveWordForwards (e : Editor) : Editor :=
  let currentLine := lineAt (lines e) (cursorLine e) in
  if cursorCol e >=? len currentLine then
    if (cursorLine e <? length (lines e) - 1)%nat then
      e<|cursorLine := (cursorLine e + 1)%nat|><|cursorCol := 0|>
    else e
  else
    let textAfterCursor := sliceFrom currentLine (cursorCol e) in
    let segments := segment H textAfterCursor in
    let '(rest1, col1) := skipWhile (isWhitespaceChar H) segments (cursorCol e) in
    let col2 :=
      match rest1 with
      | firstGrapheme :: _ =>
          if isPunctuationChar H firstGrapheme
          then snd (skipWhile (isPunctuationChar H) rest1 col1)
          else snd (skipWhile isWordGrapheme rest1 col1)
      | [] => col1
      end in
    e<|cursorCol := col2|>.

(* --------------------------------------------------------------------- *)
(** *** Deletion (lines 1110-1160, 1171-1287) *)
(* --------------------------------------------------------------------- *)

(** The "merge with previous line" block shared by the backward deletions. *)
Definition mergeWithPrevious (e : Editor) : Editor :=
  let currentLine := lineAt (lines e) (cursorLine e) in
  let previousLine := lineAt (lines e) (cursorLine e - 1) in
  let e1 := e<|lines := setLineAt (lines e) (cursorLine e - 1) (previousLine ++ currentLine)|> in
  let e2 := e1<|lines := spliceOut (lines e1) (cursorLine e1)|> in
  e2<|cursorLine := (cursorLine e2 - 1)%nat|><|cursorCol := len previousLine|>.

(** The "merge with next line" block shared by the forward deletions. *)
Definition mergeWithNext (e : Editor) : Editor :=
  let currentLine := lineAt (lines e) (cursorLine e) in
  let nextLine := lineAt (lines e) (cursorLine e + 1) in
  let e1 := e<|lines := setLineAt (lines e) (cursorLine e) (currentLine ++ nextLine)|> in
  e1<|lines := spliceOut (lines e1) (cursorLine e1 + 1)|>.

Definition handleBackspace (e : Editor) : Editor :=
  let e1 := e<|historyIndex := -1|> in
  let e2 :=
    if cursorCol e1 >? 0 then
      let line := lineAt (lines e1) (cursorLine e1) in
      let beforeCursor := slice line 0 (cursorCol e1) in
      let graphemes := segment H beforeCursor in
      let graphemeLength :=
        match rev graphemes with
        | lastGrapheme :: _ => len lastGrapheme
        | [] => 1
        end in
      let before := slice line 0 (cursorCol e1 - graphemeLength) in
      let after := sliceFrom line (cursorCol e1) in
      e1<|lines := setLineAt (lines e1) (cursorLine e1) (before ++ after)|>
        <|cursorCol := cursorCol e1 - graphemeLength|>
    else if (0 <? cursorLine e1)%nat then mergeWithPrevious e1
    else e1 in
  retriggerAutocomplete (notifyChange e2).

Definition deleteToStartOfLine (e : Editor) : Editor :=
  let e1 := e<|historyIndex := -1|> in
  let currentLine := lineAt (lines e1) (cursorLine e1) in
  let e2 :=
    if cursorCol e1 >? 0 then
      e1<|lines := setLineAt (lines e1) (cursorLine e1) (sliceFrom currentLine (cursorCol e1))|>
        <|cursorCol := 0|>
    else if (0 <? cursorLine e1)%nat then mergeWithPrevious e1
    else e1 in
  notifyChange e2.

Definition deleteToEndOfLine (e : Editor) : Editor :=
  let e1 := e<|historyIndex := -1|> in
  let currentLine := lineAt (lines e1) (cursorLine e1) in
  let e2 :=
    if cursorCol e1 <? len currentLine then
      e1<|lines := setLineAt (lines e1) (cursorLine e1) (slice currentLine 0 (cursorCol e1))|>
    else if (cursorLine e1 <? length (lines e1) - 1)%nat then mergeWithNext e1
    else e1 in
  notifyChange e2.

Definition deleteWordBackwards (e : Editor) : Editor :=
  let e1 := e<|historyIndex := -1|> in
  let currentLine := lineAt (lines e1) (cursorLine e1) in
  let e2 :=
    if cursorCol e1 =? 0 then
      if (0 <? cursorLine e1)%nat then mergeWithPrevious e1 else e1
    else
      let oldCursorCol := cursorCol e1 in
      let moved := moveWordBackwards e1 in
      let deleteFrom := cursorCol moved in
      let back := moved<|cursorCol := oldCursorCol|> in
      back<|lines := setLineAt (lines back) (cursorLine back)
                       (slice currentLine 0 deleteFrom ++ sliceFrom currentLine (cursorCol back))|>
          <|cursorCol := deleteFrom|> in
  notifyChange e2.

Definition handleForwardDelete (e : Editor) : Editor :=
  let e1 := e<|historyIndex := -1|> in
  let currentLine := lineAt (lines e1) (cursorLine e1) in
  let e2 :=
    if cursorCol e1 <? len currentLine then
      let afterCursor := sliceFrom currentLine (cursorCol e1) in
      let graphemes := segment H afterCursor in
      let graphemeLength :=
        match graphemes with
        | firstGrapheme :: _ => len firstGrapheme
        | [] => 1
        end in
      let before := slice currentLine 0 (cursorCol e1) in
      let after := sliceFrom currentLine (cursorCol e1 + graphemeLength) in
      e1<|lines := setLineAt (lines e1) (cursorLine e1) (before ++ after)|>
    else if (cursorLine e1 <? length (lines e1) - 1)%nat then mergeWithNext e1
    else e1 in
  retriggerAutocomplete (notifyChange e2).

End Operations.

(* ===================================================================== *)
(** ** Visual lines, vertical motion and input dispatch
       (editor.ts, lines 362-376, 568-809, 1289-1434) *)
(* ===================================================================== *)

Section Input.
Context (H : Host).

Definition visualLinesOf (width : Z) (i : nat) (line : jsstring) : list VisualLine :=
  let lineVisWidth := visibleWidth H line in
  if len line =? 0 then [{| logicalLine := i; startCol := 0; vlLength := 0 |}]
  else if lineVisWidth <=? width then
    [{| logicalLine := i; startCol := 0; vlLength := len line |}]
  else
    map (fun chunk =>
           {| logicalLine := i; startCol := startIndex chunk;
              vlLength := endIndex chunk - startIndex chunk |})
        (wordWrapLine H line width).

Definition buildVisualLineMap (e : Editor) (width : Z) : list VisualLine :=
  flat_map (fun i => visualLinesOf width i (lineAt (lines e) i))
           (seq 0 (length (lines e))).

(** The loop of [findCurrentVisualLine] from index [i] on; [None] when it
    runs to the end. *)
Fixpoint findVisualFrom (e : Editor) (i : nat) (vls : list VisualLine) : option nat :=
  match vls with
  | [] => None
  | vl :: rest =>
      let here :=
        if (logicalLine vl =? cursorLine e)%nat then
          let colInSegment := cursorCol e - startCol vl in
          let isLastSegmentOfLine :=
            match rest with
            | [] => true
            | next :: _ => negb (logicalLine next =? logicalLine vl)%nat
            end in
          (colInSegment >=? 0)
          && ((colInSegment <? vlLength vl)
              || (isLastSegmentOfLine && (colInSegment <=? vlLength vl)))
        else false in
      if here then Some i else findVisualFrom e (S i) rest
  end.

Definition findCurrentVisualLine (e : Editor) (visualLines : list VisualLine) : Z :=
  match findVisualFrom e 0 visualLines with
  | Some i => Z.of_nat i
  | None => len visualLines - 1
  end.

Definition isOnFirstVisualLine (e : Editor) : bool :=
  let visualLines := buildVisualLineMap e (lastWidth e) in
  findCurrentVisualLine e visualLines =? 0.

Definition isOnLastVisualLine (e : Editor) : bool :=
  let visualLines := buildVisualLineMap e (lastWidth e) in
  findCurrentVisualLine e visualLines =? len visualLines - 1.

(** The cursor placed on visual line [targetVL], keeping the column
    [visualCol]: the part shared by [moveCursor] and [pageScroll]. *)
Definition placeOn (e : Editor) (targetVL : VisualLine) (visualCol : Z) : Editor :=
  let e1 := e<|cursorLine := logicalLine targetVL|> in
  let targetCol := startCol targetVL + Z.min visualCol (vlLength targetVL) in
  let logical := lineAt (lines e1) (logicalLine targetVL) in
  e1<|cursorCol := Z.min targetCol (len logical)|>.

Definition moveCursor (e : Editor) (deltaLine deltaCol : Z) : Editor :=
  let width := lastWidth e in
  let e1 :=
    if negb (deltaLine =? 0) then
      let visualLines := buildVisualLineMap e width in
      let currentVisualLine := findCurrentVisualLine e visualLines in
      let visualCol :=
        match nthZ visualLines currentVisualLine with
        | Some currentVL => cursorCol e - startCol currentVL
        | None => 0
        end in
      let targetVisualLine := currentVisualLine + deltaLine in
      if (targetVisualLine >=? 0) && (targetVisualLine <? len visualLines) then
        match nthZ visualLines targetVisualLine with
        | Some targetVL => placeOn e targetVL visualCol
        | None => e
        end
      else e
    else e in
  if negb (deltaCol =? 0) then
    let currentLine := lineAt (lines e1) (cursorLine e1) in
    if deltaCol >? 0 then
      if cursorCol e1 <? len currentLine then
        let afterCursor := sliceFrom currentLine (cursorCol e1) in
        let step :=
          match segment H afterCursor with
          | firstGrapheme :: _ => len firstGrapheme
          | [] => 1
          end in
        e1<|cursorCol := cursorCol e1 + step|>
      else if (cursorLine e1 <? length (lines e1) - 1)%nat then
        e1<|cursorLine := (cursorLine e1 + 1)%nat|><|cursorCol := 0|>
      else e1
    else
      if cursorCol e1 >? 0 then
        let beforeCursor := slice currentLine 0 (cursorCol e1) in
        let step :=
          match rev (segment H beforeCursor) with
          | lastGrapheme :: _ => len lastGrapheme
          | [] => 1
          end in
        e1<|cursorCol := cursorCol e1 - step|>
      else if (0 <? cursorLine e1)%nat then
        let e2 := e1<|cursorLine := (cursorLine e1 - 1)%nat|> in
        let prevLine := lineAt (lines e2) (cursorLine e2) in
        e2<|cursorCol := len prevLine|>
      else e1
  else e1.

(** [Math.max(5, Math.floor(terminalRows * 0.3))]; for a whole number of
    rows the product differs from three tenths of it by less than the
    distance to the next integer, so the floor is that of the exact
    quotient. *)
Definition pageSizeOf (rows : Z) : Z := Z.max 5 (rows * 3 / 10).

Definition pageScroll (e : Editor) (direction : Z) : Editor :=
  let width := lastWidth e in
  let pageSize := pageSizeOf (terminalRows e) in
  let visualLines := buildVisualLineMap e width in
  let currentVisualLine := findCurrentVisualLine e visualLines in
  let targetVisualLine :=
    Z.max 0 (Z.min (len visualLines - 1) (currentVisualLine + direction * pageSize)) in
  match nthZ visualLines targetVisualLine with
  | Some targetVL =>
      let visualCol :=
        match nthZ visualLines currentVisualLine with
        | Some currentVL => cursorCol e - startCol currentVL
        | None => 0
        end in
      placeOn e targetVL visualCol
  | None => e
  end.

(** The body of the [submit] branch of [handleInput] (lines 735-752). *)
Definition submit (e : Editor) : Editor :=
  if disableSubmit e then e
  else
    let result := trim (join LF (lines e)) in
    let result := Marker.expand (pastes e) result in
    let e1 := e<|lines := [[]]|><|cursorLine := 0%nat|><|cursorCol := 0|> in
    let e2 := e1<|pastes := []|><|pasteCounter := 0|>
                <|historyIndex := -1|><|scrollOffset := 0|> in
    callOnSubmit (callOnChange e2 []) result.

Definition pasteStart : jsstring := ESC :: str "[200~".
Definition pasteEnd : jsstring := ESC :: str "[201~".

(** The long disjunction of lines 721-729. *)
Definition isNewLineInput (data : jsstring) : bool :=
  kbMatches H data Action.newLine
  || (match charCodeAt0 data with Some c => c =? 10 | None => false end
      && (len data >? 1))
  || streq data [ESC; CR]
  || streq data (ESC :: str "[13;2~")
  || ((len data >? 1) && includes data [ESC] && includes data [CR])
  || (streq data [LF] && (len data =? 1))
  || streq data [92; CR].

(** The autocomplete block of [handleInput] (lines 617-672): [inl] when it
    returned, [inr] when control falls through to the rest. *)
Definition autocompleteKeys (e : Editor) (data : jsstring) : Editor + Editor :=
  match isAutocompleting e, autocompleteList e with
  | true, Some list =>
      if kbMatches H data Action.selectCancel then inl (cancelAutocomplete e)
      else if kbMatches H data Action.selectUp || kbMatches H data Action.selectDown then
        inl (e<|autocompleteList := Some (selectListHandleInput H list data)|>)
      else if kbMatches H data Action.tab then
        match getSelectedItem list, autocompleteProvider e with
        | Some selected, Some provider =>
            let result := applyCompletion provider (lines e) (cursorLine e)
                            (cursorCol e) selected (autocompletePrefix e) in
            let e1 := e<|lines := resLines result|>
                       <|cursorLine := resCursorLine result|>
                       <|cursorCol := resCursorCol result|> in
            inl (notifyChange (cancelAutocomplete e1))
        | _, _ => inl e
        end
      else if kbMatches H data Action.selectConfirm then
        match getSelectedItem list, autocompleteProvider e with
        | Some selected, Some provider =>
            let result := applyCompletion provider (lines e) (cursorLine e)
                            (cursorCol e) selected (autocompletePrefix e) in
            let e1 := e<|lines := resLines result|>
                       <|cursorLine := resCursorLine result|>
                       <|cursorCol := resCursorCol result|> in
            if startsWith (autocompletePrefix e1) [47] then inr (cancelAutocomplete e1)
            else inl (notifyChange (cancelAutocomplete e1))
        | _, _ => inr e
        end
      else inr e
  | _, _ => inr e
  end.

(** [handleInput] from the tab test on (lines 674-808). *)
Definition editingKeys (e : Editor) (data : jsstring) : Editor :=
  let kb := kbMatches H data in
  if kb Action.tab && negb (isAutocompleting e) then handleTabCompletion e
  else if kb Action.deleteToLineEnd then deleteToEndOfLine e
  else if kb Action.deleteToLineStart then deleteToStartOfLine e
  else if kb Action.deleteWordBackward then deleteWordBackwards H e
  else if kb Action.deleteCharBackward || matchesKey H data shiftBackspace then
    handleBackspace H e
  else if kb Action.deleteCharForward || matchesKey H data shiftDelete then
    handleForwardDelete H e
  else if kb Action.cursorLineStart then moveToLineStart e
  else if kb Action.cursorLineEnd then moveToLineEnd e
  else if kb Action.cursorWordLeft then moveWordBackwards H e
  else if kb Action.cursorWordRight then moveWordForwards H e
  else if isNewLineInput data then addNewLine e
  else if kb Action.submit then submit e
  else if kb Action.cursorUp then
    if isEditorEmpty e then navigateHistory e (-1)
    else if (historyIndex e >? -1) && isOnFirstVisualLine e then navigateHistory e (-1)
    else moveCursor e (-1) 0
  else if kb Action.cursorDown then
    if (historyIndex e >? -1) && isOnLastVisualLine e then navigateHistory e 1
    else moveCursor e 1 0
  else if kb Action.cursorRight then moveCursor e 0 1
  else if kb Action.cursorLeft then moveCursor e 0 (-1)
  else if kb Action.pageUp then pageScroll e (-1)
  else if kb Action.pageDown then pageScroll e 1
  else if matchesKey H data shiftSpace then insertCharacter e [SPACE]
  else
    match decodeKittyPrintable data with
    | Some kittyPrintable => insertCharacter e kittyPrintable
    | None =>
        match charCodeAt0 data with
        | Some c => if c >=? 32 then insertCharacter e data else e
        | None => e
        end
    end.

(** [handleInput] after the bracketed-paste block (lines 597-808). *)
Definition handleKey (e : Editor) (data : jsstring) : Editor :=
  if pendingShiftEnter e && streq data [CR] then
    addNewLine (e<|pendingShiftEnter := false|>)
  else
    let e1 :=
      if pendingShiftEnter e then insertCharacter (e<|pendingShiftEnter := false|>) [92]
      else e in
    if streq data [92] then e1<|pendingShiftEnter := true|>
    else if kbMatches H data Action.copy then e1
    else
      match autocompleteKeys e1 data with
      | inl done => done
      | inr e2 => editingKeys e2 data
      end.

(** [handleInput].  It calls itself on what follows the end of a bracketed
    paste; [fuel] bounds the depth of these calls and [None] means that the
    bound was too small. *)
Fixpoint handleInputFuel (fuel : nat) (e : Editor) (data : jsstring) : option Editor :=
  let '(e1, data1) :=
    if includes data pasteStart then
      (e<|isInPaste := true|><|pasteBuffer := []|>, removeFirst data pasteStart)
    else (e, data) in
  if isInPaste e1 then
    let e2 := e1<|pasteBuffer := pasteBuffer e1 ++ data1|> in
    match indexOf (pasteBuffer e2) pasteEnd with
    | Some endIndex =>
        let pasteContent := substring (pasteBuffer e2) 0 endIndex in
        let e3 := if len pasteContent >? 0 then handlePaste e2 pasteContent else e2 in
        let e4 := e3<|isInPaste := false|> in
        let remaining := substringFrom (pasteBuffer e4) (endIndex + 6) in
        let e5 := e4<|pasteBuffer := []|> in
        if len remaining >? 0 then
          match fuel with
          | S f => handleInputFuel f e5 remaining
          | O => None
          end
        else Some e5
    | None => Some e2
    end
  else Some (handleKey e1 data1).

(** Each nested call receives a strictly shorter input, so the length of
    what is still to be read is always enough fuel. *)
Definition handleInput (e : Editor) (data : jsstring) : Editor :=
  match handleInputFuel (length (pasteBuffer e) + length data) e data with
  | Some e' => e'
  | None => e
  end.

(** A run of input events. *)
Definition handleInputs (e : Editor) (events : list jsstring) : Editor :=
  fold_left handleInput events e.

End Input.

(* ===================================================================== *)
(** ** Layout and rendering (editor.ts, lines 412-566 and 811-897) *)
(* ===================================================================== *)

Section Render.
Context (H : Host).

(** The layout lines of the chunks of one wrapped logical line; a chunk is
    the last one when nothing follows it. *)
Fixpoint layoutChunks (isCurrentLine : bool) (cursorPos : Z)
    (chunks : list TextChunk) : list LayoutLine :=
  match chunks with
  | [] => []
  | chunk :: rest =>
      let isLastChunk := match rest with [] => true | _ :: _ => false end in
      let hasCursorInChunk :=
        if isCurrentLine then
          if isLastChunk then cursorPos >=? startIndex chunk
          else (cursorPos >=? startIndex chunk) && (cursorPos <? endIndex chunk)
        else false in
      let adjustedCursorPos :=
        if isLastChunk then cursorPos - startIndex chunk
        else if cursorPos - startIndex chunk >? len (text chunk) then len (text chunk)
        else cursorPos - startIndex chunk in
      (if hasCursorInChunk then
         {| lText := text chunk; hasCursor := true; cursorPos := Some adjustedCursorPos |}
       else
         {| lText := text chunk; hasCursor := false; cursorPos := None |})
      :: layoutChunks isCurrentLine cursorPos rest
  end.

Definition layoutLine (e : Editor) (contentWidth : Z) (i : nat) : list LayoutLine :=
  let line := lineAt (lines e) i in
  let isCurrentLine := (i =? cursorLine e)%nat in
  let lineVisibleWidth := visibleWidth H line in
  if lineVisibleWidth <=? contentWidth then
    if isCurrentLine then
      [{| lText := line; hasCursor := true; cursorPos := Some (cursorCol e) |}]
    else [{| lText := line; hasCursor := false; cursorPos := None |}]
  else layoutChunks isCurrentLine (cursorCol e) (wordWrapLine H line contentWidth).

Definition layoutText (e : Editor) (contentWidth : Z) : list LayoutLine :=
  if (length (lines e) =? 0)%nat
     || ((length (lines e) =? 1)%nat && isEmpty (lineAt (lines e) 0))
  then [{| lText := []; hasCursor := true; cursorPos := Some 0 |}]
  else flat_map (layoutLine e contentWidth) (seq 0 (length (lines e))).

Inductive BorderPosition := top | bottom.

Definition formatBorder (e : Editor) (text : jsstring) (position : BorderPosition) : jsstring :=
  if len text <=? 1 then text
  else
    let style := BORDER_STYLES (borderStyle e) in
    let leftChar := match position with top => topLeft style | bottom => bottomLeft style end in
    let rightChar := match position with top => topRight style | bottom => bottomRight style end in
    if isEmpty leftChar && isEmpty rightChar then text
    else leftChar ++ slice text 1 (-1) ++ rightChar.

Definition HLINE : Z := 9472.
Definition ARROW_UP : Z := 8593.
Definition ARROW_DOWN : Z := 8595.

(** The two scroll indicators: three rules, a space, an arrow, a space, the
    count, and the word "more" between spaces. *)
Definition scrollIndicator (arrow : Z) (n : Z) : jsstring :=
  [HLINE; HLINE; HLINE; SPACE; arrow; SPACE] ++ toDecimal n ++ str " more ".

(** A border line before corner substitution and colouring. *)
Definition borderLine (width : Z) (arrow : Z) (count : Z) : jsstring :=
  if count >? 0 then
    let indicator := scrollIndicator arrow count in
    let remaining := width - visibleWidth H indicator in
    indicator ++ repeatUnit HLINE (Z.max 0 remaining)
  else repeatUnit HLINE width.

Definition REVERSE_VIDEO : jsstring := ESC :: str "[7m".
Definition RESET : jsstring := ESC :: str "[0m".

(** The body of the loop over the visible layout lines (lines 484-537). *)
Definition renderLine (e : Editor) (contentWidth : Z) (leftPadding : jsstring)
    (l : LayoutLine) : jsstring :=
  let emitCursorMarker := focused e && negb (isAutocompleting e) in
  let displayText := lText l in
  let lineVisibleWidth := visibleWidth H (lText l) in
  let '(displayText, lineVisibleWidth) :=
    match hasCursor l, cursorPos l with
    | true, Some pos =>
        let before := slice displayText 0 pos in
        let after := sliceFrom displayText pos in
        let marker := if emitCursorMarker then CURSOR_MARKER H else [] in
        if len after >? 0 then
          let firstGrapheme :=
            match segment H after with g :: _ => g | [] => [] end in
          let restAfter := sliceFrom after (len firstGrapheme) in
          let cursor := REVERSE_VIDEO ++ firstGrapheme ++ RESET in
          (before ++ marker ++ cursor ++ restAfter, lineVisibleWidth)
        else if lineVisibleWidth <? contentWidth then
          let cursor := REVERSE_VIDEO ++ [SPACE] ++ RESET in
          (before ++ marker ++ cursor, lineVisibleWidth + 1)
        else
          let beforeGraphemes := segment H before in
          match rev beforeGraphemes with
          | lastGrapheme :: revInit =>
              let cursor := REVERSE_VIDEO ++ lastGrapheme ++ RESET in
              let beforeWithoutLast := concat (rev revInit) in
              (beforeWithoutLast ++ marker ++ cursor, lineVisibleWidth)
          | [] => (displayText, lineVisibleWidth)
          end
    | _, _ => (displayText, lineVisibleWidth)
    end in
  let padding := repeatUnit SPACE (Z.max 0 (contentWidth - lineVisibleWidth)) in
  leftPadding ++ displayText ++ padding ++ leftPadding.

(** [layoutLines.findIndex((line) => line.hasCursor)] *)
Fixpoint findCursorIndex (i : Z) (ls : list LayoutLine) : Z :=
  match ls with
  | [] => -1
  | l :: rest => if hasCursor l then i else findCursorIndex (i + 1) rest
  end.

(** [render]: the new state of the editor (it records the content width
    and the scroll offset) and the lines it returns. *)
Definition render (e : Editor) (width : Z) : Editor * list jsstring :=
  let maxPadding := Z.max 0 ((width - 1) / 2) in
  let paddingX' := Z.min (paddingX e) maxPadding in
  let contentWidth := Z.max 1 (width - paddingX' * 2) in
  let e1 := e<|lastWidth := contentWidth|> in
  let layoutLines := layoutText e1 contentWidth in
  let maxVisibleLines := pageSizeOf (terminalRows e1) in
  let cursorLineIndex :=
    let i := findCursorIndex 0 layoutLines in if i =? -1 then 0 else i in
  let e2 :=
    if cursorLineIndex <? scrollOffset e1 then e1<|scrollOffset := cursorLineIndex|>
    else if cursorLineIndex >=? scrollOffset e1 + maxVisibleLines then
      e1<|scrollOffset := cursorLineIndex - maxVisibleLines + 1|>
    else e1 in
  let maxScrollOffset := Z.max 0 (len layoutLines - maxVisibleLines) in
  let e3 := e2<|scrollOffset := Z.max 0 (Z.min (scrollOffset e2) maxScrollOffset)|> in
  let visibleLines := slice layoutLines (scrollOffset e3) (scrollOffset e3 + maxVisibleLines) in
  let leftPadding := repeatUnit SPACE paddingX' in
  let topBorder := borderLine width ARROW_UP (scrollOffset e3) in
  let topBorder := if width >? 1 then formatBorder e3 topBorder top else topBorder in
  let rows := map (renderLine e3 contentWidth leftPadding) visibleLines in
  let linesBelow := len layoutLines - (scrollOffset e3 + len visibleLines) in
  let bottomBorder := borderLine width ARROW_DOWN linesBelow in
  let bottomBorder := if width >? 1 then formatBorder e3 bottomBorder bottom else bottomBorder in
  let overlay :=
    match isAutocompleting e3, autocompleteList e3 with
    | true, Some list =>
        map (fun line =>
               let lineWidth := visibleWidth H line in
               let linePadding := repeatUnit SPACE (Z.max 0 (contentWidth - lineWidth)) in
               leftPadding ++ line ++ linePadding ++ leftPadding)
            (selectListRender H list contentWidth)
    | _, _ => []
    end in
  (e3, [borderColor e3 topBorder] ++ rows ++ [borderColor e3 bottomBorder] ++ overlay).

End Render.

(* ===================================================================== *)
(** ** Settings and accessors (editor.ts, lines 312-344, 916-922, 1616-1618) *)
(* ===================================================================== *)

(** A number handed over by JavaScript code: a finite value, which is a
    rational number, or one of NaN and the two infinities. *)
Inductive JsNumber := finite (q : QArith_base.Q) | notFinite.

(** [Number.isFinite(padding) ? Math.max(0, Math.floor(padding)) : 0], the
    expression of the constructor and of [setPaddingX]. *)
Definition paddingOf (padding : JsNumber) : Z :=
  match padding with
  | finite q => Z.max 0 (Qround.Qfloor q)
  | notFinite => 0
  end.

Definition getPaddingX (e : Editor) : Z := paddingX e.

(** [setPaddingX]; the boolean tells whether [tui.requestRender()] was
    called. *)
Definition setPaddingX (e : Editor) (padding : JsNumber) : Editor * bool :=
  let newPadding := paddingOf padding in
  if negb (paddingX e =? newPadding) then (e<|paddingX := newPadding|>, true)
  else (e, false).

Definition sameBorderStyle (a b : EditorBorderStyle) : bool :=
  match a, b with
  | rounded, rounded | sharp, sharp | none, none => true
  | _, _ => false
  end.

(** [setBorderStyle]; the boolean tells whether [tui.requestRender()] was
    called. *)
Definition setBorderStyle (e : Editor) (style : EditorBorderStyle) : Editor * bool :=
  if negb (sameBorderStyle (borderStyle e) style) then (e<|borderStyle := style|>, true)
  else (e, false).

Definition setAutocompleteProvider (e : Editor) (provider : AutocompleteProvider) : Editor :=
  e<|autocompleteProvider := Some provider|>.

(** [getLines] returns a copy of the array of lines. *)
Definition getLines (e : Editor) : list jsstring := lines e.

Definition getCursor (e : Editor) : nat * Z := (cursorLine e, cursorCol e).

Definition isShowingAutocomplete (e : Editor) : bool := isAutocompleting e.

(* ===================================================================== *)
(** ** The dynamic border component (src/unnamed/part_000) *)
(* ===================================================================== *)

Module DynamicBorder.

Inductive DynamicBorderType := top | bottom | line.
Inductive DynamicBorderStyle := rounded | sharp | none.

Definition BORDER_STYLES (s : DynamicBorderStyle) : BorderChars :=
  match s with
  | rounded => {| topLeft := [9581]; topRight := [9582];
                  bottomLeft := [9584]; bottomRight := [9583] |}
  | sharp => {| topLeft := [9484]; topRight := [9488];
                bottomLeft := [9492]; bottomRight := [9496] |}
  | none => {| topLeft := []; topRight := []; bottomLeft := []; bottomRight := [] |}
  end.

Record DynamicBorder := {
  color : jsstring -> jsstring;
  type : DynamicBorderType;
  style : DynamicBorderStyle
}.

(** The constructor; the default colour function is taken from the theme,
    which is given here by the caller. *)
Definition newDynamicBorder (themeColor : jsstring -> jsstring)
    (color : option (jsstring -> jsstring)) (type : option DynamicBorderType)
    (style : option DynamicBorderStyle) : DynamicBorder :=
  {| color := match color with Some c => c | None => themeColor end;
     type := match type with Some t => t | None => line end;
     style := match style with Some s => s | None => rounded end |}.

Definition formatBorder (b : DynamicBorder) (text : jsstring) : jsstring :=
  if match type b with line => true | _ => false end || (len text <=? 1) then text
  else
    let styleChars := BORDER_STYLES (style b) in
    let leftChar := match type b with top => topLeft styleChars | _ => bottomLeft styleChars end in
    let rightChar := match type b with top => topRight styleChars | _ => bottomRight styleChars end in
    if isEmpty leftChar && isEmpty rightChar then text
    else leftChar ++ slice text 1 (-1) ++ rightChar.

Definition render (b : DynamicBorder) (width : Z) : list jsstring :=
  let line := repeatUnit HLINE (Z.max 1 width) in
  [color b (formatBorder b line)].

End DynamicBorder.

(* ===================================================================== *)
(** ** A reference host

    Concrete stand-ins for the imported modules, used to run the editor on
    concrete inputs. *)
(* ===================================================================== *)

Module Ref.

(** Modelled from the spec: the grapheme segmenter of [utils.js] (which is
    not among the sources) splits a string into user-perceived characters;
    combining marks fold into the base.  This model keeps a code unit in the
    current cluster when it is a low surrogate after a high one, a combining
    mark, a variation selector or a zero-width joiner, when it follows a
    zero-width joiner, or when it is the line feed of a CR LF pair. *)
Definition isExtender (c : Z) : bool :=
  ((768 <=? c) && (c <=? 879)) || ((65024 <=? c) && (c <=? 65039)) || (c =? 8205).

Definition joins (prev c : Z) : bool :=
  (isHighSurrogate prev && isLowSurrogate c)
  || (isExtender c && (32 <=? prev))
  || (prev =? 8205)
  || ((prev =? CR) && (c =? LF)).

Fixpoint segmentFrom (cur : jsstring) (prev : Z) (s : jsstring) : list jsstring :=
  match s with
  | [] => [cur]
  | c :: r =>
      if joins prev c then segmentFrom (cur ++ [c]) c r
      else cur :: segmentFrom [c] c r
  end.

Definition segment (s : jsstring) : list jsstring :=
  match s with
  | [] => []
  | c :: r => segmentFrom [c] c r
  end.

(** Modelled from the spec: [isWhitespaceChar] of [utils.js] (not among the
    sources) tells whether a grapheme is white space. *)
Definition isWhitespaceChar (g : jsstring) : bool := existsb isJsSpace g.

(** Modelled from the spec: [isPunctuationChar] of [utils.js] (not among the
    sources) tells whether a grapheme is punctuation; here, the ASCII
    punctuation characters. *)
Definition isPunctuationChar (g : jsstring) : bool :=
  existsb (fun c => ((33 <=? c) && (c <=? 47)) || ((58 <=? c) && (c <=? 64))
                    || ((91 <=? c) && (c <=? 96)) || ((123 <=? c) && (c <=? 126))) g.

(** Columns taken by one code unit outside escape sequences: none for
    control characters, combining marks, joiners, variation selectors and
    low surrogates; two for East-Asian wide characters and for the high
    surrogate of an astral character; one otherwise. *)
Definition unitWidth (c : Z) : Z :=
  if (c <? 32) || ((127 <=? c) && (c <? 160)) || isExtender c || isLowSurrogate c then 0
  else if ((4352 <=? c) && (c <=? 4447)) || ((11904 <=? c) && (c <=? 42191))
          || ((44032 <=? c) && (c <=? 55203)) || ((63744 <=? c) && (c <=? 64255))
          || ((65072 <=? c) && (c <=? 65103)) || ((65280 <=? c) && (c <=? 65376))
          || ((65504 <=? c) && (c <=? 65510)) || isHighSurrogate c then 2
  else 1.

Inductive AnsiMode := Plain | AfterEsc | InCsi | InApc.

(** Modelled from the spec: [visibleWidth] of [utils.js] (not among the
    sources) is the number of terminal columns a string occupies after
    stripping ANSI sequences: the sum of per-grapheme column widths,
    East-Asian-width aware, with zero-width graphemes counting zero. *)
Fixpoint widthFrom (mode : AnsiMode) (s : jsstring) : Z :=
  match s with
  | [] => 0
  | c :: r =>
      match mode with
      | Plain => if c =? ESC then widthFrom AfterEsc r else unitWidth c + widthFrom Plain r
      | AfterEsc =>
          if c =? 91 then widthFrom InCsi r
          else if c =? 95 then widthFrom InApc r
          else widthFrom Plain r
      | InCsi => if (64 <=? c) && (c <=? 126) then widthFrom Plain r else widthFrom InCsi r
      | InApc => if c =? 7 then widthFrom Plain r else widthFrom InApc r
      end
  end.

Definition visibleWidth (s : jsstring) : Z := widthFrom Plain s.

(** Modelled from the spec: the shared keybinding table of [keybindings.js]
    (not among the sources) resolves the standard arrow, home/end,
    backspace, delete, tab and enter sequences to the named actions. *)
Definition bindings (a : Action.EditorAction) : list jsstring :=
  match a with
  | Action.submit => [[CR]]
  | Action.newLine => [ESC :: str "[13;2u"]
  | Action.copy => [[3]]
  | Action.tab => [[TAB]]
  | Action.selectUp => [ESC :: str "[A"]
  | Action.selectDown => [ESC :: str "[B"]
  | Action.selectConfirm => [[CR]]
  | Action.selectCancel => [[ESC]; [3]]
  | Action.deleteToLineEnd => [[11]]
  | Action.deleteToLineStart => [[21]]
  | Action.deleteWordBackward => [[23]; [ESC; 127]]
  | Action.deleteCharBackward => [[127]]
  | Action.deleteCharForward => [ESC :: str "[3~"]
  | Action.cursorLineStart => [ESC :: str "[H"; [1]]
  | Action.cursorLineEnd => [ESC :: str "[F"; [5]]
  | Action.cursorWordLeft => [ESC :: str "b"; ESC :: str "[1;5D"]
  | Action.cursorWordRight => [ESC :: str "f"; ESC :: str "[1;5C"]
  | Action.cursorUp => [ESC :: str "[A"]
  | Action.cursorDown => [ESC :: str "[B"]
  | Action.cursorLeft => [ESC :: str "[D"]
  | Action.cursorRight => [ESC :: str "[C"]
  | Action.pageUp => [ESC :: str "[5~"]
  | Action.pageDown => [ESC :: str "[6~"]
  end.

Definition kbMatches (data : jsstring) (a : Action.EditorAction) : bool :=
  existsb (streq data) (bindings a).

(** Modelled from the spec: [matchesKey] of [keys.js] (not among the
    sources) recognises a key with its modifiers. *)
Definition matchesKey (data : jsstring) (k : KeyId) : bool :=
  match k with
  | shiftBackspace => streq data (ESC :: str "[127;2u")
  | shiftDelete => streq data (ESC :: str "[3;2~")
  | shiftSpace => streq data (ESC :: str "[32;2u")
  end.

(** Modelled from the spec: the zero-width cursor-position marker of
    [tui.js] (not among the sources), an application program command. *)
Definition CURSOR_MARKER : jsstring := ESC :: str "_pi:c" ++ [7].

(** Modelled from the spec: the selection list of [select-list.js] (not
    among the sources) moves its selection up and down and draws one row
    per item. *)
Definition selectListHandleInput (l : SelectList) (data : jsstring) : SelectList :=
  if kbMatches data Action.selectUp then
    {| slItems := slItems l; selectedIndex := (selectedIndex l - 1)%nat |}
  else if kbMatches data Action.selectDown then
    {| slItems := slItems l;
       selectedIndex := Nat.min (selectedIndex l + 1) (length (slItems l) - 1) |}
  else l.

Definition selectListRender (l : SelectList) (width : Z) : list jsstring :=
  map (fun it => firstn (Z.to_nat width) (label it)) (slItems l).

Definition host : Host :=
  Build_Host segment isWhitespaceChar isPunctuationChar visibleWidth
    kbMatches matchesKey CURSOR_MARKER selectListHandleInput selectListRender.

(** A fresh editor on a terminal of 24 rows, with uncoloured borders. *)
Definition editor : Editor := newEditor 24 (fun s => s) 0 None.

End Ref.

(* ===================================================================== *)
(** ** Concrete inputs *)
(* ===================================================================== *)

Module Example.


Definition keyUp : jsstring := ESC :: str "[A".
Definition keyHome : jsstring := ESC :: str "[H".


(** On a new editor (content width 80): type a space and the letter b, go
    to the start of the line, type eighty letters a, press Up. *)
Definition typeThenUp : list jsstring :=
  [str " b"; keyHome; repeat 97 80; keyUp].

Definition keyDown : jsstring := ESC :: str "[B".
Definition keyShiftEnter : jsstring := ESC :: str "[13;2u".

(** Type the letter a, start a new line, type an emoji (one grapheme, two
    code units), press Up, then Down. *)
Definition emojiThenUpDown : list jsstring :=
  [str "a"; keyShiftEnter; [55357; 56832]; keyUp; keyDown].


End Example.

(* ===================================================================== *)
(** ** Vocabulary of the properties *)
(* ===================================================================== *)









(** Two states of the editor with the same buffer lines, paste table and
    history, and with the same record of change notifications. *)
Definition sameContent (e e' : Editor) : Prop :=
  lines e' = lines e
  /\ pastes e' = pastes e
  /\ history e' = history e
  /\ onChange e' = onChange e.

(** Two states of the editor that agree on everything but the autocomplete
    overlay. *)
Definition sameButOverlay (a b : Editor) : Prop :=
  cancelAutocomplete a = cancelAutocomplete b.




(** The record of change notifications of [e'] is that of [e] followed by
    further calls: nothing already recorded is lost or reordered. *)
Definition extendsLog (e e' : Editor) : Prop :=
  exists calls, onChange e' = option_map (fun log => log ++ calls) (onChange e).


(** A single notification, carrying the text after the change. *)
Definition notifiesOnce (e e' : Editor) : Prop :=
  onChange e' = option_map (fun log => log ++ [getText e']) (onChange e).


Section WrapVocabulary.
Context (H : Host).

(** A run of white space: a sequence of graphemes the host classifies as
    white space and of white-space code units. *)
Inductive blank : jsstring -> Prop :=
| blank_nil : blank []
| blank_grapheme (g s : jsstring) :
    isWhitespaceChar H g = true -> blank s -> blank (g ++ s)
| blank_unit (c : Z) (s : jsstring) :
    isJsSpace c = true -> blank s -> blank (c :: s).

(** [covered chunks prefix]: the chunks, in order, are cut from [prefix]
    left to right.  Each chunk's [startIndex] and [endIndex] delimit a
    piece of the text, its [text] is that piece, possibly with white space
    trimmed from its end, and the pieces are separated by nothing but runs
    of white space. *)
Inductive covered : list TextChunk -> jsstring -> Prop :=
| covered_nil : covered [] []
| covered_gap (cs : list TextChunk) (p gap : jsstring) :
    covered cs p -> blank gap -> covered cs (p ++ gap)
| covered_chunk (cs : list TextChunk) (p body : jsstring) (c : TextChunk) :
    covered cs p ->
    startIndex c = len p ->
    endIndex c = len p + len body ->
    text c = body \/ text c = trimEnd body ->
    covered (cs ++ [c]) (p ++ body).

(** The tokens, in order, make up the text; white-space tokens are runs of
    white space. *)
Inductive tokenized : list Token -> jsstring -> Prop :=
| tokenized_nil : tokenized [] []
| tokenized_snoc (ts : list Token) (q : jsstring) (t : Token) :
    tokenized ts q ->
    tStartIndex t = len q ->
    tEndIndex t = len q + len (tText t) ->
    (tIsWhitespace t = true -> blank (tText t)) ->
    tokenized (ts ++ [t]) (q ++ tText t).

(** The invariant of the tokenising loop after the text [p] has been read. *)
Definition tokenizerInv (st : Tokenizer) (p : jsstring) : Prop :=
  exists q,
    tokenized (tokens st) q
    /\ p = q ++ currentToken st
    /\ tokenStart st = len q
    /\ charIndex st = len p
    /\ (inWhitespace st = true -> blank (currentToken st)).

(** The invariant of the loop that breaks a token which starts after [q],
    once the part [r] of the token has been read. *)
Definition breakerInv (q : jsstring) (b : Breaker) (r : jsstring) : Prop :=
  exists pb,
    covered (bChunks b) pb
    /\ q ++ r = pb ++ tokenChunk b
    /\ tokenChunkStart b = len pb
    /\ tokenCharIndex b = len (q ++ r)
    /\ (r <> [] -> tokenChunk b <> []).

(** The invariant of the chunk-building loop after the tokens making up
    [q] have been handled. *)
Definition wrapperInv (st : Wrapper) (q : jsstring) : Prop :=
  exists p,
    covered (chunks st) p
    /\ q = p ++ currentChunk st
    /\ chunkStartIndex st = len p
    /\ (atLineStart st = true -> currentChunk st = []).


End WrapVocabulary.

(** Code units that take one terminal column whatever surrounds them:
    printable ASCII and the box-drawing characters and arrows the editor
    draws its borders with. *)
Definition isNarrowUnit (c : Z) : bool :=
  ((32 <=? c) && (c <? 127))
  || (c =? 9472) || (c =? 8593) || (c =? 8595)
  || (c =? 9581) || (c =? 9582) || (c =? 9583) || (c =? 9584)
  || (c =? 9484) || (c =? 9488) || (c =? 9492) || (c =? 9496).

Definition narrow (s : jsstring) : bool := forallb isNarrowUnit s.


(** A chunk or layout line that fits the content width. *)
Definition fitsWidth (maxWidth : Z) (s : jsstring) : Prop :=
  narrow s = true /\ len s <= maxWidth.

(** The cursor invariant of the specification, for a given segmenter: the
    buffer is not empty, the cursor line is a line of the buffer, the
    cursor column is inside it and on a grapheme boundary. *)
Fixpoint boundaries (offset : Z) (graphemes : list jsstring) : list Z :=
  match graphemes with
  | [] => [offset]
  | g :: rest => offset :: boundaries (offset + len g) rest
  end.

Definition cursorInvariant (H : Host) (e : Editor) : bool :=
  negb (length (lines e) =? 0)%nat
  && (cursorLine e <? length (lines e))%nat
  && (0 <=? cursorCol e)
  && (cursorCol e <=? len (lineAt (lines e) (cursorLine e)))
  && existsb (Z.eqb (cursorCol e))
       (boundaries 0 (segment H (lineAt (lines e) (cursorLine e)))).

(** The chunks closed so far and the chunk under construction fit the
    width: the invariants of the two loops of [wordWrapLine] on a line of
    one-column characters. *)
Definition breakerFits (maxWidth : Z) (b : Breaker) : Prop :=
  Forall (fun c => fitsWidth maxWidth (text c)) (bChunks b)
  /\ narrow (tokenChunk b) = true
  /\ tokenChunkWidth b = len (tokenChunk b)
  /\ len (tokenChunk b) <= maxWidth.

Definition wrapperFits (maxWidth : Z) (st : Wrapper) : Prop :=
  Forall (fun c => fitsWidth maxWidth (text c)) (chunks st)
  /\ narrow (currentChunk st) = true
  /\ currentWidth st = len (currentChunk st)
  /\ len (currentChunk st) <= maxWidth.

(* --------------------------------------------------------------------- *)
(** *** Further vocabulary *)
(* --------------------------------------------------------------------- *)

(** The chunks lie one after the other between [lo] and [hi]: each one
    starts at or after the end of the one before and ends at or after its
    own start. *)
Fixpoint chunksOrdered (lo : Z) (cs : list TextChunk) (hi : Z) : Prop :=
  match cs with
  | [] => lo <= hi
  | c :: rest =>
      lo <= startIndex c /\ startIndex c <= endIndex c
      /\ chunksOrdered (endIndex c) rest hi
  end.

(** The number of layout lines that carry the cursor. *)
Definition cursorRows (ls : list LayoutLine) : nat :=
  length (filter hasCursor ls).



(** The cursor is inside the buffer: on one of its lines, between the
    start and the end of that line. *)
Definition inBounds (e : Editor) : Prop :=
  (cursorLine e < length (lines e))%nat
  /\ 0 <= cursorCol e <= len (lineAt (lines e) (cursorLine e)).

(** The half of [inBounds] that vertical motion keeps: the cursor is on a
    line of the buffer and not past its end. *)
Definition notPastEnd (e : Editor) : Prop :=
  (cursorLine e < length (lines e))%nat
  /\ cursorCol e <= len (lineAt (lines e) (cursorLine e)).

(** The editor outside a bracketed paste: not collecting, nothing
    collected. *)
Definition outsidePaste (e : Editor) : Editor :=
  e<|isInPaste := false|><|pasteBuffer := []|>.

(** What input never touches: the history list and the settings of the
    editor. *)
Definition sameSettings (e e' : Editor) : Prop :=
  history e' = history e
  /\ disableSubmit e' = disableSubmit e
  /\ paddingX e' = paddingX e
  /\ borderStyle e' = borderStyle e
  /\ terminalRows e' = terminalRows e
  /\ focused e' = focused e
  /\ autocompleteProvider e' = autocompleteProvider e.


(* ===================================================================== *)
(** * Properties *)
(* ===================================================================== *)


(* --------------------------------------------------------------------- *)
(** *** The reference host *)
(* --------------------------------------------------------------------- *)

Section RefFacts.

Lemma ref_segmentFrom_concat (s cur : jsstring) (prev : Z) :
  concat (Ref.segmentFrom cur prev s) = cur ++ s.
Proof.
  revert cur prev; induction s as [|c r IH]; intros cur prev; simpl.
  - reflexivity.
  - destruct (Ref.joins prev c).
    + rewrite IH, <- app_assoc. reflexivity.
    + simpl. rewrite IH. reflexivity.
Qed.

(** The reference segmenter splits a string into pieces that make it up. *)
Lemma ref_segment_concat (s : jsstring) : concat (segment Ref.host s) = s.
Proof.
  destruct s as [|c r]; [reflexivity|].
  apply (ref_segmentFrom_concat r [c] c).
Qed.

Lemma ref_segmentFrom_nonempty (s cur : jsstring) (prev : Z) :
  cur <> [] -> ~ In [] (Ref.segmentFrom cur prev s).
Proof.
  revert cur prev; induction s as [|c r IH]; intros cur prev Hc; simpl.
  - intros [E|[]]. apply Hc. exact E.
  - destruct (Ref.joins prev c).
    + apply IH. destruct cur; discriminate.
    + intros [E|Hin]; [apply Hc; exact E|].
      revert Hin. apply IH. discriminate.
Qed.

(** None of its pieces is empty. *)
Lemma ref_segment_nonempty (s : jsstring) : ~ In [] (segment Ref.host s).
Proof.
  destruct s as [|c r]; [intros []|].
  apply (ref_segmentFrom_nonempty r [c] c). discriminate.
Qed.

(** Decide the comparisons of a goal by linear arithmetic. *)
Ltac zbool :=
  repeat match goal with
         | |- context [?a <? ?b] =>
             first [ replace (a <? b) with true by (symmetry; apply Z.ltb_lt; lia)
                   | replace (a <? b) with false by (symmetry; apply Z.ltb_ge; lia) ]
         | |- context [?a <=? ?b] =>
             first [ replace (a <=? b) with true by (symmetry; apply Z.leb_le; lia)
                   | replace (a <=? b) with false by (symmetry; apply Z.leb_gt; lia) ]
         | |- context [?a =? ?b] =>
             replace (a =? b) with false by (symmetry; apply Z.eqb_neq; lia)
         end.

Lemma narrow_unit_cases (c : Z) :
  isNarrowUnit c = true ->
  32 <= c < 127 \/ 8593 <= c <= 9584.
Proof.
  unfold isNarrowUnit. rewrite !orb_true_iff, andb_true_iff.
  rewrite Z.leb_le, Z.ltb_lt, !Z.eqb_eq. lia.
Qed.

Lemma ref_unit_narrow (c : Z) :
  isNarrowUnit c = true -> (c =? ESC) = false /\ Ref.unitWidth c = 1.
Proof.
  intros Hc. apply narrow_unit_cases in Hc.
  unfold Ref.unitWidth, Ref.isExtender, isLowSurrogate, isHighSurrogate, ESC.
  destruct Hc as [Hc|Hc]; split; zbool; reflexivity.
Qed.

Lemma ref_joins_narrow (c d : Z) :
  isNarrowUnit c = true -> isNarrowUnit d = true -> Ref.joins c d = false.
Proof.
  intros Hc Hd. apply narrow_unit_cases in Hc, Hd.
  unfold Ref.joins, Ref.isExtender, isLowSurrogate, isHighSurrogate, CR, LF.
  destruct Hc as [Hc|Hc], Hd as [Hd|Hd]; zbool; reflexivity.
Qed.

Lemma ref_segmentFrom_narrow (r : jsstring) (c : Z) :
  isNarrowUnit c = true -> narrow r = true ->
  Ref.segmentFrom [c] c r = [c] :: map (fun d => [d]) r.
Proof.
  revert c; induction r as [|d r IH]; intros c Hc Hr; simpl; [reflexivity|].
  simpl in Hr. apply andb_true_iff in Hr as [Hd Hr].
  rewrite (ref_joins_narrow c d Hc Hd), (IH d Hd Hr). reflexivity.
Qed.

(** On one-column characters the reference segmenter yields one grapheme
    per code unit. *)
Lemma ref_segment_narrow (s : jsstring) :
  narrow s = true -> segment Ref.host s = map (fun c => [c]) s.
Proof.
  destruct s as [|c r]; [reflexivity|].
  intros Hs. simpl in Hs. apply andb_true_iff in Hs as [Hc Hr].
  apply (ref_segmentFrom_narrow r c Hc Hr).
Qed.

Lemma ref_width_app (a s : jsstring) :
  narrow a = true ->
  Ref.widthFrom Ref.Plain (a ++ s) = len a + Ref.widthFrom Ref.Plain s.
Proof.
  induction a as [|c a IH]; intros Ha; [reflexivity|].
  simpl in Ha. apply andb_true_iff in Ha as [Hc Ha].
  destruct (ref_unit_narrow c Hc) as [He Hu].
  cbn [app Ref.widthFrom]. rewrite He, Hu, (IH Ha).
  unfold len. cbn [length]. lia.
Qed.

(** The reference width of one-column characters is their number. *)
Lemma ref_width_narrow (s : jsstring) :
  narrow s = true -> visibleWidth Ref.host s = len s.
Proof.
  intros Hs. change (visibleWidth Ref.host s) with (Ref.widthFrom Ref.Plain s).
  rewrite <- (app_nil_r s) at 1. rewrite (ref_width_app s [] Hs).
  cbn [Ref.widthFrom]. lia.
Qed.


End RefFacts.
(* --------------------------------------------------------------------- *)
(** *** Facts about the string operations *)
(* --------------------------------------------------------------------- *)

Section StringFacts.

Lemma len_nonneg (s : jsstring) : 0 <= len s.
Proof. unfold len; lia. Qed.

Lemma len_app (s t : jsstring) : len (s ++ t) = len s + len t.
Proof. unfold len; rewrite length_app; lia. Qed.

Lemma len_nil_iff (s : jsstring) : len s = 0 <-> s = [].
Proof.
  unfold len; split; intros H.
  - destruct s; [reflexivity | simpl in H; lia].
  - subst; reflexivity.
Qed.

Lemma streq_spec (s t : jsstring) : streq s t = true <-> s = t.
Proof.
  revert t; induction s as [|c s IH]; intros [|d t]; simpl;
    try (split; [discriminate | congruence]); try tauto.
  rewrite andb_true_iff, Z.eqb_eq, IH.
  split; [intros [-> ->]; reflexivity | intros E; inversion E; auto].
Qed.


Lemma split_nonempty (sep : Z) (s : jsstring) : split sep s <> [].
Proof.
  induction s as [|c r IH]; simpl; [discriminate|].
  destruct (c =? sep); [discriminate|].
  destruct (split sep r); [contradiction | discriminate].
Qed.

Lemma join_cons (sep : Z) (p : jsstring) (q : jsstring) (rest : list jsstring) :
  join sep (p :: q :: rest) = p ++ sep :: join sep (q :: rest).
Proof. reflexivity. Qed.

(** Splitting on a separator and joining with it again is the identity. *)
Lemma join_split (sep : Z) (s : jsstring) : join sep (split sep s) = s.
Proof.
  induction s as [|c r IH]; simpl; [reflexivity|].
  destruct (c =? sep) eqn:E.
  - apply Z.eqb_eq in E; subst c.
    pose proof (split_nonempty sep r) as NE.
    destruct (split sep r) as [|h t]; [contradiction|].
    rewrite join_cons, IH; reflexivity.
  - pose proof (split_nonempty sep r) as NE.
    destruct (split sep r) as [|h t]; [contradiction|].
    destruct t as [|h' t'].
    + simpl in *; congruence.
    + rewrite join_cons in IH. rewrite join_cons, <- app_comm_cons.
      f_equal; exact IH.
Qed.

(** No piece of a split contains the separator. *)
Lemma split_no_sep (sep : Z) (s : jsstring) :
  Forall (fun p => ~ In sep p) (split sep s).
Proof.
  induction s as [|c r IH]; simpl.
  - constructor; [intros [] | constructor].
  - destruct (c =? sep) eqn:E.
    + constructor; [intros [] | exact IH].
    + destruct (split sep r) as [|h t].
      * constructor; [|constructor]. intros [->|[]]. rewrite Z.eqb_refl in E; discriminate.
      * inversion IH; subst. constructor; [|assumption].
        intros [->|Hin]; [rewrite Z.eqb_refl in E; discriminate | contradiction].
Qed.


Lemma trimStart_suffix (s : jsstring) :
  exists p, s = p ++ trimStart s /\ forallb isJsSpace p = true.
Proof.
  induction s as [|c r [p [E F]]]; simpl.
  - exists []; split; reflexivity.
  - destruct (isJsSpace c) eqn:Ec.
    + exists (c :: p); simpl; rewrite Ec, F; split; [congruence | reflexivity].
    + exists []; split; reflexivity.
Qed.


Lemma trimStart_fix (s : jsstring) :
  (forall c r, s = c :: r -> isJsSpace c = false) -> trimStart s = s.
Proof.
  destruct s as [|c r]; simpl; [reflexivity|].
  intros H; rewrite (H c r eq_refl); reflexivity.
Qed.


Lemma trimStart_all_space (s : jsstring) :
  forallb isJsSpace s = true -> trimStart s = [].
Proof.
  induction s as [|d s IH]; simpl; [reflexivity|].
  destruct (isJsSpace d); simpl; [exact IH | discriminate].
Qed.


(** [trimEnd] of a string that ends in a non-blank is the string itself. *)
Lemma trimEnd_keep (s : jsstring) (c : Z) :
  isJsSpace c = false -> trimEnd (s ++ [c]) = s ++ [c].
Proof.
  intros Hc; unfold trimEnd.
  rewrite rev_app_distr; simpl; rewrite Hc; simpl.
  rewrite rev_involutive; reflexivity.
Qed.

Lemma trimEnd_drop (s : jsstring) (c : Z) :
  isJsSpace c = true -> trimEnd (s ++ [c]) = trimEnd s.
Proof.
  intros Hc; unfold trimEnd.
  rewrite rev_app_distr; simpl; rewrite Hc; reflexivity.
Qed.

Lemma trimEnd_nil : trimEnd [] = [].
Proof. reflexivity. Qed.




End StringFacts.

(* --------------------------------------------------------------------- *)
(** *** Slices, line updates and code points *)
(* --------------------------------------------------------------------- *)

Section SliceFacts.

Lemma slice_prefix {A : Type} (s : list A) (n : Z) :
  0 <= n <= len s -> slice s 0 n = firstn (Z.to_nat n) s.
Proof.
  intros Hn. unfold slice, sliceIndex, len in *.
  replace (0 <? 0) with false by reflexivity.
  destruct (n <? 0) eqn:E; [apply Z.ltb_lt in E; lia|].
  rewrite Z.min_l by lia. rewrite Z.min_l by lia.
  simpl skipn. f_equal. lia.
Qed.

Lemma sliceFrom_suffix {A : Type} (s : list A) (n : Z) :
  0 <= n <= len s -> sliceFrom s n = skipn (Z.to_nat n) s.
Proof.
  intros Hn. unfold sliceFrom, slice, sliceIndex, len in *.
  destruct (n <? 0) eqn:E; [apply Z.ltb_lt in E; lia|].
  destruct (Z.of_nat (length s) <? 0) eqn:E2; [apply Z.ltb_lt in E2; lia|].
  rewrite (Z.min_l n) by lia.
  apply firstn_all2. rewrite length_skipn. lia.
Qed.

(** Cutting a string at any index, in range or not, loses nothing. *)
Lemma slice_sliceFrom {A : Type} (s : list A) (n : Z) :
  slice s 0 n ++ sliceFrom s n = s.
Proof.
  unfold sliceFrom, slice, sliceIndex.
  replace (0 <? 0) with false by reflexivity.
  set (L := Z.of_nat (length s)).
  assert (HL : 0 <= L) by (subst L; lia).
  destruct (L <? 0) eqn:E2; [apply Z.ltb_lt in E2; lia|].
  rewrite (Z.min_l 0 L) by lia. rewrite Z.min_id. simpl skipn.
  set (k := if n <? 0 then Z.max (L + n) 0 else Z.min n L).
  assert (Hk : 0 <= k <= L).
  { subst k. destruct (n <? 0) eqn:E; [|apply Z.ltb_ge in E]; lia. }
  rewrite Z.sub_0_r.
  rewrite (firstn_all2 (n := Z.to_nat (L - k))) by (rewrite length_skipn; subst L; lia).
  apply firstn_skipn.
Qed.

Lemma slice_app_left (p q : jsstring) : slice (p ++ q) 0 (len p) = p.
Proof.
  rewrite slice_prefix by (rewrite len_app; pose proof (len_nonneg p); pose proof (len_nonneg q); lia).
  unfold len. rewrite Nat2Z.id. rewrite firstn_app, Nat.sub_diag, firstn_all. simpl.
  apply app_nil_r.
Qed.

Lemma sliceFrom_app_left (p q : jsstring) : sliceFrom (p ++ q) (len p) = q.
Proof.
  rewrite sliceFrom_suffix by (rewrite len_app; pose proof (len_nonneg p); pose proof (len_nonneg q); lia).
  unfold len. rewrite Nat2Z.id. rewrite skipn_app, Nat.sub_diag, skipn_all. reflexivity.
Qed.

Lemma lineAt_setLineAt (ls : list jsstring) (i : nat) (x : jsstring) :
  lineAt (setLineAt ls i x) i = x.
Proof.
  unfold lineAt. revert ls; induction i as [|i IH]; intros [|h t]; simpl; auto.
Qed.

Lemma setLineAt_twice (ls : list jsstring) (i : nat) (x y : jsstring) :
  setLineAt (setLineAt ls i x) i y = setLineAt ls i y.
Proof.
  revert ls; induction i as [|i IH]; intros [|h t]; simpl; try reflexivity;
    f_equal; apply IH.
Qed.

Lemma setLineAt_in_range (ls : list jsstring) (i : nat) (x : jsstring) :
  (i < length ls)%nat -> setLineAt ls i x = firstn i ls ++ [x] ++ skipn (S i) ls.
Proof.
  revert ls; induction i as [|i IH]; intros [|h t] Hi; simpl in *; try lia.
  - reflexivity.
  - f_equal. apply IH. lia.
Qed.

Lemma length_setLineAt (ls : list jsstring) (i : nat) (x : jsstring) :
  (i < length ls)%nat -> length (setLineAt ls i x) = length ls.
Proof.
  revert ls; induction i as [|i IH]; intros [|h t] Hi; simpl in *; try lia.
  f_equal. apply IH. lia.
Qed.

Lemma setLineAt_same (ls : list jsstring) (i : nat) :
  (i < length ls)%nat -> setLineAt ls i (lineAt ls i) = ls.
Proof.
  unfold lineAt.
  revert ls; induction i as [|i IH]; intros [|h t] Hi; simpl in *; try lia.
  - reflexivity.
  - f_equal. apply IH. lia.
Qed.

Lemma concat_codePoints (s : jsstring) : concat (codePoints s) = s.
Proof.
  assert (G : forall n s, (length s <= n)%nat -> concat (codePoints s) = s).
  { induction n as [|n IH]; intros [|c r] Hl; try reflexivity;
      try (simpl in Hl; lia).
    destruct r as [|d r']; [reflexivity|].
    cbn [codePoints]. cbn [length] in Hl.
    destruct (isHighSurrogate c && isLowSurrogate d); cbn [concat app].
    - f_equal. f_equal. apply IH. lia.
    - f_equal. apply (IH (d :: r')). cbn [length]. lia. }
  apply (G (length s)). lia.
Qed.

Lemma map_lineAt_seq (ls : list jsstring) (a n : nat) :
  (a + n <= length ls)%nat ->
  map (lineAt ls) (seq a n) = firstn n (skipn a ls).
Proof.
  revert a; induction n as [|n IH]; intros a Hl; [reflexivity|].
  simpl seq. simpl map. rewrite IH by lia.
  unfold lineAt.
  assert (Ha : (a < length ls)%nat) by lia.
  clear IH Hl. revert a Ha. induction ls as [|h t IHl]; intros a Ha; simpl in *; [lia|].
  destruct a as [|a].
  - reflexivity.
  - simpl. rewrite <- IHl by lia. reflexivity.
Qed.

End SliceFacts.

(* --------------------------------------------------------------------- *)
(** *** Setting the text *)
(* --------------------------------------------------------------------- *)

Section TextAndHistory.




(* --------------------------------------------------------------------- *)
(** *** History *)
(* --------------------------------------------------------------------- *)

Lemma isEmpty_false (s : jsstring) : isEmpty s = false <-> s <> [].
Proof. destruct s; simpl; split; congruence. Qed.

Lemma isEmpty_true (s : jsstring) : isEmpty s = true <-> s = [].
Proof. destruct s; simpl; split; congruence. Qed.





Lemma addToHistory_history (e : Editor) (text : jsstring) :
  history (addToHistory e text) =
    if isEmpty (trim text) then history e
    else if (0 <? length (history e))%nat && streq (lineAt (history e) 0) (trim text)
         then history e
         else if (100 <? length (trim text :: history e))%nat
              then removelast (trim text :: history e)
              else trim text :: history e.
Proof.
  unfold addToHistory.
  destruct (isEmpty (trim text)); [reflexivity|].
  destruct ((0 <? length (history e))%nat && streq (lineAt (history e) 0) (trim text));
    reflexivity.
Qed.





End TextAndHistory.

(* --------------------------------------------------------------------- *)
(** *** The CSI-u decoder *)
(* --------------------------------------------------------------------- *)

Section KittyFacts.











Lemma handleInputFuel_key (H : Host) (fuel : nat) (e : Editor) (data : jsstring) :
  includes data pasteStart = false -> isInPaste e = false ->
  handleInputFuel H fuel e data = Some (handleKey H e data).
Proof.
  intros Hi Hp. destruct fuel; cbn [handleInputFuel]; rewrite Hi, Hp; reflexivity.
Qed.




End KittyFacts.

(* --------------------------------------------------------------------- *)
(** *** Cursor motion leaves the content alone *)
(* --------------------------------------------------------------------- *)

Section MotionFrame.
Context (H : Host).

Lemma sameContent_refl (e : Editor) : sameContent e e.
Proof. repeat split. Qed.

Lemma sameContent_trans (a b c : Editor) :
  sameContent a b -> sameContent b c -> sameContent a c.
Proof.
  unfold sameContent; intros (A1 & A2 & A3 & A4) (B1 & B2 & B3 & B4).
  repeat split; congruence.
Qed.

Lemma sameContent_cursor (e : Editor) (l : nat) (c : Z) :
  sameContent e (e<|cursorLine := l|><|cursorCol := c|>).
Proof. repeat split. Qed.

Lemma sameContent_col (e : Editor) (c : Z) : sameContent e (e<|cursorCol := c|>).
Proof. repeat split. Qed.

Lemma placeOn_frame (e : Editor) (vl : VisualLine) (col : Z) :
  sameContent e (placeOn e vl col).
Proof. repeat split. Qed.

Lemma moveWordBackwards_frame (e : Editor) : sameContent e (moveWordBackwards H e).
Proof.
  unfold moveWordBackwards.
  destruct (cursorCol e =? 0).
  - destruct (0 <? cursorLine e)%nat; repeat split.
  - destruct (popWhile _ _ _) as [g n]. repeat split.
Qed.

Lemma moveWordForwards_frame (e : Editor) : sameContent e (moveWordForwards H e).
Proof.
  unfold moveWordForwards.
  destruct (cursorCol e >=? _).
  - destruct (_ <? _)%nat; repeat split.
  - destruct (skipWhile _ _ _) as [g n]. repeat split.
Qed.

Lemma moveCursor_frame (e : Editor) (deltaLine deltaCol : Z) :
  sameContent e (moveCursor H e deltaLine deltaCol).
Proof.
  unfold moveCursor.
  set (e1 := if negb (deltaLine =? 0) then _ else e).
  assert (F1 : sameContent e e1).
  { subst e1. destruct (negb (deltaLine =? 0)); [|apply sameContent_refl].
    destruct (_ && _); [|apply sameContent_refl].
    destruct (nthZ _ _); [apply placeOn_frame | apply sameContent_refl]. }
  clearbody e1.
  apply (sameContent_trans _ _ _ F1).
  destruct (negb (deltaCol =? 0)); [|apply sameContent_refl].
  destruct (deltaCol >? 0).
  - destruct (cursorCol e1 <? _); [repeat split|].
    destruct (_ <? _)%nat; repeat split.
  - destruct (cursorCol e1 >? 0); [repeat split|].
    destruct (0 <? _)%nat; repeat split.
Qed.

Lemma pageScroll_frame (e : Editor) (direction : Z) :
  sameContent e (pageScroll H e direction).
Proof.
  unfold pageScroll.
  destruct (nthZ _ _); [apply placeOn_frame | apply sameContent_refl].
Qed.

(** C10: every pure cursor motion (horizontal and vertical [moveCursor],
    [moveToLineStart], [moveToLineEnd], [moveWordBackwards],
    [moveWordForwards], [pageScroll]) leaves the buffer lines, the paste
    table and the history list unchanged and does not invoke the change
    sink. *)
Theorem cursor_motion_frame (e : Editor) :
  (forall deltaLine deltaCol, sameContent e (moveCursor H e deltaLine deltaCol))
  /\ sameContent e (moveToLineStart e)
  /\ sameContent e (moveToLineEnd e)
  /\ sameContent e (moveWordBackwards H e)
  /\ sameContent e (moveWordForwards H e)
  /\ (forall direction, sameContent e (pageScroll H e direction)).
Proof.
  split; [intros; apply moveCursor_frame|].
  split; [apply sameContent_col|].
  split; [apply sameContent_col|].
  split; [apply moveWordBackwards_frame|].
  split; [apply moveWordForwards_frame|].
  intros; apply pageScroll_frame.
Qed.

End MotionFrame.

(* --------------------------------------------------------------------- *)
(** *** Insertion *)
(* --------------------------------------------------------------------- *)

Section InsertFacts.

Lemma sameButOverlay_refl (e : Editor) : sameButOverlay e e.
Proof. reflexivity. Qed.

Lemma sameButOverlay_trans (a b c : Editor) :
  sameButOverlay a b -> sameButOverlay b c -> sameButOverlay a c.
Proof. unfold sameButOverlay; congruence. Qed.

Lemma showSuggestions_overlay (e : Editor) (s : option Suggestions) :
  sameButOverlay (showSuggestions e s) e.
Proof.
  unfold showSuggestions. destruct s as [sg|]; [|reflexivity].
  destruct (0 <? length (items sg))%nat; reflexivity.
Qed.

Lemma tryTriggerAutocomplete_overlay (b : bool) (e : Editor) :
  sameButOverlay (tryTriggerAutocomplete b e) e.
Proof.
  unfold tryTriggerAutocomplete.
  destruct (autocompleteProvider e) as [p|]; [|reflexivity].
  destruct (b && _); [reflexivity | apply showSuggestions_overlay].
Qed.

Lemma updateAutocomplete_overlay (e : Editor) :
  sameButOverlay (updateAutocomplete e) e.
Proof.
  unfold updateAutocomplete.
  destruct (negb (isAutocompleting e)); [reflexivity|].
  destruct (autocompleteProvider e) as [p|]; [|reflexivity].
  destruct (getSuggestions p _ _ _) as [sg|]; [|reflexivity].
  destruct (0 <? length (items sg))%nat; reflexivity.
Qed.

Lemma forceFileAutocomplete_overlay (e : Editor) :
  sameButOverlay (forceFileAutocomplete e) e.
Proof.
  unfold forceFileAutocomplete.
  destruct (autocompleteProvider e) as [p|]; [|reflexivity].
  destruct (getForceFileSuggestions p);
    [apply showSuggestions_overlay | apply tryTriggerAutocomplete_overlay].
Qed.

Lemma handleTabCompletion_overlay (e : Editor) :
  sameButOverlay (handleTabCompletion e) e.
Proof.
  unfold handleTabCompletion, handleSlashCommandCompletion.
  destruct (autocompleteProvider e) as [p|]; [|reflexivity].
  destruct (_ && _);
    [apply tryTriggerAutocomplete_overlay | apply forceFileAutocomplete_overlay].
Qed.

Lemma retriggerAutocomplete_overlay (e : Editor) :
  sameButOverlay (retriggerAutocomplete e) e.
Proof.
  unfold retriggerAutocomplete.
  destruct (isAutocompleting e); [apply updateAutocomplete_overlay|].
  destruct (startsWith _ _); [apply tryTriggerAutocomplete_overlay|].
  destruct (endsInAtReference _);
    [apply tryTriggerAutocomplete_overlay | reflexivity].
Qed.

Lemma insertCharacter_overlay (e : Editor) (c : jsstring) :
  sameButOverlay (insertCharacter e c) (insertCharacterText e c).
Proof.
  unfold insertCharacter.
  set (e4 := insertCharacterText e c).
  destruct (negb (isAutocompleting e4)); [|apply updateAutocomplete_overlay].
  destruct (streq c [47] && isAtStartOfMessage e4);
    [apply tryTriggerAutocomplete_overlay|].
  destruct (streq c [64]).
  - destruct (_ || _); [apply tryTriggerAutocomplete_overlay | reflexivity].
  - destruct (existsb isCommandUnit c); [|reflexivity].
    destruct (startsWith _ _); [apply tryTriggerAutocomplete_overlay|].
    destruct (endsInAtReference _);
      [apply tryTriggerAutocomplete_overlay | reflexivity].
Qed.

(** What two states that differ in the overlay only have in common. *)
Lemma overlay_fields (a b : Editor) :
  sameButOverlay a b ->
  lines a = lines b /\ cursorLine a = cursorLine b /\ cursorCol a = cursorCol b
  /\ pastes a = pastes b /\ pasteCounter a = pasteCounter b
  /\ onChange a = onChange b /\ onSubmit a = onSubmit b
  /\ history a = history b /\ historyIndex a = historyIndex b
  /\ disableSubmit a = disableSubmit b /\ scrollOffset a = scrollOffset b
  /\ lastWidth a = lastWidth b /\ pasteBuffer a = pasteBuffer b
  /\ isInPaste a = isInPaste b /\ pendingShiftEnter a = pendingShiftEnter b.
Proof.
  intros E.
  repeat split;
    [ exact (f_equal lines E) | exact (f_equal cursorLine E)
    | exact (f_equal cursorCol E) | exact (f_equal pastes E)
    | exact (f_equal pasteCounter E) | exact (f_equal onChange E)
    | exact (f_equal onSubmit E) | exact (f_equal history E)
    | exact (f_equal historyIndex E) | exact (f_equal disableSubmit E)
    | exact (f_equal scrollOffset E) | exact (f_equal lastWidth E)
    | exact (f_equal pasteBuffer E) | exact (f_equal isInPaste E)
    | exact (f_equal pendingShiftEnter E) ].
Qed.

Lemma overlay_lines (a b : Editor) : sameButOverlay a b -> lines a = lines b.
Proof. intros E; exact (f_equal lines E). Qed.

Lemma overlay_onChange (a b : Editor) : sameButOverlay a b -> onChange a = onChange b.
Proof. intros E; exact (f_equal onChange E). Qed.

Lemma overlay_getText (a b : Editor) : sameButOverlay a b -> getText a = getText b.
Proof. intros E; unfold getText; rewrite (overlay_lines a b E); reflexivity. Qed.

(** The buffer update of an insertion does not look at the overlay. *)
Lemma insertCharacterText_overlay (a b : Editor) (c : jsstring) :
  sameButOverlay a b ->
  sameButOverlay (insertCharacterText a c) (insertCharacterText b c).
Proof.
  unfold sameButOverlay; intros E.
  change (cancelAutocomplete (insertCharacterText a c))
    with (insertCharacterText (cancelAutocomplete a) c).
  change (cancelAutocomplete (insertCharacterText b c))
    with (insertCharacterText (cancelAutocomplete b) c).
  rewrite E; reflexivity.
Qed.

Lemma insert_fold_overlay (cs : list jsstring) (a b : Editor) :
  sameButOverlay a b ->
  sameButOverlay (fold_left insertCharacter cs a) (fold_left insertCharacterText cs b).
Proof.
  revert a b; induction cs as [|c cs IH]; intros a b E; simpl; [exact E|].
  apply IH.
  eapply sameButOverlay_trans; [apply insertCharacter_overlay|].
  apply insertCharacterText_overlay, E.
Qed.

(** Typing the pieces [cs] one after the other puts their concatenation at
    the cursor. *)
Lemma insert_run (cs : list jsstring) (e : Editor) (before t after : jsstring) :
  (cursorLine e < length (lines e))%nat ->
  lineAt (lines e) (cursorLine e) = before ++ t ++ after ->
  cursorCol e = len before + len t ->
  lines (fold_left insertCharacterText cs e)
    = setLineAt (lines e) (cursorLine e) (before ++ (t ++ concat cs) ++ after)
  /\ cursorLine (fold_left insertCharacterText cs e) = cursorLine e
  /\ cursorCol (fold_left insertCharacterText cs e) = len before + len (t ++ concat cs).
Proof.
  revert e t; induction cs as [|c cs IH]; intros e t Hrange Hline Hcol; simpl fold_left.
  - simpl concat. rewrite app_nil_r. rewrite <- Hline.
    split; [|split; [reflexivity | exact Hcol]].
    symmetry; apply setLineAt_same, Hrange.
  - assert (L1 : lines (insertCharacterText e c)
               = setLineAt (lines e) (cursorLine e) (before ++ (t ++ c) ++ after)).
    { change (lines (insertCharacterText e c)) with
        (setLineAt (lines e) (cursorLine e)
           (slice (lineAt (lines e) (cursorLine e)) 0 (cursorCol e) ++ c ++
            sliceFrom (lineAt (lines e) (cursorLine e)) (cursorCol e))).
      rewrite Hline, Hcol, <- len_app.
      replace (before ++ t ++ after) with ((before ++ t) ++ after)
        by (rewrite <- app_assoc; reflexivity).
      rewrite slice_app_left, sliceFrom_app_left.
      rewrite <- !app_assoc. reflexivity. }
    assert (C1 : cursorCol (insertCharacterText e c) = len before + len (t ++ c)).
    { change (cursorCol (insertCharacterText e c)) with (cursorCol e + len c).
      rewrite Hcol, len_app. lia. }
    assert (N1 : cursorLine (insertCharacterText e c) = cursorLine e) by reflexivity.
    destruct (IH (insertCharacterText e c) (t ++ c)) as (A & B & C).
    + rewrite N1, L1, length_setLineAt; exact Hrange.
    + rewrite N1, L1. apply lineAt_setLineAt.
    + exact C1.
    + rewrite A, B, C, N1, L1, setLineAt_twice.
      simpl concat. rewrite <- !app_assoc. repeat split; reflexivity.
Qed.

(** Each piece typed is one more call of the change callback. *)
Lemma insert_run_onChange (cs : list jsstring) (e : Editor) :
  exists calls,
    length calls = length cs
    /\ onChange (fold_left insertCharacterText cs e)
       = option_map (fun log => log ++ calls) (onChange e).
Proof.
  revert e; induction cs as [|c cs IH]; intros e; simpl fold_left.
  - exists []. split; [reflexivity|].
    destruct (onChange e); simpl; [rewrite app_nil_r|]; reflexivity.
  - destruct (IH (insertCharacterText e c)) as (calls & Hlen & Hlog).
    exists (getText (insertCharacterText e c) :: calls).
    split; [simpl; congruence|].
    rewrite Hlog.
    change (onChange (insertCharacterText e c)) with
      (option_map (fun log => log ++ [getText (insertCharacterText e c)]) (onChange e)).
    destruct (onChange e); simpl; [rewrite <- app_assoc|]; reflexivity.
Qed.


End InsertFacts.

(* --------------------------------------------------------------------- *)
(** *** Paste ingestion *)
(* --------------------------------------------------------------------- *)

Section PasteFacts.





Lemma split_single_is_text (s p : jsstring) : split LF s = [p] -> p = s.
Proof.
  intros E. rewrite <- (join_split LF s), E. reflexivity.
Qed.



End PasteFacts.


(* --------------------------------------------------------------------- *)
(** *** Change notifications *)
(* --------------------------------------------------------------------- *)

Section ChangeFacts.
Context (H : Host).

Ltac branches :=
  repeat match goal with
         | |- context [if ?c then _ else _] => destruct c
         end.




Lemma extendsLog_once (a b : Editor) (x : jsstring) :
  onChange b = option_map (fun log => log ++ [x]) (onChange a) -> extendsLog a b.
Proof. intros E. exists [x]. exact E. Qed.




Lemma mergeWithPrevious_onChange (e : Editor) :
  onChange (mergeWithPrevious e) = onChange e.
Proof. reflexivity. Qed.

Lemma mergeWithNext_onChange (e : Editor) :
  onChange (mergeWithNext e) = onChange e.
Proof. reflexivity. Qed.

Lemma handleBackspace_once (e : Editor) : notifiesOnce e (handleBackspace H e).
Proof.
  unfold notifiesOnce, handleBackspace.
  set (e2 := if cursorCol _ >? 0 then _ else _).
  assert (O2 : onChange e2 = onChange e) by (subst e2; branches; reflexivity).
  rewrite (overlay_onChange _ _ (retriggerAutocomplete_overlay (notifyChange e2))).
  rewrite (overlay_getText _ _ (retriggerAutocomplete_overlay (notifyChange e2))).
  change (onChange (notifyChange e2))
    with (option_map (fun log => log ++ [getText e2]) (onChange e2)).
  rewrite O2. reflexivity.
Qed.

Lemma handleForwardDelete_once (e : Editor) :
  notifiesOnce e (handleForwardDelete H e).
Proof.
  unfold notifiesOnce, handleForwardDelete.
  set (e2 := if cursorCol _ <? _ then _ else _).
  assert (O2 : onChange e2 = onChange e) by (subst e2; branches; reflexivity).
  rewrite (overlay_onChange _ _ (retriggerAutocomplete_overlay (notifyChange e2))).
  rewrite (overlay_getText _ _ (retriggerAutocomplete_overlay (notifyChange e2))).
  change (onChange (notifyChange e2))
    with (option_map (fun log => log ++ [getText e2]) (onChange e2)).
  rewrite O2. reflexivity.
Qed.

Lemma deleteToStartOfLine_once (e : Editor) : notifiesOnce e (deleteToStartOfLine e).
Proof.
  unfold notifiesOnce, deleteToStartOfLine.
  set (e2 := if cursorCol _ >? 0 then _ else _).
  assert (O2 : onChange e2 = onChange e) by (subst e2; branches; reflexivity).
  change (onChange (notifyChange e2))
    with (option_map (fun log => log ++ [getText e2]) (onChange e2)).
  rewrite O2. reflexivity.
Qed.

Lemma deleteToEndOfLine_once (e : Editor) : notifiesOnce e (deleteToEndOfLine e).
Proof.
  unfold notifiesOnce, deleteToEndOfLine.
  set (e2 := if cursorCol _ <? _ then _ else _).
  assert (O2 : onChange e2 = onChange e) by (subst e2; branches; reflexivity).
  change (onChange (notifyChange e2))
    with (option_map (fun log => log ++ [getText e2]) (onChange e2)).
  rewrite O2. reflexivity.
Qed.

Lemma deleteWordBackwards_once (e : Editor) :
  notifiesOnce e (deleteWordBackwards H e).
Proof.
  unfold notifiesOnce, deleteWordBackwards.
  set (e2 := if cursorCol _ =? 0 then _ else _).
  assert (O2 : onChange e2 = onChange e).
  { subst e2. destruct (cursorCol _ =? 0).
    - destruct (0 <? _)%nat; reflexivity.
    - destruct (moveWordBackwards_frame H (e<|historyIndex := -1|>)) as (_ & _ & _ & Ho).
      exact Ho. }
  change (onChange (notifyChange e2))
    with (option_map (fun log => log ++ [getText e2]) (onChange e2)).
  rewrite O2. reflexivity.
Qed.
















End ChangeFacts.



(* --------------------------------------------------------------------- *)
(** *** Submit and paste expansion *)
(* --------------------------------------------------------------------- *)

Section SubmitFacts.





Lemma skipn_length_app {A : Type} (p q : list A) : skipn (length p) (p ++ q) = q.
Proof. induction p as [|c p IH]; simpl; [reflexivity | exact IH]. Qed.



Lemma head_nonempty (pasteId : Z) : exists c r, Marker.head pasteId = c :: r.
Proof. unfold Marker.head. eexists; eexists. reflexivity. Qed.







(** What [submit] hands to the submit callback. *)
Lemma submit_onSubmit (e : Editor) :
  disableSubmit e = false ->
  onSubmit (submit e)
  = option_map
      (fun log => log ++ [Marker.expand (pastes e) (trim (join LF (lines e)))])
      (onSubmit e).
Proof. intros Hd. unfold submit. rewrite Hd. reflexivity. Qed.



End SubmitFacts.



(* --------------------------------------------------------------------- *)
(** *** [handleInput] always returns *)
(* --------------------------------------------------------------------- *)

Section Totality.
Context (H : Host).

Lemma indexOf_nonneg (s p : jsstring) (i : Z) : indexOf s p = Some i -> 0 <= i.
Proof.
  revert i; induction s as [|c s IH]; intros i; cbn [indexOf].
  - destruct (startsWith [] p); intros E; inversion E; lia.
  - destruct (startsWith (c :: s) p); [intros E; inversion E; lia|].
    destruct (indexOf s p) as [j|]; cbn [option_map]; intros E; inversion E.
    specialize (IH j eq_refl). lia.
Qed.

Lemma removeFirst_length (s p : jsstring) :
  (length (removeFirst s p) <= length s)%nat.
Proof.
  unfold removeFirst. destruct (indexOf s p) as [i|]; [|lia].
  rewrite length_app, length_firstn, length_skipn.
  generalize (Z.to_nat i) (length s) (length p); intros a b c.
  destruct (Nat.min_spec a b) as [[? ->]|[? ->]]; lia.
Qed.

Lemma insert_run_pasteBuffer (cs : list jsstring) (e : Editor) :
  pasteBuffer (fold_left insertCharacterText cs e) = pasteBuffer e.
Proof.
  revert e; induction cs as [|c cs IH]; intros e; simpl fold_left; [reflexivity|].
  rewrite IH. reflexivity.
Qed.

Lemma insert_fold_pasteBuffer (cs : list jsstring) (e : Editor) :
  pasteBuffer (fold_left insertCharacter cs e) = pasteBuffer e.
Proof.
  pose proof (insert_fold_overlay cs e e (sameButOverlay_refl e)) as Hov.
  destruct (overlay_fields _ _ Hov) as (_ & _ & _ & _ & _ & _ & _ & _ & _ & _ & _ & _ & Eb & _).
  rewrite Eb. apply insert_run_pasteBuffer.
Qed.

Lemma handlePaste_pasteBuffer (e : Editor) (pastedText : jsstring) :
  pasteBuffer (handlePaste e pastedText) = pasteBuffer e.
Proof.
  unfold handlePaste. cbv zeta.
  destruct (_ || _); [rewrite insert_fold_pasteBuffer; reflexivity|].
  destruct (_ =? 1); [rewrite insert_fold_pasteBuffer; reflexivity|].
  reflexivity.
Qed.

(** With as much fuel as there is text to read, [handleInputFuel] does not
    run out. *)
Lemma handleInputFuel_total (fuel : nat) (e : Editor) (data : jsstring) :
  (length (pasteBuffer e) + length data <= fuel)%nat ->
  exists e', handleInputFuel H fuel e data = Some e'.
Proof.
  revert e data; induction fuel as [|f IH]; intros e data Hfuel.
  - assert (Hd : data = []) by (destruct data; [reflexivity | simpl in Hfuel; lia]).
    assert (Hb : pasteBuffer e = [])
      by (destruct (pasteBuffer e); [reflexivity | simpl in Hfuel; lia]).
    subst data. cbn [handleInputFuel].
    change (includes [] pasteStart) with false. cbv iota zeta.
    destruct (isInPaste e); [|eexists; reflexivity].
    change (pasteBuffer (e<|pasteBuffer := pasteBuffer e ++ []|>))
      with (pasteBuffer e ++ []).
    rewrite Hb. change (indexOf ([] ++ []) pasteEnd) with (@None Z).
    eexists; reflexivity.
  - cbn [handleInputFuel].
    set (st := if includes data pasteStart then _ else (e, data)).
    assert (Hst : (length (pasteBuffer (fst st)) + length (snd st) <= S f)%nat).
    { subst st. destruct (includes data pasteStart); cbn [fst snd]; [|exact Hfuel].
      change (pasteBuffer (e<|isInPaste := true|><|pasteBuffer := []|>)) with (@nil Z).
      pose proof (removeFirst_length data pasteStart). simpl. lia. }
    destruct st as [e1 data1]. cbn [fst snd] in Hst.
    destruct (isInPaste e1); [|eexists; reflexivity].
    cbv zeta.
    change (pasteBuffer (e1<|pasteBuffer := pasteBuffer e1 ++ data1|>))
      with (pasteBuffer e1 ++ data1).
    destruct (indexOf (pasteBuffer e1 ++ data1) pasteEnd) as [endIndex|] eqn:Hi;
      [|eexists; reflexivity].
    apply indexOf_nonneg in Hi.
    match goal with
    | |- context [if len (substringFrom (pasteBuffer ?x) ?k) >? 0 then _ else _] =>
        assert (Hb : pasteBuffer x = pasteBuffer e1 ++ data1)
    end.
    { cbv beta. destruct (len _ >? 0).
      - change (pasteBuffer (handlePaste (e1<|pasteBuffer := pasteBuffer e1 ++ data1|>)
                               (substring (pasteBuffer e1 ++ data1) 0 endIndex))
                            <|isInPaste := false|>)
          with (pasteBuffer (handlePaste (e1<|pasteBuffer := pasteBuffer e1 ++ data1|>)
                               (substring (pasteBuffer e1 ++ data1) 0 endIndex))).
        rewrite handlePaste_pasteBuffer. reflexivity.
      - reflexivity. }
    rewrite Hb.
    destruct (len (substringFrom (pasteBuffer e1 ++ data1) (endIndex + 6)) >? 0) eqn:Hr;
      [|eexists; reflexivity].
    apply IH.
    match goal with
    | |- (length (pasteBuffer ?x) + _ <= _)%nat =>
        change (pasteBuffer x) with (@nil Z)
    end.
    apply Z.gtb_lt in Hr. unfold len, substringFrom in *.
    rewrite length_skipn in *. rewrite length_app in *. simpl. lia.
Qed.

(** [handleInput] is the result of [handleInputFuel], never the default of
    its definition. *)
Lemma handleInput_returns (e : Editor) (data : jsstring) :
  handleInputFuel H (length (pasteBuffer e) + length data) e data
  = Some (handleInput H e data).
Proof.
  unfold handleInput.
  destruct (handleInputFuel_total _ e data (Nat.le_refl _)) as (e' & E).
  rewrite E. reflexivity.
Qed.

End Totality.

(* --------------------------------------------------------------------- *)
(** *** Word wrap *)
(* --------------------------------------------------------------------- *)

Section WrapFacts.
Context (H : Host).
Hypothesis segment_concat : forall s, concat (segment H s) = s.
Hypothesis segment_nonempty : forall s, ~ In [] (segment H s).

Lemma blank_app (a b : jsstring) : blank H a -> blank H b -> blank H (a ++ b).
Proof.
  induction 1 as [|g s Hg Hs IH|c s Hc Hs IH]; intros Hb; simpl.
  - exact Hb.
  - rewrite <- app_assoc. apply blank_grapheme; [exact Hg | apply IH, Hb].
  - apply blank_unit; [exact Hc | apply IH, Hb].
Qed.

Lemma blank_one (g : jsstring) : isWhitespaceChar H g = true -> blank H g.
Proof.
  intros Hg. rewrite <- (app_nil_r g). apply blank_grapheme; [exact Hg | constructor].
Qed.

Lemma blank_spaces (s : jsstring) : forallb isJsSpace s = true -> blank H s.
Proof.
  induction s as [|c s IH]; simpl; intros Hs; [constructor|].
  apply andb_true_iff in Hs as [Hc Hs]. apply blank_unit; auto.
Qed.

Lemma trimEnd_nil_spaces (s : jsstring) : trimEnd s = [] -> forallb isJsSpace s = true.
Proof.
  induction s as [|c s IH] using rev_ind; [reflexivity|].
  intros Ht. destruct (isJsSpace c) eqn:Ec.
  - rewrite trimEnd_drop in Ht by exact Ec.
    rewrite forallb_app, (IH Ht). simpl. rewrite Ec. reflexivity.
  - rewrite trimEnd_keep in Ht by exact Ec. destruct s; discriminate.
Qed.

Lemma covered_nil_blank (cs : list TextChunk) (p : jsstring) :
  covered H cs p -> cs = [] -> blank H p.
Proof.
  induction 1 as [|cs p gap Hc IH Hg|cs p body c Hc IH Hs He Ht]; intros E.
  - constructor.
  - apply blank_app; [apply IH, E | exact Hg].
  - destruct cs; discriminate.
Qed.

(* The tokeniser *)

Lemma tokenizeStep_inv (st : Tokenizer) (p g : jsstring) :
  tokenizerInv H st p -> tokenizerInv H (tokenizeStep H st g) (p ++ g).
Proof.
  intros (q & Ht & Hp & Hs & Hc & Hb). unfold tokenizeStep.
  destruct (isEmpty (currentToken st)) eqn:Ee.
  - apply isEmpty_true in Ee. rewrite Ee in *. rewrite app_nil_r in Hp. subst q.
    exists p. cbn. repeat split; try assumption.
    + rewrite len_app. lia.
    + intros Hw. apply blank_one, Hw.
  - destruct (negb (Bool.eqb (isWhitespaceChar H g) (inWhitespace st))) eqn:Ec.
    + exists p. cbn. repeat split.
      * rewrite Hp. apply tokenized_snoc; cbn; try assumption.
        rewrite Hc, Hp, len_app. reflexivity.
      * rewrite Hc. reflexivity.
      * rewrite len_app. lia.
      * intros Hw. apply blank_one, Hw.
    + apply negb_false_iff, eqb_prop in Ec.
      exists q. cbn. repeat split; try assumption.
      * rewrite Hp, app_assoc. reflexivity.
      * rewrite len_app. lia.
      * intros Hw. apply blank_app; [apply Hb, Hw|].
        apply blank_one. rewrite Ec. exact Hw.
Qed.

Lemma tokenize_fold_inv (gs : list jsstring) (st : Tokenizer) (p : jsstring) :
  tokenizerInv H st p ->
  tokenizerInv H (fold_left (tokenizeStep H) gs st) (p ++ concat gs).
Proof.
  revert st p; induction gs as [|g gs IH]; intros st p Hi; simpl.
  - rewrite app_nil_r. exact Hi.
  - rewrite app_assoc. apply IH, tokenizeStep_inv, Hi.
Qed.

Lemma tokenize_tokenized (line : jsstring) : tokenized H (tokenize H line) line.
Proof.
  unfold tokenize.
  set (init := {| tokens := []; currentToken := []; tokenStart := 0;
                  inWhitespace := false; charIndex := 0 |}).
  assert (Hi : tokenizerInv H init []).
  { exists []. cbn. repeat split; try constructor. }
  pose proof (tokenize_fold_inv (segment H line) init [] Hi) as Hf.
  simpl app in Hf. rewrite segment_concat in Hf.
  set (st := fold_left (tokenizeStep H) (segment H line) init) in *.
  clearbody st.
  destruct Hf as (q & Ht & Hp & Hs & Hc & Hb).
  destruct (isEmpty (currentToken st)) eqn:Ee.
  - apply isEmpty_true in Ee. rewrite Ee, app_nil_r in Hp. subst q. exact Ht.
  - rewrite Hp. apply tokenized_snoc; cbn; try assumption.
    rewrite Hc, Hp, len_app. reflexivity.
Qed.

(* Breaking an over-long token *)

Lemma breakStep_inv (maxWidth : Z) (q : jsstring) (b : Breaker) (r g : jsstring) :
  g <> [] ->
  breakerInv H q b r -> breakerInv H q (breakStep H maxWidth b g) (r ++ g).
Proof.
  intros Hg (pb & Hc & He & Hs & Hi & Hn). unfold breakStep.
  destruct (_ && _).
  - exists (pb ++ tokenChunk b). cbn. repeat split.
    + apply covered_chunk; cbn; auto.
      rewrite Hi, He, len_app. reflexivity.
    + rewrite app_assoc, He. reflexivity.
    + rewrite Hi, He. reflexivity.
    + rewrite Hi, !len_app. lia.
    + intros _. exact Hg.
  - exists pb. cbn. repeat split; try assumption.
    + rewrite !app_assoc, He. rewrite <- !app_assoc. reflexivity.
    + rewrite Hi, !len_app. lia.
    + intros _ E. apply app_eq_nil in E as [_ E]. contradiction.
Qed.

Lemma break_fold_inv (maxWidth : Z) (q : jsstring) (gs : list jsstring)
    (b : Breaker) (r : jsstring) :
  ~ In [] gs ->
  breakerInv H q b r ->
  breakerInv H q (fold_left (breakStep H maxWidth) gs b) (r ++ concat gs).
Proof.
  revert b r; induction gs as [|g gs IH]; intros b r Hne Hi; simpl.
  - rewrite app_nil_r. exact Hi.
  - rewrite app_assoc. apply IH.
    + intros Hin. apply Hne. right; exact Hin.
    + apply breakStep_inv; [|exact Hi].
      intros E. apply Hne. left. exact E.
Qed.

(* Building the chunks *)

Lemma wrapStep_inv (maxWidth : Z) (st : Wrapper) (q : jsstring) (t : Token) :
  tStartIndex t = len q ->
  tEndIndex t = len q + len (tText t) ->
  (tIsWhitespace t = true -> blank H (tText t)) ->
  wrapperInv H st q -> wrapperInv H (wrapStep H maxWidth st t) (q ++ tText t).
Proof.
  intros Hts Hte Htb (p & Hc & Hq & Hs & Ha). unfold wrapStep.
  destruct (atLineStart st && tIsWhitespace t) eqn:E1.
  { apply andb_true_iff in E1 as [Eal Ews].
    specialize (Ha Eal). rewrite Ha in *. rewrite app_nil_r in Hq. subst q.
    exists (p ++ tText t). cbn. repeat split.
    - apply covered_gap; [exact Hc | apply Htb, Ews].
    - rewrite app_nil_r. reflexivity.
    - rewrite Hte, len_app. reflexivity. }
  destruct (visibleWidth H (tText t) >? maxWidth).
  { set (st1 := if isEmpty (currentChunk st) then st else _).
    assert (H1 : covered H (chunks st1) q /\ chunkStartIndex st1 = len q
                 /\ currentChunk st1 = []).
    { subst st1. destruct (isEmpty (currentChunk st)) eqn:Ee.
      - apply isEmpty_true in Ee. rewrite Ee, app_nil_r in Hq. subst q. auto.
      - cbn. repeat split; [|exact Hts].
        rewrite Hq. apply covered_chunk; cbn; auto.
        rewrite Hts, Hq, len_app. reflexivity. }
    destruct H1 as (Hc1 & Hs1 & Hcur1).
    set (b0 := {| bChunks := chunks st1; tokenChunk := []; tokenChunkWidth := 0;
                  tokenChunkStart := tStartIndex t; tokenCharIndex := tStartIndex t |}).
    assert (Hb0 : breakerInv H q b0 []).
    { exists q. cbn. rewrite app_nil_r. repeat split; auto; try congruence. }
    pose proof (break_fold_inv maxWidth q (segment H (tText t)) b0 []
                  (segment_nonempty _) Hb0) as Hb.
    simpl app in Hb. rewrite segment_concat in Hb.
    destruct Hb as (pb & Hcb & Heb & Hsb & Hib & Hnb).
    destruct (isEmpty (tokenChunk _)) eqn:Ee.
    - apply isEmpty_true in Ee.
      assert (Htx : tText t = []).
      { destruct (tText t) eqn:Et; [reflexivity|].
        exfalso. apply Hnb; [discriminate | exact Ee]. }
      rewrite Ee, app_nil_r in Heb. rewrite Htx, app_nil_r in *. subst pb.
      exists q. cbn. rewrite Hcur1, app_nil_r. repeat split; auto;
        try (intros; discriminate).
    - exists pb. cbn. repeat split; auto; try (intros; discriminate). }
  destruct (currentWidth st + visibleWidth H (tText t) >? maxWidth).
  { set (chunks' := if _ || _ then _ else chunks st).
    assert (Hc' : covered H chunks' q).
    { subst chunks'. rewrite Hq.
      destruct (negb (isEmpty (trimEnd (currentChunk st)))) eqn:En.
      - cbn [orb]. apply covered_chunk; cbn; auto. rewrite Hs; reflexivity.
      - destruct (length (chunks st) =? 0)%nat; cbn [orb].
        + apply covered_chunk; cbn; auto. rewrite Hs; reflexivity.
        + apply covered_gap; [exact Hc|].
          apply negb_false_iff, isEmpty_true in En.
          apply blank_spaces, trimEnd_nil_spaces, En. }
    clearbody chunks'.
    destruct (tIsWhitespace t) eqn:Ews.
    - exists (q ++ tText t). cbn. repeat split.
      + apply covered_gap; [exact Hc' | apply Htb; reflexivity].
      + rewrite app_nil_r. reflexivity.
      + rewrite Hte, len_app. reflexivity.
    - exists q. cbn. repeat split; auto; try (intros; discriminate). }
  exists p. cbn. repeat split; auto; try (intros; discriminate).
  rewrite Hq, app_assoc. reflexivity.
Qed.

Lemma wrap_fold_inv (maxWidth : Z) (ts : list Token) (line : jsstring) :
  tokenized H ts line ->
  wrapperInv H
    (fold_left (wrapStep H maxWidth) ts
       {| chunks := []; currentChunk := []; currentWidth := 0;
          chunkStartIndex := 0; atLineStart := true |})
    line.
Proof.
  induction 1 as [|ts q t Ht IH Hs He Hb].
  - exists []. cbn. repeat split; constructor.
  - rewrite fold_left_app. cbn [fold_left].
    apply wrapStep_inv; assumption.
Qed.

Lemma covered_single (line : jsstring) :
  covered H [{| text := line; startIndex := 0; endIndex := len line |}] line.
Proof.
  change (covered H ([] ++ [{| text := line; startIndex := 0; endIndex := len line |}])
            ([] ++ line)).
  apply covered_chunk; cbn; auto. constructor.
Qed.

Lemma covered_empty_chunk (line : jsstring) :
  blank H line -> covered H [emptyChunk] line.
Proof.
  intros Hb.
  change (covered H ([] ++ [emptyChunk]) (([] ++ []) ++ line)).
  apply covered_gap; [|exact Hb].
  apply covered_chunk; cbn; auto. constructor.
Qed.


End WrapFacts.



(* --------------------------------------------------------------------- *)
(** *** The cursor invariant *)
(* --------------------------------------------------------------------- *)

(** C3 does not hold of the code: after typing a line that wraps, with the
    cursor in the white space skipped between two chunks, Up moves the
    cursor to column -1; and vertical motion can land inside a grapheme.
    Both runs start from a new editor. *)
Theorem cursor_invariant_broken :
  cursorInvariant Ref.host Ref.editor = true
  /\ cursorCol (handleInputs Ref.host Ref.editor Example.typeThenUp) = -1
  /\ cursorInvariant Ref.host (handleInputs Ref.host Ref.editor Example.typeThenUp)
     = false
  /\ lines (handleInputs Ref.host Ref.editor Example.emojiThenUpDown)
     = [str "a"; [55357; 56832]]
  /\ cursorLine (handleInputs Ref.host Ref.editor Example.emojiThenUpDown) = 1%nat
  /\ cursorCol (handleInputs Ref.host Ref.editor Example.emojiThenUpDown) = 1
  /\ cursorInvariant Ref.host (handleInputs Ref.host Ref.editor Example.emojiThenUpDown)
     = false.
Proof. repeat split; vm_compute; reflexivity. Qed.

(* --------------------------------------------------------------------- *)
(** *** Chunks fit the content width *)
(* --------------------------------------------------------------------- *)

Section FitFacts.
Context (H : Host).
Hypothesis width_narrow : forall s, narrow s = true -> visibleWidth H s = len s.
Hypothesis segment_narrow :
  forall s, narrow s = true -> segment H s = map (fun c => [c]) s.

Lemma narrow_app (a b : jsstring) : narrow (a ++ b) = narrow a && narrow b.
Proof. apply forallb_app. Qed.

Lemma narrow_app_intro (a b : jsstring) :
  narrow a = true -> narrow b = true -> narrow (a ++ b) = true.
Proof. intros Ha Hb. rewrite narrow_app, Ha, Hb. reflexivity. Qed.




Lemma trimEnd_prefix (s : jsstring) : exists q, s = trimEnd s ++ q.
Proof.
  unfold trimEnd. destruct (trimStart_suffix (rev s)) as (p & E & _).
  exists (rev p). rewrite <- rev_app_distr, <- E, rev_involutive. reflexivity.
Qed.

Lemma fitsWidth_trimEnd (maxWidth : Z) (s : jsstring) :
  fitsWidth maxWidth s -> fitsWidth maxWidth (trimEnd s).
Proof.
  intros [Hn Hl]. destruct (trimEnd_prefix s) as (q & E).
  rewrite E in Hn, Hl. rewrite narrow_app in Hn. apply andb_true_iff in Hn as [Hn _].
  rewrite len_app in Hl. pose proof (len_nonneg q). split; [exact Hn | lia].
Qed.

Lemma fitsWidth_nil (maxWidth : Z) : 0 <= maxWidth -> fitsWidth maxWidth [].
Proof. intros Hw. split; [reflexivity | exact Hw]. Qed.

(* Tokens of a narrow line are narrow *)

Lemma tokenizeStep_narrow (st : Tokenizer) (g : jsstring) :
  narrow g = true ->
  Forall (fun t => narrow (tText t) = true) (tokens st) /\ narrow (currentToken st) = true ->
  Forall (fun t => narrow (tText t) = true) (tokens (tokenizeStep H st g))
  /\ narrow (currentToken (tokenizeStep H st g)) = true.
Proof.
  intros Hg [Ht Hc]. unfold tokenizeStep.
  destruct (isEmpty (currentToken st)).
  - cbn. split; [exact Ht | apply narrow_app_intro; assumption].
  - destruct (negb _); cbn.
    + split; [|exact Hg].
      apply Forall_app; split; [exact Ht | constructor; [exact Hc | constructor]].
    + split; [exact Ht | apply narrow_app_intro; assumption].
Qed.

Lemma tokenize_fold_narrow (gs : list jsstring) (st : Tokenizer) :
  Forall (fun g => narrow g = true) gs ->
  Forall (fun t => narrow (tText t) = true) (tokens st) /\ narrow (currentToken st) = true ->
  Forall (fun t => narrow (tText t) = true) (tokens (fold_left (tokenizeStep H) gs st))
  /\ narrow (currentToken (fold_left (tokenizeStep H) gs st)) = true.
Proof.
  intros Hgs; revert st; induction Hgs as [|g gs Hg _ IH]; intros st Hi; simpl;
    [exact Hi|].
  apply IH, tokenizeStep_narrow; assumption.
Qed.

Lemma singletons_narrow (s : jsstring) :
  narrow s = true -> Forall (fun g => narrow g = true) (map (fun c => [c]) s).
Proof.
  induction s as [|c s IH]; simpl; intros Hs; [constructor|].
  apply andb_true_iff in Hs as [Hc Hs].
  constructor; [simpl; rewrite Hc; reflexivity | apply IH, Hs].
Qed.

Lemma tokenize_narrow (line : jsstring) :
  narrow line = true ->
  Forall (fun t => narrow (tText t) = true) (tokenize H line).
Proof.
  intros Hl. unfold tokenize. rewrite (segment_narrow line Hl).
  match goal with |- context [fold_left _ _ ?i] => set (init := i) end.
  destruct (tokenize_fold_narrow (map (fun c => [c]) line) init
              (singletons_narrow line Hl)) as [Ht Hc].
  { split; [constructor | reflexivity]. }
  destruct (isEmpty _); [exact Ht|].
  apply Forall_app; split; [exact Ht | constructor; [exact Hc | constructor]].
Qed.

(* Breaking an over-long narrow token *)

Ltac four := split; [|split; [|split]]; cbn.

Lemma breakStep_fits (maxWidth : Z) (b : Breaker) (c : Z) :
  1 <= maxWidth -> isNarrowUnit c = true ->
  breakerFits maxWidth b -> breakerFits maxWidth (breakStep H maxWidth b [c]).
Proof.
  intros Hw Hc (Hch & Hn & Hwd & Hl). unfold breakStep.
  assert (Hg : narrow [c] = true) by (simpl; rewrite Hc; reflexivity).
  rewrite (width_narrow [c] Hg). change (len [c]) with 1.
  destruct ((tokenChunkWidth b + 1 >? maxWidth) && negb (isEmpty (tokenChunk b))) eqn:E.
  - four.
    + apply Forall_app; split; [exact Hch|].
      constructor; [split; assumption | constructor].
    + rewrite Hc; reflexivity.
    + reflexivity.
    + change (len [c]) with 1. lia.
  - four.
    + exact Hch.
    + apply narrow_app_intro; assumption.
    + rewrite len_app. change (len [c]) with 1. lia.
    + rewrite len_app. change (len [c]) with 1.
      apply andb_false_iff in E as [E|E].
      * rewrite Z.gtb_ltb in E. apply Z.ltb_ge in E. lia.
      * apply negb_false_iff, isEmpty_true in E. rewrite E. change (len (@nil Z)) with 0. lia.
Qed.

Lemma break_fold_fits (maxWidth : Z) (s : jsstring) (b : Breaker) :
  1 <= maxWidth -> narrow s = true ->
  breakerFits maxWidth b ->
  breakerFits maxWidth (fold_left (breakStep H maxWidth) (map (fun c => [c]) s) b).
Proof.
  intros Hw. revert b; induction s as [|c s IH]; intros b Hs Hb; simpl; [exact Hb|].
  simpl in Hs. apply andb_true_iff in Hs as [Hc Hs].
  apply IH; [exact Hs | apply breakStep_fits; assumption].
Qed.

(* Building the chunks of a narrow line *)

Lemma wrapStep_fits (maxWidth : Z) (st : Wrapper) (t : Token) :
  1 <= maxWidth -> narrow (tText t) = true ->
  wrapperFits maxWidth st -> wrapperFits maxWidth (wrapStep H maxWidth st t).
Proof.
  intros Hw Ht (Hch & Hn & Hwd & Hl). unfold wrapStep.
  rewrite (width_narrow (tText t) Ht).
  destruct (atLineStart st && tIsWhitespace t).
  { four; assumption. }
  destruct (len (tText t) >? maxWidth) eqn:Elong.
  { set (st1 := if isEmpty (currentChunk st) then st else _).
    assert (H1 : wrapperFits maxWidth st1).
    { subst st1. destruct (isEmpty (currentChunk st)).
      - four; assumption.
      - four; [|reflexivity|reflexivity|change (len (@nil Z)) with 0; lia].
        apply Forall_app; split; [exact Hch|].
        constructor; [split; assumption | constructor]. }
    destruct H1 as (Hch1 & Hn1 & Hwd1 & Hl1).
    rewrite (segment_narrow (tText t) Ht).
    match goal with |- context [fold_left _ _ ?i] => set (b0 := i) end.
    assert (Hb0 : breakerFits maxWidth b0).
    { subst b0. four; [exact Hch1|reflexivity|reflexivity|change (len (@nil Z)) with 0; lia]. }
    pose proof (break_fold_fits maxWidth (tText t) b0 Hw Ht Hb0)
      as (Hchb & Hnb & Hwdb & Hlb).
    destruct (isEmpty (tokenChunk _)); four; assumption. }
  rewrite Z.gtb_ltb in Elong. apply Z.ltb_ge in Elong.
  destruct (currentWidth st + len (tText t) >? maxWidth) eqn:Eover.
  { set (chunks' := if _ || _ then _ else chunks st).
    assert (Hc' : Forall (fun c => fitsWidth maxWidth (text c)) chunks').
    { subst chunks'. destruct (_ || _); [|exact Hch].
      apply Forall_app; split; [exact Hch|].
      constructor; [|constructor]. cbn. apply fitsWidth_trimEnd. split; assumption. }
    destruct (tIsWhitespace t); four; try assumption; try reflexivity.
    change (len (@nil Z)) with 0; lia. }
  rewrite Z.gtb_ltb in Eover. apply Z.ltb_ge in Eover.
  four.
  - exact Hch.
  - apply narrow_app_intro; assumption.
  - rewrite len_app. lia.
  - rewrite len_app. lia.
Qed.

Lemma wrap_fold_fits (maxWidth : Z) (ts : list Token) (st : Wrapper) :
  1 <= maxWidth ->
  Forall (fun t => narrow (tText t) = true) ts ->
  wrapperFits maxWidth st ->
  wrapperFits maxWidth (fold_left (wrapStep H maxWidth) ts st).
Proof.
  intros Hw Hts; revert st; induction Hts as [|t ts Ht _ IH]; intros st Hi; simpl;
    [exact Hi|].
  apply IH, wrapStep_fits; assumption.
Qed.

(** Every chunk of a line of one-column characters is made of such
    characters and is no longer than the width asked for. *)
Lemma wordWrapLine_fits (line : jsstring) (maxWidth : Z) :
  1 <= maxWidth -> narrow line = true ->
  Forall (fun c => fitsWidth maxWidth (text c)) (wordWrapLine H line maxWidth).
Proof.
  intros Hw Hl. unfold wordWrapLine.
  assert (He : Forall (fun c => fitsWidth maxWidth (text c)) [emptyChunk]).
  { constructor; [|constructor]. apply fitsWidth_nil. lia. }
  destruct (_ || _); [exact He|].
  rewrite (width_narrow line Hl).
  destruct (len line <=? maxWidth) eqn:Efit.
  { apply Z.leb_le in Efit. constructor; [split; assumption | constructor]. }
  cbv zeta.
  match goal with |- context [fold_left _ _ ?i] => set (init := i) end.
  assert (Hi : wrapperFits maxWidth init).
  { subst init. four; [constructor|reflexivity|reflexivity|change (len (@nil Z)) with 0; lia]. }
  pose proof (wrap_fold_fits maxWidth (tokenize H line) init Hw
                (tokenize_narrow line Hl) Hi) as (Hch & Hn & Hwd & Hlen).
  set (st := fold_left (wrapStep H maxWidth) (tokenize H line) init) in *.
  clearbody st.
  set (chunks' := if isEmpty (currentChunk st) then _ else _).
  assert (Hc' : Forall (fun c => fitsWidth maxWidth (text c)) chunks').
  { subst chunks'. destruct (isEmpty (currentChunk st)); [exact Hch|].
    apply Forall_app; split; [exact Hch|].
    constructor; [split; assumption | constructor]. }
  destruct chunks'; [exact He | exact Hc'].
Qed.

End FitFacts.

(* --------------------------------------------------------------------- *)
(** *** The width of what [render] returns *)
(* --------------------------------------------------------------------- *)

Section RenderFacts.
Context (H : Host).
Hypothesis width_narrow : forall s, narrow s = true -> visibleWidth H s = len s.
Hypothesis segment_narrow :
  forall s, narrow s = true -> segment H s = map (fun c => [c]) s.
Hypothesis width_styled :
  forall a m c r,
    narrow a = true -> narrow c = true -> narrow r = true ->
    m = [] \/ m = CURSOR_MARKER H ->
    visibleWidth H (a ++ m ++ REVERSE_VIDEO ++ c ++ RESET ++ r)
    = len a + len c + len r.









(* Layout lines of a narrow buffer fit the content width *)








(* Borders *)








End RenderFacts.



(* ===================================================================== *)
(** ** Further properties of the word wrap *)
(* ===================================================================== *)

Section WrapOrder.
Context (H : Host).
Hypothesis segment_concat : forall s, concat (segment H s) = s.
Hypothesis segment_nonempty : forall s, ~ In [] (segment H s).

Lemma chunksOrdered_weaken (cs : list TextChunk) (lo hi hi' : Z) :
  chunksOrdered lo cs hi -> hi <= hi' -> chunksOrdered lo cs hi'.
Proof.
  revert lo; induction cs as [|c cs IH]; intros lo; cbn [chunksOrdered].
  - lia.
  - intros (H1 & H2 & H3) Hh. split; [exact H1|]. split; [exact H2|].
    apply IH; assumption.
Qed.

Lemma chunksOrdered_snoc (cs : list TextChunk) (c : TextChunk) (lo m hi : Z) :
  chunksOrdered lo cs m ->
  m <= startIndex c -> startIndex c <= endIndex c -> endIndex c <= hi ->
  chunksOrdered lo (cs ++ [c]) hi.
Proof.
  revert lo; induction cs as [|d cs IH]; intros lo; cbn [chunksOrdered app].
  - intros Hl Hm Hs He. split; [lia|]. split; [exact Hs | exact He].
  - intros (H1 & H2 & H3) Hm Hs He. split; [exact H1|]. split; [exact H2|].
    apply IH; assumption.
Qed.

Lemma covered_ordered (cs : list TextChunk) (p : jsstring) :
  covered H cs p -> chunksOrdered 0 cs (len p).
Proof.
  induction 1 as [|cs p gap Hc IH Hg|cs p body c Hc IH Hs He Ht].
  - cbn. reflexivity.
  - apply (chunksOrdered_weaken cs 0 (len p)); [exact IH|].
    rewrite len_app. pose proof (len_nonneg gap). lia.
  - apply (chunksOrdered_snoc cs c 0 (len p)); [exact IH | lia | |].
    + rewrite Hs, He. pose proof (len_nonneg body). lia.
    + rewrite He, len_app. lia.
Qed.

(** The chunks of a wrapped line are cut from it in order, whatever the
    width asked for. *)
Lemma wordWrapLine_covered (line : jsstring) (maxWidth : Z) :
  0 < maxWidth -> covered H (wordWrapLine H line maxWidth) line.
Proof.
  intros Hw. unfold wordWrapLine.
  destruct (isEmpty line) eqn:Ee.
  { apply isEmpty_true in Ee. subst line. cbn [orb].
    apply covered_empty_chunk. constructor. }
  assert (Hm : (maxWidth <=? 0) = false) by (apply Z.leb_gt; exact Hw).
  rewrite Hm. cbn [orb].
  destruct (visibleWidth H line <=? maxWidth); [apply covered_single|].
  pose proof (wrap_fold_inv H segment_concat segment_nonempty maxWidth
                (tokenize H line) line (tokenize_tokenized H segment_concat line))
    as (p & Hc & Hq & Hs & Ha).
  cbv zeta.
  set (st := fold_left (wrapStep H maxWidth) (tokenize H line) _) in *.
  clearbody st.
  set (chunks' := if isEmpty (currentChunk st) then _ else _).
  assert (Hc' : covered H chunks' line).
  { subst chunks'. destruct (isEmpty (currentChunk st)) eqn:En.
    - apply isEmpty_true in En. rewrite En, app_nil_r in Hq. subst p. exact Hc.
    - rewrite Hq at 2. apply covered_chunk; cbn; auto.
      rewrite Hq at 1. apply len_app. }
  destruct chunks' as [|c cs] eqn:Ech; [|exact Hc'].
  apply covered_empty_chunk. eapply covered_nil_blank; [exact Hc' | reflexivity].
Qed.

Lemma wordWrapLine_nonempty (line : jsstring) (maxWidth : Z) :
  wordWrapLine H line maxWidth <> [].
Proof.
  unfold wordWrapLine.
  destruct (_ || _); [discriminate|].
  destruct (_ <=? _); [discriminate|].
  cbv zeta.
  match goal with |- context [match ?c with [] => _ | _ :: _ => _ end] =>
    destruct c; discriminate end.
Qed.

Lemma wordWrapLine_ordered_chunks (line : jsstring) (maxWidth : Z) :
  chunksOrdered 0 (wordWrapLine H line maxWidth) (len line).
Proof.
  destruct (Z.ltb_spec 0 maxWidth) as [Hw|Hw].
  - apply covered_ordered, wordWrapLine_covered, Hw.
  - unfold wordWrapLine. apply Z.leb_le in Hw. rewrite Hw, orb_true_r.
    cbn. pose proof (len_nonneg line). lia.
Qed.

(** X1: word wrapping always returns at least one chunk, and the chunks lie in
    the line one after the other: each starts at or after the end of the
    one before, none ends before it starts, the first starts at or after
    index 0 and the last ends at or before the length of the line. *)
Theorem wordWrapLine_ordered (line : jsstring) (maxWidth : Z) :
  wordWrapLine H line maxWidth <> []
  /\ chunksOrdered 0 (wordWrapLine H line maxWidth) (len line).
Proof.
  split; [apply wordWrapLine_nonempty | apply wordWrapLine_ordered_chunks].
Qed.

End WrapOrder.

Lemma wordWrapLine_ordered_witness :
  chunksOrdered 0 (wordWrapLine Ref.host (str "the quick brown fox") 8) 19.
Proof.
  exact (proj2 (wordWrapLine_ordered Ref.host ref_segment_concat ref_segment_nonempty
                  (str "the quick brown fox") 8)).
Defined.

Section WrapWidth.
Context (H : Host).
Hypothesis width_narrow : forall s, narrow s = true -> visibleWidth H s = len s.
Hypothesis segment_narrow :
  forall s, narrow s = true -> segment H s = map (fun c => [c]) s.

(** X2: on a line of one-column characters and for a width of at least 1, no
    chunk of the word wrap is wider than the width asked for, also when a
    single word is longer than the width. *)
Theorem wordWrapLine_chunk_widths (line : jsstring) (maxWidth : Z) :
  1 <= maxWidth -> narrow line = true ->
  Forall (fun c => visibleWidth H (text c) <= maxWidth)
         (wordWrapLine H line maxWidth).
Proof.
  intros Hw Hl.
  pose proof (wordWrapLine_fits H width_narrow segment_narrow line maxWidth Hw Hl) as F.
  eapply Forall_impl; [|exact F].
  intros c [Hn Hlen]. rewrite (width_narrow _ Hn). exact Hlen.
Qed.

End WrapWidth.

Lemma wordWrapLine_chunk_widths_witness :
  Forall (fun c => visibleWidth Ref.host (text c) <= 4)
         (wordWrapLine Ref.host (str "abcdefghij kl") 4).
Proof.
  apply (wordWrapLine_chunk_widths Ref.host ref_width_narrow ref_segment_narrow
           (str "abcdefghij kl") 4); [lia | reflexivity].
Defined.

(* ===================================================================== *)
(** ** Further properties of the layout *)
(* ===================================================================== *)

Section LayoutRows.
Context (H : Host).

Lemma length_layoutChunks (b : bool) (pos : Z) (cs : list TextChunk) :
  length (layoutChunks b pos cs) = length cs.
Proof. induction cs as [|c cs IH]; cbn [layoutChunks length]; congruence. Qed.

Lemma length_layoutLine (e : Editor) (w : Z) (i : nat) :
  length (layoutLine H e w i) = length (visualLinesOf H w i (lineAt (lines e) i)).
Proof.
  unfold layoutLine, visualLinesOf. cbv zeta.
  set (line := lineAt (lines e) i).
  destruct (len line =? 0) eqn:E0.
  - apply Z.eqb_eq, len_nil_iff in E0. rewrite E0.
    destruct (visibleWidth H [] <=? w); [destruct (i =? cursorLine e)%nat; reflexivity|].
    rewrite length_layoutChunks. reflexivity.
  - destruct (visibleWidth H line <=? w); [destruct (i =? cursorLine e)%nat; reflexivity|].
    rewrite length_layoutChunks, length_map. reflexivity.
Qed.

Lemma length_flat_map_ext {A B C : Type} (f : A -> list B) (g : A -> list C) (l : list A) :
  (forall a, length (f a) = length (g a)) ->
  length (flat_map f l) = length (flat_map g l).
Proof.
  intros E. induction l as [|a l IH]; cbn [flat_map]; [reflexivity|].
  rewrite !length_app, E, IH. reflexivity.
Qed.

(** X3: the map of visual lines that cursor motion uses and the layout that
    [render] draws have the same number of rows, for the same width. *)
Theorem visual_map_matches_layout (e : Editor) (w : Z) :
  lines e <> [] ->
  len (buildVisualLineMap H e w) = len (layoutText H e w).
Proof.
  intros Hl. unfold len. f_equal.
  unfold buildVisualLineMap, layoutText.
  destruct (lines e) as [|l ls] eqn:El; [congruence|].
  cbn [length Nat.eqb orb].
  destruct ((length ls =? 0)%nat && isEmpty (lineAt (l :: ls) 0)) eqn:Es.
  - apply andb_true_iff in Es as [E1 E2].
    apply Nat.eqb_eq in E1. destruct ls; [|discriminate].
    apply isEmpty_true in E2. cbn [lineAt nth] in E2. subst l.
    unfold visualLinesOf. cbn. reflexivity.
  - symmetry. apply length_flat_map_ext. intros i.
    rewrite length_layoutLine, El. reflexivity.
Qed.

End LayoutRows.

Lemma visual_map_matches_layout_witness :
  len (buildVisualLineMap Ref.host (handleInput Ref.host Ref.editor (str "one two three")) 5)
  = len (layoutText Ref.host (handleInput Ref.host Ref.editor (str "one two three")) 5).
Proof.
  apply (visual_map_matches_layout Ref.host
           (handleInput Ref.host Ref.editor (str "one two three")) 5).
  vm_compute. discriminate.
Defined.

Section LayoutCursor.
Context (H : Host).
Hypothesis segment_concat : forall s, concat (segment H s) = s.
Hypothesis segment_nonempty : forall s, ~ In [] (segment H s).

Lemma cursorRows_app (a b : list LayoutLine) :
  cursorRows (a ++ b) = (cursorRows a + cursorRows b)%nat.
Proof. unfold cursorRows. rewrite filter_app, length_app. reflexivity. Qed.

Lemma layoutChunks_other (pos : Z) (cs : list TextChunk) :
  cursorRows (layoutChunks false pos cs) = 0%nat.
Proof.
  induction cs as [|c cs IH]; [reflexivity|].
  change (layoutChunks false pos (c :: cs))
    with ([{| lText := text c; hasCursor := false; cursorPos := None |}]
            ++ layoutChunks false pos cs).
  rewrite cursorRows_app, IH. reflexivity.
Qed.

Lemma layoutChunks_head (pos : Z) (c : TextChunk) (cs : list TextChunk) :
  exists l,
    layoutChunks true pos (c :: cs) = [l] ++ layoutChunks true pos cs
    /\ hasCursor l =
         match cs with
         | [] => pos >=? startIndex c
         | _ :: _ => (pos >=? startIndex c) && (pos <? endIndex c)
         end.
Proof.
  cbn [layoutChunks].
  eexists. split; [reflexivity|].
  destruct cs; cbn [hasCursor].
  - destruct (pos >=? startIndex c); reflexivity.
  - destruct ((pos >=? startIndex c) && (pos <? endIndex c)); reflexivity.
Qed.

Lemma cursorRows_one (l : LayoutLine) :
  cursorRows [l] = if hasCursor l then 1%nat else 0%nat.
Proof. unfold cursorRows. cbn. destruct (hasCursor l); reflexivity. Qed.

Lemma layoutChunks_before (pos lo hi : Z) (cs : list TextChunk) :
  chunksOrdered lo cs hi -> pos < lo ->
  cursorRows (layoutChunks true pos cs) = 0%nat.
Proof.
  revert lo; induction cs as [|c cs IH]; intros lo Ho Hp; [reflexivity|].
  destruct Ho as (H1 & H2 & H3).
  destruct (layoutChunks_head pos c cs) as (l & -> & Hl).
  rewrite cursorRows_app, cursorRows_one, (IH (endIndex c) H3) by lia.
  assert (E : (pos >=? startIndex c) = false) by lia.
  rewrite E in Hl. destruct cs; rewrite Hl; reflexivity.
Qed.

Lemma layoutChunks_at_most_one (pos lo hi : Z) (cs : list TextChunk) :
  chunksOrdered lo cs hi ->
  (cursorRows (layoutChunks true pos cs) <= 1)%nat.
Proof.
  revert lo; induction cs as [|c cs IH]; intros lo Ho; [cbn; lia|].
  destruct Ho as (H1 & H2 & H3).
  destruct (layoutChunks_head pos c cs) as (l & -> & Hl).
  rewrite cursorRows_app, cursorRows_one.
  destruct (hasCursor l) eqn:Ec.
  - destruct cs as [|d cs]; [cbn; lia|].
    symmetry in Hl. apply andb_true_iff in Hl as [_ Hl].
    rewrite (layoutChunks_before pos (endIndex c) hi (d :: cs) H3) by lia. lia.
  - specialize (IH (endIndex c) H3). lia.
Qed.

Lemma layoutLine_other (e : Editor) (w : Z) (i : nat) :
  i <> cursorLine e -> cursorRows (layoutLine H e w i) = 0%nat.
Proof.
  intros Hi. unfold layoutLine. cbv zeta.
  apply Nat.eqb_neq in Hi. rewrite Hi.
  destruct (_ <=? _); [reflexivity | apply layoutChunks_other].
Qed.

Lemma layoutLine_current (e : Editor) (w : Z) :
  (cursorRows (layoutLine H e w (cursorLine e)) <= 1)%nat
  /\ (visibleWidth H (lineAt (lines e) (cursorLine e)) <= w ->
      cursorRows (layoutLine H e w (cursorLine e)) = 1%nat).
Proof.
  unfold layoutLine. cbv zeta. rewrite Nat.eqb_refl.
  destruct (_ <=? _) eqn:Ef.
  - split; [cbn; lia | reflexivity].
  - split; [|lia].
    apply (layoutChunks_at_most_one _ 0 (len (lineAt (lines e) (cursorLine e)))).
    apply wordWrapLine_ordered_chunks; assumption.
Qed.

Lemma layout_rows_outside (e : Editor) (w : Z) (a n : nat) :
  (cursorLine e < a \/ a + n <= cursorLine e)%nat ->
  cursorRows (flat_map (layoutLine H e w) (seq a n)) = 0%nat.
Proof.
  revert a; induction n as [|n IH]; intros a Ho; [reflexivity|].
  cbn [seq flat_map]. rewrite cursorRows_app, layoutLine_other, IH by lia.
  reflexivity.
Qed.

Lemma layout_rows_inside (e : Editor) (w : Z) (a n : nat) :
  (cursorRows (flat_map (layoutLine H e w) (seq a n)) <= 1)%nat
  /\ ((a <= cursorLine e < a + n)%nat ->
      visibleWidth H (lineAt (lines e) (cursorLine e)) <= w ->
      cursorRows (flat_map (layoutLine H e w) (seq a n)) = 1%nat).
Proof.
  revert a; induction n as [|n IH]; intros a; [split; [cbn; lia | lia]|].
  cbn [seq flat_map]. rewrite cursorRows_app.
  destruct (Nat.eq_dec a (cursorLine e)) as [->|Hne].
  - rewrite (layout_rows_outside e w (S (cursorLine e)) n) by lia.
    destruct (layoutLine_current e w) as [L1 L2].
    split; [lia|]. intros _ Hf. rewrite (L2 Hf). reflexivity.
  - rewrite (layoutLine_other e w a Hne).
    destruct (IH (S a)) as [I1 I2].
    split; [exact I1|]. intros Hr Hf. apply I2; [lia | exact Hf].
Qed.

(** X4: the layout never shows two cursors: at most one layout line carries
    the cursor, and exactly one does when the cursor is on a line of the
    buffer that needs no wrapping. *)
Theorem layoutText_one_cursor (e : Editor) (w : Z) :
  (cursorRows (layoutText H e w) <= 1)%nat
  /\ ((cursorLine e < length (lines e))%nat ->
      visibleWidth H (lineAt (lines e) (cursorLine e)) <= w ->
      cursorRows (layoutText H e w) = 1%nat).
Proof.
  unfold layoutText.
  destruct (_ || _); [split; [cbn; lia | reflexivity]|].
  destruct (layout_rows_inside e w 0 (length (lines e))) as [I1 I2].
  split; [exact I1|]. intros Hr Hf. apply I2; [lia | exact Hf].
Qed.

End LayoutCursor.

Lemma layoutText_one_cursor_witness :
  cursorRows (layoutText Ref.host (handleInput Ref.host Ref.editor (str "one two three")) 80)
  = 1%nat.
Proof.
  apply (proj2 (layoutText_one_cursor Ref.host ref_segment_concat ref_segment_nonempty
                  (handleInput Ref.host Ref.editor (str "one two three")) 80)).
  - vm_compute. lia.
  - vm_compute. discriminate.
Defined.

(* ===================================================================== *)
(** ** Further properties of rendering *)
(* ===================================================================== *)

Section RenderState.
Context (H : Host).







Lemma set_same (e : Editor) :
  e<|lastWidth := lastWidth e|><|scrollOffset := scrollOffset e|> = e.
Proof. destruct e; reflexivity. Qed.









End RenderState.

(* ===================================================================== *)
(** ** Further properties of the editing operations *)
(* ===================================================================== *)

Section ListPositions.

Lemma lineAt_middle (pre post : list jsstring) (x : jsstring) :
  lineAt (pre ++ x :: post) (length pre) = x.
Proof. unfold lineAt. rewrite nth_middle. reflexivity. Qed.

Lemma lineAt_after (pre post : list jsstring) (x y : jsstring) :
  lineAt (pre ++ x :: y :: post) (length pre + 1) = y.
Proof.
  replace (pre ++ x :: y :: post) with ((pre ++ [x]) ++ y :: post)
    by (rewrite <- app_assoc; reflexivity).
  replace (length pre + 1)%nat with (length (pre ++ [x]))
    by (rewrite length_app; reflexivity).
  apply lineAt_middle.
Qed.

Lemma setLineAt_middle (pre post : list jsstring) (x y : jsstring) :
  setLineAt (pre ++ x :: post) (length pre) y = pre ++ y :: post.
Proof.
  induction pre as [|p pre IH]; cbn [app length setLineAt]; [reflexivity|].
  f_equal. exact IH.
Qed.

Lemma setLineAt_after (pre post : list jsstring) (x y z : jsstring) :
  setLineAt (pre ++ x :: y :: post) (length pre + 1) z = pre ++ x :: z :: post.
Proof.
  replace (pre ++ x :: y :: post) with ((pre ++ [x]) ++ y :: post)
    by (rewrite <- app_assoc; reflexivity).
  replace (length pre + 1)%nat with (length (pre ++ [x]))
    by (rewrite length_app; reflexivity).
  rewrite setLineAt_middle, <- app_assoc. reflexivity.
Qed.

Lemma spliceIn_after (pre post : list jsstring) (x y : jsstring) :
  spliceIn (pre ++ x :: post) (length pre + 1) y = pre ++ x :: y :: post.
Proof.
  unfold spliceIn.
  replace (pre ++ x :: post) with ((pre ++ [x]) ++ post)
    by (rewrite <- app_assoc; reflexivity).
  replace (length pre + 1)%nat with (length (pre ++ [x]))
    by (rewrite length_app; reflexivity).
  rewrite firstn_app, Nat.sub_diag, firstn_all, skipn_app, Nat.sub_diag, skipn_all.
  cbn [firstn skipn app]. rewrite app_nil_r, <- app_assoc. reflexivity.
Qed.

Lemma spliceOut_middle (pre post : list jsstring) (x : jsstring) :
  spliceOut (pre ++ x :: post) (length pre) = pre ++ post.
Proof.
  unfold spliceOut.
  induction pre as [|p pre IH]; cbn [app length firstn skipn]; [reflexivity|].
  f_equal. exact IH.
Qed.

Lemma spliceOut_after (pre post : list jsstring) (x y : jsstring) :
  spliceOut (pre ++ x :: y :: post) (length pre + 1) = pre ++ x :: post.
Proof.
  replace (pre ++ x :: y :: post) with ((pre ++ [x]) ++ y :: post)
    by (rewrite <- app_assoc; reflexivity).
  replace (length pre + 1)%nat with (length (pre ++ [x]))
    by (rewrite length_app; reflexivity).
  rewrite spliceOut_middle, <- app_assoc. reflexivity.
Qed.

Lemma lines_split (ls : list jsstring) (i : nat) :
  (i < length ls)%nat ->
  exists pre post,
    ls = pre ++ lineAt ls i :: post /\ length pre = i.
Proof.
  intros Hi. exists (firstn i ls), (skipn (S i) ls).
  split; [|rewrite length_firstn; lia].
  rewrite <- (setLineAt_same ls i Hi) at 1.
  rewrite setLineAt_in_range by exact Hi. reflexivity.
Qed.

Lemma len_slice_prefix (s : jsstring) (n : Z) :
  0 <= n <= len s -> len (slice s 0 n) = n.
Proof.
  intros Hn. rewrite slice_prefix by exact Hn.
  unfold len in *. rewrite length_firstn. lia.
Qed.

Lemma len_sliceFrom_suffix (s : jsstring) (n : Z) :
  0 <= n <= len s -> len (sliceFrom s n) = len s - n.
Proof.
  intros Hn. rewrite sliceFrom_suffix by exact Hn.
  unfold len in *. rewrite length_skipn. lia.
Qed.

End ListPositions.

Section EditBounds.
Context (H : Host).

Lemma inBounds_make (e : Editor) (ls : list jsstring) (i : nat) (c : Z) :
  lines e = ls -> cursorLine e = i -> cursorCol e = c ->
  (i < length ls)%nat -> 0 <= c <= len (lineAt ls i) -> inBounds e.
Proof. intros <- <- <- Hi Hc. split; assumption. Qed.

Lemma inBounds_overlay (a b : Editor) :
  sameButOverlay a b -> inBounds b -> inBounds a.
Proof.
  intros E [Hi Hc]. destruct (overlay_fields a b E) as (El & Ei & Ec & _).
  unfold inBounds. rewrite El, Ei, Ec. split; assumption.
Qed.

Lemma inBounds_split (e : Editor) :
  inBounds e ->
  exists pre line post,
    lines e = pre ++ line :: post /\ length pre = cursorLine e
    /\ lineAt (lines e) (cursorLine e) = line
    /\ 0 <= cursorCol e <= len line.
Proof.
  intros [Hi Hc]. destruct (lines_split (lines e) (cursorLine e) Hi) as (pre & post & E & L).
  exists pre, (lineAt (lines e) (cursorLine e)), post. repeat split; try assumption; lia.
Qed.

(* Insertion *)







End EditBounds.

Section DeleteBounds.
Context (H : Host).
Hypothesis segment_concat : forall s, concat (segment H s) = s.

Lemma len_concat_rev (l : list jsstring) : len (concat (rev l)) = len (concat l).
Proof.
  induction l as [|x l IH]; [reflexivity|].
  cbn [rev concat]. rewrite concat_app, !len_app, IH. cbn [concat].
  rewrite app_nil_r. lia.
Qed.

Lemma last_grapheme_le (s g : jsstring) (r : list jsstring) :
  rev (segment H s) = g :: r -> len g <= len s.
Proof.
  intros E. rewrite <- (segment_concat s) at 1.
  rewrite <- len_concat_rev, E. cbn [concat]. rewrite len_app.
  pose proof (len_nonneg (concat r)). lia.
Qed.

Lemma first_grapheme_le (s g : jsstring) (r : list jsstring) :
  segment H s = g :: r -> len g <= len s.
Proof.
  intros E. rewrite <- (segment_concat s) at 1.
  rewrite E. cbn [concat]. rewrite len_app.
  pose proof (len_nonneg (concat r)). lia.
Qed.

Lemma popWhile_range (p : jsstring -> bool) (rs : list jsstring) (c : Z) :
  snd (popWhile p rs c) - len (concat (fst (popWhile p rs c))) = c - len (concat rs)
  /\ len (concat (fst (popWhile p rs c))) <= len (concat rs).
Proof.
  revert c; induction rs as [|g rs IH]; intros c; cbn [popWhile].
  - cbn. lia.
  - destruct (p g).
    + destruct (IH (c - len g)) as [A B]. cbn [concat]. rewrite len_app.
      pose proof (len_nonneg g). lia.
    + cbn [fst snd]. lia.
Qed.

Lemma skipWhile_range (p : jsstring -> bool) (gs : list jsstring) (c : Z) :
  snd (skipWhile p gs c) + len (concat (fst (skipWhile p gs c))) = c + len (concat gs)
  /\ len (concat (fst (skipWhile p gs c))) <= len (concat gs).
Proof.
  revert c; induction gs as [|g gs IH]; intros c; cbn [skipWhile].
  - cbn. lia.
  - destruct (p g).
    + destruct (IH (c + len g)) as [A B]. cbn [concat]. rewrite len_app.
      pose proof (len_nonneg g). lia.
    + cbn [fst snd]. lia.
Qed.

(** Where the word motions put the column when they stay on the line. *)
Lemma wordBack_col (s : jsstring) :
  let graphemes := rev (segment H s) in
  let r1 := popWhile (isWhitespaceChar H) graphemes (len s) in
  let newCol2 :=
    match fst r1 with
    | lastGrapheme :: _ =>
        if isPunctuationChar H lastGrapheme
        then snd (popWhile (isPunctuationChar H) (fst r1) (snd r1))
        else snd (popWhile (isWordGrapheme H) (fst r1) (snd r1))
    | [] => snd r1
    end in
  0 <= newCol2 <= len s.
Proof.
  cbv zeta.
  pose proof (popWhile_range (isWhitespaceChar H) (rev (segment H s)) (len s)) as [A B].
  rewrite len_concat_rev, segment_concat in A, B.
  set (r1 := popWhile (isWhitespaceChar H) (rev (segment H s)) (len s)) in *.
  pose proof (len_nonneg (concat (fst r1))) as N1.
  destruct (fst r1) as [|g rest] eqn:E1.
  - cbn [concat] in *. change (len (@nil Z)) with 0 in *. lia.
  - rewrite <- E1 in *.
    pose proof (popWhile_range (isPunctuationChar H) (fst r1) (snd r1)) as [C D].
    pose proof (popWhile_range (isWordGrapheme H) (fst r1) (snd r1)) as [C' D'].
    pose proof (len_nonneg (concat (fst (popWhile (isPunctuationChar H) (fst r1) (snd r1))))).
    pose proof (len_nonneg (concat (fst (popWhile (isWordGrapheme H) (fst r1) (snd r1))))).
    destruct (isPunctuationChar H g); lia.
Qed.

Lemma wordForward_col (s : jsstring) (c : Z) :
  let r1 := skipWhile (isWhitespaceChar H) (segment H s) c in
  let col2 :=
    match fst r1 with
    | firstGrapheme :: _ =>
        if isPunctuationChar H firstGrapheme
        then snd (skipWhile (isPunctuationChar H) (fst r1) (snd r1))
        else snd (skipWhile (isWordGrapheme H) (fst r1) (snd r1))
    | [] => snd r1
    end in
  c <= col2 <= c + len s.
Proof.
  cbv zeta.
  pose proof (skipWhile_range (isWhitespaceChar H) (segment H s) c) as [A B].
  rewrite segment_concat in A, B.
  set (r1 := skipWhile (isWhitespaceChar H) (segment H s) c) in *.
  pose proof (len_nonneg (concat (fst r1))) as N1.
  destruct (fst r1) as [|g rest] eqn:E1.
  - cbn [concat] in *. change (len (@nil Z)) with 0 in *. lia.
  - rewrite <- E1 in *.
    pose proof (skipWhile_range (isPunctuationChar H) (fst r1) (snd r1)) as [C D].
    pose proof (skipWhile_range (isWordGrapheme H) (fst r1) (snd r1)) as [C' D'].
    pose proof (len_nonneg (concat (fst (skipWhile (isPunctuationChar H) (fst r1) (snd r1))))).
    pose proof (len_nonneg (concat (fst (skipWhile (isWordGrapheme H) (fst r1) (snd r1))))).
    destruct (isPunctuationChar H g); lia.
Qed.

(* Merging lines *)

Lemma mergeWithPrevious_effect (e : Editor) (pre post : list jsstring)
    (prev line : jsstring) :
  lines e = pre ++ prev :: line :: post -> cursorLine e = (length pre + 1)%nat ->
  lines (mergeWithPrevious e) = pre ++ (prev ++ line) :: post
  /\ cursorLine (mergeWithPrevious e) = length pre
  /\ cursorCol (mergeWithPrevious e) = len prev.
Proof.
  intros El Ec.
  assert (E1 : lineAt (lines e) (cursorLine e) = line)
    by (rewrite El, Ec; apply lineAt_after).
  assert (E2 : lineAt (lines e) (cursorLine e - 1) = prev).
  { rewrite El, Ec. replace (length pre + 1 - 1)%nat with (length pre) by lia.
    apply lineAt_middle. }
  split; [|split].
  - change (lines (mergeWithPrevious e))
      with (spliceOut (setLineAt (lines e) (cursorLine e - 1)
                         (lineAt (lines e) (cursorLine e - 1)
                          ++ lineAt (lines e) (cursorLine e)))
              (cursorLine e)).
    rewrite E1, E2, El, Ec.
    replace (length pre + 1 - 1)%nat with (length pre) by lia.
    rewrite setLineAt_middle, spliceOut_after. reflexivity.
  - change (cursorLine (mergeWithPrevious e)) with (cursorLine e - 1)%nat. lia.
  - change (cursorCol (mergeWithPrevious e)) with (len (lineAt (lines e) (cursorLine e - 1))).
    rewrite E2. reflexivity.
Qed.

Lemma mergeWithNext_effect (e : Editor) (pre post : list jsstring)
    (line next : jsstring) :
  lines e = pre ++ line :: next :: post -> cursorLine e = length pre ->
  lines (mergeWithNext e) = pre ++ (line ++ next) :: post
  /\ cursorLine (mergeWithNext e) = cursorLine e
  /\ cursorCol (mergeWithNext e) = cursorCol e.
Proof.
  intros El Ec.
  assert (E1 : lineAt (lines e) (cursorLine e) = line)
    by (rewrite El, Ec; apply lineAt_middle).
  assert (E2 : lineAt (lines e) (cursorLine e + 1) = next)
    by (rewrite El, Ec; apply lineAt_after).
  split; [|split; reflexivity].
  change (lines (mergeWithNext e))
    with (spliceOut (setLineAt (lines e) (cursorLine e)
                       (lineAt (lines e) (cursorLine e)
                        ++ lineAt (lines e) (cursorLine e + 1)))
            (cursorLine e + 1)).
  rewrite E1, E2, El, Ec, setLineAt_middle, spliceOut_after. reflexivity.
Qed.

Lemma inBounds_previous (e : Editor) :
  inBounds e -> (0 < cursorLine e)%nat ->
  exists pre prev line post,
    lines e = pre ++ prev :: line :: post /\ cursorLine e = (length pre + 1)%nat
    /\ 0 <= cursorCol e <= len line.
Proof.
  intros Hb Hp. destruct (inBounds_split e Hb) as (pre & line & post & El & Ep & _ & Hc).
  destruct (exists_last (l := pre)) as (pre' & prev & E).
  { intros ->. cbn in Ep. lia. }
  exists pre', prev, line, post. subst pre.
  rewrite <- app_assoc in El. rewrite length_app in Ep. cbn [length] in Ep.
  split; [exact El|]. split; [lia | exact Hc].
Qed.

Lemma inBounds_next (e : Editor) :
  inBounds e -> (cursorLine e < length (lines e) - 1)%nat ->
  exists pre line next post,
    lines e = pre ++ line :: next :: post /\ cursorLine e = length pre
    /\ 0 <= cursorCol e <= len line.
Proof.
  intros Hb Hp. destruct (inBounds_split e Hb) as (pre & line & post & El & Ep & _ & Hc).
  destruct post as [|next post].
  { rewrite El, length_app in Hp. cbn [length] in Hp. lia. }
  exists pre, line, next, post. split; [exact El|]. split; [lia | exact Hc].
Qed.

Lemma mergeWithPrevious_bounds (e : Editor) :
  inBounds e -> (0 < cursorLine e)%nat -> inBounds (mergeWithPrevious e).
Proof.
  intros Hb Hp.
  destruct (inBounds_previous e Hb Hp) as (pre & prev & line & post & El & Ec & Hc).
  destruct (mergeWithPrevious_effect e pre post prev line El Ec) as (A & B & C).
  unfold inBounds. rewrite A, B, C, lineAt_middle, len_app, length_app. cbn [length].
  pose proof (len_nonneg prev). pose proof (len_nonneg line). lia.
Qed.

Lemma mergeWithNext_bounds (e : Editor) :
  inBounds e -> (cursorLine e < length (lines e) - 1)%nat -> inBounds (mergeWithNext e).
Proof.
  intros Hb Hp.
  destruct (inBounds_next e Hb Hp) as (pre & line & next & post & El & Ec & Hc).
  destruct (mergeWithNext_effect e pre post line next El Ec) as (A & B & C).
  unfold inBounds. rewrite A, B, C, Ec, lineAt_middle, len_app, length_app. cbn [length].
  pose proof (len_nonneg next). lia.
Qed.

Lemma history_reset_bounds (e : Editor) :
  inBounds e -> inBounds (e<|historyIndex := -1|>).
Proof. intros Hb. exact Hb. Qed.

(* Deletion *)

Lemma handleBackspace_bounds (e : Editor) :
  inBounds e -> inBounds (handleBackspace H e).
Proof.
  intros Hb. unfold handleBackspace. cbv zeta.
  eapply inBounds_overlay; [apply retriggerAutocomplete_overlay|].
  set (e1 := e<|historyIndex := -1|>).
  change (cursorCol e1) with (cursorCol e).
  change (cursorLine e1) with (cursorLine e).
  change (lines e1) with (lines e).
  destruct (Z.gtb_spec (cursorCol e) 0) as [Hpos|Hzero].
  - destruct Hb as [Hi Hc].
    set (line := lineAt (lines e) (cursorLine e)) in *.
    set (gl := match rev (segment H (slice line 0 (cursorCol e))) with
               | lastGrapheme :: _ => len lastGrapheme
               | [] => 1
               end).
    assert (Hgl : 0 <= gl <= cursorCol e).
    { subst gl. destruct (rev (segment H (slice line 0 (cursorCol e)))) as [|g r] eqn:Er.
      - lia.
      - pose proof (last_grapheme_le _ g r Er) as Hle.
        rewrite len_slice_prefix in Hle by lia.
        pose proof (len_nonneg g). lia. }
    apply (inBounds_make _
             (setLineAt (lines e) (cursorLine e)
                (slice line 0 (cursorCol e - gl) ++ sliceFrom line (cursorCol e)))
             (cursorLine e) (cursorCol e - gl));
      [reflexivity | reflexivity | reflexivity | rewrite length_setLineAt; exact Hi |].
    rewrite lineAt_setLineAt, len_app, len_slice_prefix by lia.
    pose proof (len_nonneg (sliceFrom line (cursorCol e))). lia.
  - destruct (0 <? cursorLine e)%nat eqn:Hl.
    + apply Nat.ltb_lt in Hl.
      exact (mergeWithPrevious_bounds e1 Hb Hl).
    + exact Hb.
Qed.

Lemma handleForwardDelete_bounds (e : Editor) :
  inBounds e -> inBounds (handleForwardDelete H e).
Proof.
  intros Hb. unfold handleForwardDelete. cbv zeta.
  eapply inBounds_overlay; [apply retriggerAutocomplete_overlay|].
  set (e1 := e<|historyIndex := -1|>).
  change (cursorCol e1) with (cursorCol e).
  change (cursorLine e1) with (cursorLine e).
  change (lines e1) with (lines e).
  destruct (Z.ltb_spec (cursorCol e) (len (lineAt (lines e) (cursorLine e)))) as [Hin|Hend].
  - destruct Hb as [Hi Hc].
    set (line := lineAt (lines e) (cursorLine e)) in *.
    set (gl := match segment H (sliceFrom line (cursorCol e)) with
               | firstGrapheme :: _ => len firstGrapheme
               | [] => 1
               end).
    apply (inBounds_make _
             (setLineAt (lines e) (cursorLine e)
                (slice line 0 (cursorCol e) ++ sliceFrom line (cursorCol e + gl)))
             (cursorLine e) (cursorCol e));
      [reflexivity | reflexivity | reflexivity | rewrite length_setLineAt; exact Hi |].
    rewrite lineAt_setLineAt, len_app, len_slice_prefix by lia.
    pose proof (len_nonneg (sliceFrom line (cursorCol e + gl))). lia.
  - destruct (cursorLine e <? length (lines e) - 1)%nat eqn:Hl.
    + apply Nat.ltb_lt in Hl.
      exact (mergeWithNext_bounds e1 Hb Hl).
    + exact Hb.
Qed.

Lemma deleteToStartOfLine_bounds (e : Editor) :
  inBounds e -> inBounds (deleteToStartOfLine e).
Proof.
  intros Hb. unfold deleteToStartOfLine. cbv zeta.
  set (e1 := e<|historyIndex := -1|>).
  change (cursorCol e1) with (cursorCol e).
  change (cursorLine e1) with (cursorLine e).
  change (lines e1) with (lines e).
  destruct (Z.gtb_spec (cursorCol e) 0) as [Hpos|Hzero].
  - destruct Hb as [Hi Hc].
    set (line := lineAt (lines e) (cursorLine e)) in *.
    apply (inBounds_make _
             (setLineAt (lines e) (cursorLine e) (sliceFrom line (cursorCol e)))
             (cursorLine e) 0);
      [reflexivity | reflexivity | reflexivity | rewrite length_setLineAt; exact Hi |].
    rewrite lineAt_setLineAt.
    pose proof (len_nonneg (sliceFrom line (cursorCol e))). lia.
  - destruct (0 <? cursorLine e)%nat eqn:Hl.
    + apply Nat.ltb_lt in Hl.
      exact (mergeWithPrevious_bounds e1 Hb Hl).
    + exact Hb.
Qed.

Lemma deleteToEndOfLine_bounds (e : Editor) :
  inBounds e -> inBounds (deleteToEndOfLine e).
Proof.
  intros Hb. unfold deleteToEndOfLine. cbv zeta.
  set (e1 := e<|historyIndex := -1|>).
  change (cursorCol e1) with (cursorCol e).
  change (cursorLine e1) with (cursorLine e).
  change (lines e1) with (lines e).
  destruct (Z.ltb_spec (cursorCol e) (len (lineAt (lines e) (cursorLine e)))) as [Hin|Hend].
  - destruct Hb as [Hi Hc].
    set (line := lineAt (lines e) (cursorLine e)) in *.
    apply (inBounds_make _
             (setLineAt (lines e) (cursorLine e) (slice line 0 (cursorCol e)))
             (cursorLine e) (cursorCol e));
      [reflexivity | reflexivity | reflexivity | rewrite length_setLineAt; exact Hi |].
    rewrite lineAt_setLineAt, len_slice_prefix by lia. lia.
  - destruct (cursorLine e <? length (lines e) - 1)%nat eqn:Hl.
    + apply Nat.ltb_lt in Hl.
      exact (mergeWithNext_bounds e1 Hb Hl).
    + exact Hb.
Qed.

(* Word motion *)

Lemma moveWordBackwards_inline (e : Editor) :
  inBounds e -> (cursorCol e =? 0) = false ->
  exists nc,
    moveWordBackwards H e = e<|cursorCol := nc|> /\ 0 <= nc <= cursorCol e.
Proof.
  intros [Hi Hc] Hz. unfold moveWordBackwards. cbv zeta. rewrite Hz.
  set (line := lineAt (lines e) (cursorLine e)) in *.
  pose proof (wordBack_col (slice line 0 (cursorCol e))) as Hw. cbv zeta in Hw.
  rewrite len_slice_prefix in Hw by exact Hc.
  destruct (popWhile (isWhitespaceChar H) (rev (segment H (slice line 0 (cursorCol e))))
              (cursorCol e)) as [g1 c1].
  cbn [fst snd] in Hw.
  eexists. split; [reflexivity | exact Hw].
Qed.

Lemma moveWordBackwards_bounds (e : Editor) :
  inBounds e -> inBounds (moveWordBackwards H e).
Proof.
  intros Hb. destruct (cursorCol e =? 0) eqn:Hz.
  - unfold moveWordBackwards. cbv zeta. rewrite Hz.
    destruct (0 <? cursorLine e)%nat eqn:Hl; [|exact Hb].
    apply Nat.ltb_lt in Hl. destruct Hb as [Hi Hc].
    apply (inBounds_make _ (lines e) (cursorLine e - 1)
             (len (lineAt (lines e) (cursorLine e - 1))));
      [reflexivity | reflexivity | reflexivity | lia |].
    pose proof (len_nonneg (lineAt (lines e) (cursorLine e - 1))). lia.
  - destruct (moveWordBackwards_inline e Hb Hz) as (nc & -> & Hn).
    destruct Hb as [Hi Hc].
    apply (inBounds_make _ (lines e) (cursorLine e) nc);
      [reflexivity | reflexivity | reflexivity | exact Hi | lia].
Qed.

Lemma moveWordForwards_bounds (e : Editor) :
  inBounds e -> inBounds (moveWordForwards H e).
Proof.
  intros Hb. unfold moveWordForwards. cbv zeta.
  rewrite Z.geb_leb.
  destruct (Z.leb_spec (len (lineAt (lines e) (cursorLine e))) (cursorCol e)) as [Hend|Hin].
  - destruct (cursorLine e <? length (lines e) - 1)%nat eqn:Hl; [|exact Hb].
    apply Nat.ltb_lt in Hl.
    apply (inBounds_make _ (lines e) (cursorLine e + 1) 0);
      [reflexivity | reflexivity | reflexivity | lia |].
    pose proof (len_nonneg (lineAt (lines e) (cursorLine e + 1))). lia.
  - destruct Hb as [Hi Hc].
    set (line := lineAt (lines e) (cursorLine e)) in *.
    pose proof (wordForward_col (sliceFrom line (cursorCol e)) (cursorCol e)) as Hw.
    cbv zeta in Hw. rewrite len_sliceFrom_suffix in Hw by lia.
    destruct (skipWhile (isWhitespaceChar H) (segment H (sliceFrom line (cursorCol e)))
                (cursorCol e)) as [r1 c1].
    cbn [fst snd] in Hw.
    match type of Hw with _ <= ?X <= _ => set (nc := X) in * end.
    apply (inBounds_make _ (lines e) (cursorLine e) nc);
      [reflexivity | reflexivity | reflexivity | exact Hi |].
    fold line. clearbody nc line. lia.
Qed.

Lemma deleteWordBackwards_bounds (e : Editor) :
  inBounds e -> inBounds (deleteWordBackwards H e).
Proof.
  intros Hb. unfold deleteWordBackwards. cbv zeta.
  set (e1 := e<|historyIndex := -1|>).
  change (cursorCol e1) with (cursorCol e).
  change (cursorLine e1) with (cursorLine e).
  destruct (cursorCol e =? 0) eqn:Hz.
  - destruct (0 <? cursorLine e)%nat eqn:Hl; [|exact Hb].
    apply Nat.ltb_lt in Hl. exact (mergeWithPrevious_bounds e1 Hb Hl).
  - destruct (moveWordBackwards_inline e1 Hb Hz) as (nc & -> & Hn).
    change (cursorCol e1) with (cursorCol e) in Hn.
    destruct Hb as [Hi Hc].
    set (line := lineAt (lines e) (cursorLine e)) in *.
    apply (inBounds_make _
             (setLineAt (lines e) (cursorLine e)
                (slice line 0 nc ++ sliceFrom line (cursorCol e)))
             (cursorLine e) nc);
      [reflexivity | reflexivity | reflexivity | rewrite length_setLineAt; exact Hi |].
    rewrite lineAt_setLineAt, len_app, len_slice_prefix by lia.
    pose proof (len_nonneg (sliceFrom line (cursorCol e))). lia.
Qed.

(* Motion by one grapheme *)

Lemma moveCursor_right_bounds (e : Editor) :
  inBounds e -> inBounds (moveCursor H e 0 1).
Proof.
  intros Hb. unfold moveCursor. cbv zeta.
  change (negb (0 =? 0)) with false. change (negb (1 =? 0)) with true.
  change (1 >? 0) with true. cbv iota.
  destruct (Z.ltb_spec (cursorCol e) (len (lineAt (lines e) (cursorLine e)))) as [Hin|Hend].
  - destruct Hb as [Hi Hc].
    set (line := lineAt (lines e) (cursorLine e)) in *.
    set (step := match segment H (sliceFrom line (cursorCol e)) with
                 | firstGrapheme :: _ => len firstGrapheme
                 | [] => 1
                 end).
    assert (Hs : 0 <= step <= len line - cursorCol e).
    { subst step. destruct (segment H (sliceFrom line (cursorCol e))) as [|g r] eqn:Es.
      - lia.
      - pose proof (first_grapheme_le _ g r Es) as Hle.
        rewrite len_sliceFrom_suffix in Hle by lia.
        pose proof (len_nonneg g). lia. }
    apply (inBounds_make _ (lines e) (cursorLine e) (cursorCol e + step));
      [reflexivity | reflexivity | reflexivity | exact Hi | fold line; lia].
  - destruct (cursorLine e <? length (lines e) - 1)%nat eqn:Hl; [|exact Hb].
    apply Nat.ltb_lt in Hl.
    apply (inBounds_make _ (lines e) (cursorLine e + 1) 0);
      [reflexivity | reflexivity | reflexivity | lia |].
    pose proof (len_nonneg (lineAt (lines e) (cursorLine e + 1))). lia.
Qed.

Lemma moveCursor_left_bounds (e : Editor) :
  inBounds e -> inBounds (moveCursor H e 0 (-1)).
Proof.
  intros Hb. unfold moveCursor. cbv zeta.
  change (negb (0 =? 0)) with false. change (negb (-1 =? 0)) with true.
  change (-1 >? 0) with false. cbv iota.
  destruct (Z.gtb_spec (cursorCol e) 0) as [Hpos|Hzero].
  - destruct Hb as [Hi Hc].
    set (line := lineAt (lines e) (cursorLine e)) in *.
    set (step := match rev (segment H (slice line 0 (cursorCol e))) with
                 | lastGrapheme :: _ => len lastGrapheme
                 | [] => 1
                 end).
    assert (Hs : 0 <= step <= cursorCol e).
    { subst step. destruct (rev (segment H (slice line 0 (cursorCol e)))) as [|g r] eqn:Er.
      - lia.
      - pose proof (last_grapheme_le _ g r Er) as Hle.
        rewrite len_slice_prefix in Hle by lia.
        pose proof (len_nonneg g). lia. }
    apply (inBounds_make _ (lines e) (cursorLine e) (cursorCol e - step));
      [reflexivity | reflexivity | reflexivity | exact Hi | fold line; lia].
  - destruct (0 <? cursorLine e)%nat eqn:Hl; [|exact Hb].
    apply Nat.ltb_lt in Hl. destruct Hb as [Hi Hc].
    apply (inBounds_make _ (lines e) (cursorLine e - 1)
             (len (lineAt (lines e) (cursorLine e - 1))));
      [reflexivity | reflexivity | reflexivity | lia |].
    pose proof (len_nonneg (lineAt (lines e) (cursorLine e - 1))). lia.
Qed.

End DeleteBounds.

Section EditRoundTrips.
Context (H : Host).

Ltac past_retrigger :=
  match goal with
  | |- context [retriggerAutocomplete ?x] =>
      let El := fresh "El" in
      let Ei := fresh "Ei" in
      let Ec := fresh "Ec" in
      destruct (overlay_fields _ _ (retriggerAutocomplete_overlay x))
        as (El & Ei & Ec & _);
      rewrite El, Ei, Ec; clear El Ei Ec
  end.

Lemma handleBackspace_in_line (e : Editor) :
  0 < cursorCol e ->
  let line := lineAt (lines e) (cursorLine e) in
  let gl := match rev (segment H (slice line 0 (cursorCol e))) with
            | lastGrapheme :: _ => len lastGrapheme
            | [] => 1
            end in
  lines (handleBackspace H e)
    = setLineAt (lines e) (cursorLine e)
        (slice line 0 (cursorCol e - gl) ++ sliceFrom line (cursorCol e))
  /\ cursorLine (handleBackspace H e) = cursorLine e
  /\ cursorCol (handleBackspace H e) = cursorCol e - gl.
Proof.
  intros Hpos line gl. unfold handleBackspace. cbv zeta. past_retrigger.
  set (e1 := e<|historyIndex := -1|>).
  change (cursorCol e1) with (cursorCol e).
  assert (E : (cursorCol e >? 0) = true) by lia.
  rewrite E. repeat split.
Qed.

Lemma handleBackspace_line_start (e : Editor) :
  cursorCol e <= 0 -> (0 < cursorLine e)%nat ->
  lines (handleBackspace H e) = lines (mergeWithPrevious e)
  /\ cursorLine (handleBackspace H e) = cursorLine (mergeWithPrevious e)
  /\ cursorCol (handleBackspace H e) = cursorCol (mergeWithPrevious e).
Proof.
  intros Hz Hl. unfold handleBackspace. cbv zeta. past_retrigger.
  set (e1 := e<|historyIndex := -1|>).
  change (cursorCol e1) with (cursorCol e).
  change (cursorLine e1) with (cursorLine e).
  assert (E : (cursorCol e >? 0) = false) by lia.
  apply Nat.ltb_lt in Hl.
  rewrite E, Hl. repeat split.
Qed.

(** X8: backspace undoes Enter: splitting a line at the cursor and deleting
    backwards gives back the lines and the cursor position. *)
Theorem newline_backspace_roundtrip (e : Editor) :
  inBounds e ->
  lines (handleBackspace H (addNewLine e)) = lines e
  /\ cursorLine (handleBackspace H (addNewLine e)) = cursorLine e
  /\ cursorCol (handleBackspace H (addNewLine e)) = cursorCol e.
Proof.
  intros Hb. destruct (inBounds_split e Hb) as (pre & line & post & El & Ep & Ea & Hc).
  set (a := addNewLine e).
  assert (La : lines a
               = pre ++ slice line 0 (cursorCol e) :: sliceFrom line (cursorCol e) :: post).
  { change (lines a)
      with (spliceIn (setLineAt (lines e) (cursorLine e)
                        (slice (lineAt (lines e) (cursorLine e)) 0 (cursorCol e)))
              (cursorLine e + 1)
              (sliceFrom (lineAt (lines e) (cursorLine e)) (cursorCol e))).
    rewrite Ea, El, <- Ep, setLineAt_middle, spliceIn_after. reflexivity. }
  assert (Ca : cursorLine a = (length pre + 1)%nat) by (rewrite Ep; reflexivity).
  destruct (handleBackspace_line_start a) as (A & B & C);
    [change (cursorCol a) with 0; lia | rewrite Ca; lia |].
  destruct (mergeWithPrevious_effect a pre post _ _ La Ca) as (A' & B' & C').
  rewrite A, B, C, A', B', C', slice_sliceFrom, len_slice_prefix by exact Hc.
  repeat split; [symmetry; exact El | exact Ep].
Qed.

(** X9: backspace undoes typing: after a grapheme has been inserted at the
    cursor, deleting backwards gives back the lines and the cursor
    position. *)
Theorem insert_backspace_roundtrip (e : Editor) (c : jsstring) :
  inBounds e -> c <> [] ->
  hd_error (rev (segment H (slice (lineAt (lines e) (cursorLine e)) 0 (cursorCol e) ++ c)))
    = Some c ->
  lines (handleBackspace H (insertCharacter e c)) = lines e
  /\ cursorLine (handleBackspace H (insertCharacter e c)) = cursorLine e
  /\ cursorCol (handleBackspace H (insertCharacter e c)) = cursorCol e.
Proof.
  intros [Hi Hc] Hne Hseg.
  set (line := lineAt (lines e) (cursorLine e)) in *.
  set (before := slice line 0 (cursorCol e)) in *.
  set (after := sliceFrom line (cursorCol e)).
  set (a := insertCharacter e c).
  destruct (overlay_fields _ _ (insertCharacter_overlay e c)) as (El & Ei & Ec & _).
  fold a in El, Ei, Ec.
  assert (La : lines a = setLineAt (lines e) (cursorLine e) ((before ++ c) ++ after))
    by (rewrite El, <- app_assoc; reflexivity).
  assert (Ia : cursorLine a = cursorLine e) by (rewrite Ei; reflexivity).
  assert (Ca : cursorCol a = len (before ++ c)).
  { rewrite Ec. change (cursorCol (insertCharacterText e c)) with (cursorCol e + len c).
    subst before. rewrite len_app, len_slice_prefix by exact Hc. reflexivity. }
  assert (Lb : len before = cursorCol e) by (subst before; apply len_slice_prefix, Hc).
  assert (Hpos : 0 < cursorCol a).
  { rewrite Ca, len_app. pose proof (len_nonneg before).
    assert (0 < len c) by (destruct c; [congruence | unfold len; cbn [length]; lia]). lia. }
  destruct (handleBackspace_in_line a Hpos) as (A & B & C). cbv zeta in A, B, C.
  rewrite Ia, La, lineAt_setLineAt, Ca in A, C.
  rewrite slice_app_left in A, C.
  rewrite sliceFrom_app_left in A.
  destruct (rev (segment H (before ++ c))) as [|g r]; [discriminate|].
  cbn [hd_error] in Hseg. injection Hseg as ->.
  rewrite len_app in A, C.
  replace (len before + len c - len c) with (len before) in A, C by lia.
  replace ((before ++ c) ++ after) with (before ++ (c ++ after)) in A
    by (rewrite app_assoc; reflexivity).
  rewrite slice_app_left, setLineAt_twice in A.
  split; [|split; [rewrite B; exact Ia | rewrite C; exact Lb]].
  rewrite A. subst before after. rewrite slice_sliceFrom. apply setLineAt_same, Hi.
Qed.

(** X10: at the very start of the buffer the backward deletions have nothing to
    delete: they leave the lines and the cursor as they are, and still
    report a change, once, with the unchanged text. *)
Theorem delete_at_buffer_start (e : Editor) :
  cursorLine e = 0%nat -> cursorCol e = 0 ->
  (lines (handleBackspace H e) = lines e
   /\ cursorLine (handleBackspace H e) = 0%nat /\ cursorCol (handleBackspace H e) = 0
   /\ onChange (handleBackspace H e)
      = option_map (fun log => log ++ [getText e]) (onChange e))
  /\ (lines (deleteToStartOfLine e) = lines e
      /\ cursorLine (deleteToStartOfLine e) = 0%nat /\ cursorCol (deleteToStartOfLine e) = 0
      /\ onChange (deleteToStartOfLine e)
         = option_map (fun log => log ++ [getText e]) (onChange e))
  /\ (lines (deleteWordBackwards H e) = lines e
      /\ cursorLine (deleteWordBackwards H e) = 0%nat
      /\ cursorCol (deleteWordBackwards H e) = 0
      /\ onChange (deleteWordBackwards H e)
         = option_map (fun log => log ++ [getText e]) (onChange e)).
Proof.
  intros Hl Hc.
  assert (B : lines (handleBackspace H e) = lines e
              /\ cursorLine (handleBackspace H e) = 0%nat
              /\ cursorCol (handleBackspace H e) = 0).
  { unfold handleBackspace. cbv zeta. past_retrigger.
    set (e1 := e<|historyIndex := -1|>).
    change (cursorCol e1) with (cursorCol e). change (cursorLine e1) with (cursorLine e).
    rewrite Hl, Hc. cbn [Z.gtb Z.compare Nat.ltb Nat.leb].
    repeat split; assumption. }
  assert (S : lines (deleteToStartOfLine e) = lines e
              /\ cursorLine (deleteToStartOfLine e) = 0%nat
              /\ cursorCol (deleteToStartOfLine e) = 0).
  { unfold deleteToStartOfLine. cbv zeta.
    set (e1 := e<|historyIndex := -1|>).
    change (cursorCol e1) with (cursorCol e). change (cursorLine e1) with (cursorLine e).
    rewrite Hl, Hc. cbn [Z.gtb Z.compare Nat.ltb Nat.leb].
    repeat split; assumption. }
  assert (W : lines (deleteWordBackwards H e) = lines e
              /\ cursorLine (deleteWordBackwards H e) = 0%nat
              /\ cursorCol (deleteWordBackwards H e) = 0).
  { unfold deleteWordBackwards. cbv zeta.
    set (e1 := e<|historyIndex := -1|>).
    change (cursorCol e1) with (cursorCol e). change (cursorLine e1) with (cursorLine e).
    rewrite Hl, Hc. cbn [Z.eqb Nat.ltb Nat.leb].
    repeat split; assumption. }
  pose proof (handleBackspace_once H e) as OB.
  pose proof (deleteToStartOfLine_once e) as OS.
  pose proof (deleteWordBackwards_once H e) as OW.
  unfold notifiesOnce, getText in *.
  destruct B as (B1 & B2 & B3), S as (S1 & S2 & S3), W as (W1 & W2 & W3).
  rewrite B1 in OB. rewrite S1 in OS. rewrite W1 in OW.
  repeat split; assumption.
Qed.

(** X11: at the very end of the buffer the forward deletions have nothing to
    delete: they leave the lines and the cursor as they are, and still
    report a change, once, with the unchanged text. *)
Theorem delete_at_buffer_end (e : Editor) :
  (length (lines e) - 1 <= cursorLine e)%nat ->
  len (lineAt (lines e) (cursorLine e)) <= cursorCol e ->
  (lines (handleForwardDelete H e) = lines e
   /\ cursorLine (handleForwardDelete H e) = cursorLine e
   /\ cursorCol (handleForwardDelete H e) = cursorCol e
   /\ onChange (handleForwardDelete H e)
      = option_map (fun log => log ++ [getText e]) (onChange e))
  /\ (lines (deleteToEndOfLine e) = lines e
      /\ cursorLine (deleteToEndOfLine e) = cursorLine e
      /\ cursorCol (deleteToEndOfLine e) = cursorCol e
      /\ onChange (deleteToEndOfLine e)
         = option_map (fun log => log ++ [getText e]) (onChange e)).
Proof.
  intros Hl Hc.
  assert (E1 : (cursorCol e <? len (lineAt (lines e) (cursorLine e))) = false) by lia.
  assert (E2 : (cursorLine e <? length (lines e) - 1)%nat = false)
    by (apply Nat.ltb_ge; exact Hl).
  assert (F : lines (handleForwardDelete H e) = lines e
              /\ cursorLine (handleForwardDelete H e) = cursorLine e
              /\ cursorCol (handleForwardDelete H e) = cursorCol e).
  { unfold handleForwardDelete. cbv zeta. past_retrigger.
    set (e1 := e<|historyIndex := -1|>).
    change (cursorCol e1) with (cursorCol e). change (cursorLine e1) with (cursorLine e).
    change (lines e1) with (lines e).
    rewrite E1, E2. repeat split. }
  assert (D : lines (deleteToEndOfLine e) = lines e
              /\ cursorLine (deleteToEndOfLine e) = cursorLine e
              /\ cursorCol (deleteToEndOfLine e) = cursorCol e).
  { unfold deleteToEndOfLine. cbv zeta.
    set (e1 := e<|historyIndex := -1|>).
    change (cursorCol e1) with (cursorCol e). change (cursorLine e1) with (cursorLine e).
    change (lines e1) with (lines e).
    rewrite E1, E2. repeat split. }
  pose proof (handleForwardDelete_once H e) as OF.
  pose proof (deleteToEndOfLine_once e) as OD.
  unfold notifiesOnce, getText in *.
  destruct F as (F1 & F2 & F3), D as (D1 & D2 & D3).
  rewrite F1 in OF. rewrite D1 in OD.
  repeat split; assumption.
Qed.


End EditRoundTrips.

Section EditBoundsTheorems.
Context (H : Host).
Hypothesis segment_concat : forall s, concat (segment H s) = s.

(** X13: deletion keeps the cursor inside the buffer, provided the segmenter
    splits a string into pieces that make it up: after each of the five
    deletions the cursor is on a line of the buffer and between the ends
    of that line. *)
Theorem deletion_keeps_bounds (e : Editor) :
  inBounds e ->
  inBounds (handleBackspace H e)
  /\ inBounds (handleForwardDelete H e)
  /\ inBounds (deleteToStartOfLine e)
  /\ inBounds (deleteToEndOfLine e)
  /\ inBounds (deleteWordBackwards H e).
Proof.
  intros Hb.
  split; [apply handleBackspace_bounds; assumption|].
  split; [apply handleForwardDelete_bounds; assumption|].
  split; [apply deleteToStartOfLine_bounds; assumption|].
  split; [apply deleteToEndOfLine_bounds; assumption|].
  apply deleteWordBackwards_bounds; assumption.
Qed.

(** X14: motion along the text keeps the cursor inside the buffer, provided the
    segmenter splits a string into pieces that make it up: this holds for
    the motions to the ends of the line, by one grapheme and by one word. *)
Theorem horizontal_motion_keeps_bounds (e : Editor) :
  inBounds e ->
  inBounds (moveToLineStart e)
  /\ inBounds (moveToLineEnd e)
  /\ inBounds (moveCursor H e 0 1)
  /\ inBounds (moveCursor H e 0 (-1))
  /\ inBounds (moveWordBackwards H e)
  /\ inBounds (moveWordForwards H e).
Proof.
  intros Hb.
  split.
  { destruct Hb as [Hi Hc].
    apply (inBounds_make _ (lines e) (cursorLine e) 0);
      [reflexivity | reflexivity | reflexivity | exact Hi | lia]. }
  split.
  { destruct Hb as [Hi Hc].
    apply (inBounds_make _ (lines e) (cursorLine e)
             (len (lineAt (lines e) (cursorLine e))));
      [reflexivity | reflexivity | reflexivity | exact Hi | lia]. }
  split; [apply moveCursor_right_bounds; assumption|].
  split; [apply moveCursor_left_bounds; assumption|].
  split; [apply moveWordBackwards_bounds; assumption|].
  apply moveWordForwards_bounds; assumption.
Qed.

End EditBoundsTheorems.

Section VerticalMotion.
Context (H : Host).

Lemma visualLinesOf_logical (w : Z) (i : nat) (line : jsstring) (vl : VisualLine) :
  In vl (visualLinesOf H w i line) -> logicalLine vl = i.
Proof.
  unfold visualLinesOf. cbv zeta.
  destruct (_ =? 0); [intros [<-|[]]; reflexivity|].
  destruct (_ <=? _); [intros [<-|[]]; reflexivity|].
  intros Hin. apply in_map_iff in Hin as (c & <- & _). reflexivity.
Qed.

Lemma buildVisualLineMap_logical (e : Editor) (w : Z) (vl : VisualLine) :
  In vl (buildVisualLineMap H e w) -> (logicalLine vl < length (lines e))%nat.
Proof.
  unfold buildVisualLineMap. intros Hin.
  apply in_flat_map in Hin as (i & Hi & Hv).
  apply in_seq in Hi. rewrite (visualLinesOf_logical _ _ _ _ Hv). lia.
Qed.

Lemma nthZ_In {A : Type} (xs : list A) (i : Z) (x : A) :
  nthZ xs i = Some x -> In x xs.
Proof.
  unfold nthZ. destruct (i <? 0); [discriminate|]. apply nth_error_In.
Qed.

Lemma placeOn_notPastEnd (e : Editor) (vl : VisualLine) (visualCol : Z) :
  (logicalLine vl < length (lines e))%nat -> notPastEnd (placeOn e vl visualCol).
Proof.
  intros Hl. split; [exact Hl|].
  change (cursorCol (placeOn e vl visualCol))
    with (Z.min (startCol vl + Z.min visualCol (vlLength vl))
            (len (lineAt (lines e) (logicalLine vl)))).
  change (lineAt (lines (placeOn e vl visualCol)) (cursorLine (placeOn e vl visualCol)))
    with (lineAt (lines e) (logicalLine vl)).
  lia.
Qed.

(** X15: vertical motion never takes the cursor off the buffer or past the end
    of a line: after a motion by visual lines or by a page the cursor is
    on a line of the buffer and at most at the end of it.  (It can end up
    before the start of the line.) *)
Theorem vertical_motion_not_past_end (e : Editor) :
  notPastEnd e ->
  (forall deltaLine, notPastEnd (moveCursor H e deltaLine 0))
  /\ (forall direction, notPastEnd (pageScroll H e direction)).
Proof.
  intros Hb. split.
  - intros d. unfold moveCursor. cbv zeta.
    change (negb (0 =? 0)) with false. cbv iota.
    destruct (negb (d =? 0)); [|exact Hb].
    destruct (_ && _); [|exact Hb].
    destruct (nthZ (buildVisualLineMap H e (lastWidth e)) _) as [vl|] eqn:En; [|exact Hb].
    apply placeOn_notPastEnd.
    apply (buildVisualLineMap_logical e (lastWidth e)), (nthZ_In _ _ _ En).
  - intros d. unfold pageScroll. cbv zeta.
    destruct (nthZ (buildVisualLineMap H e (lastWidth e)) _) as [vl|] eqn:En; [|exact Hb].
    apply placeOn_notPastEnd.
    apply (buildVisualLineMap_logical e (lastWidth e)), (nthZ_In _ _ _ En).
Qed.

End VerticalMotion.

(* Instances on the reference host *)

Lemma newline_backspace_roundtrip_witness :
  lines (handleBackspace Ref.host
           (addNewLine (moveCursor Ref.host
                          (handleInput Ref.host Ref.editor (str "hello")) 0 (-1))))
  = [str "hello"].
Proof.
  apply (proj1 (newline_backspace_roundtrip Ref.host
                  (moveCursor Ref.host (handleInput Ref.host Ref.editor (str "hello")) 0 (-1))
                  ltac:(split; vm_compute; [lia | split; discriminate]))).
Defined.

Lemma insert_backspace_roundtrip_witness :
  lines (handleBackspace Ref.host
           (insertCharacter (handleInput Ref.host Ref.editor (str "ab")) (str "c")))
  = [str "ab"].
Proof.
  apply (proj1 (insert_backspace_roundtrip Ref.host
                  (handleInput Ref.host Ref.editor (str "ab")) (str "c")
                  ltac:(split; vm_compute; [lia | split; discriminate])
                  ltac:(discriminate)
                  ltac:(vm_compute; reflexivity))).
Defined.

Lemma delete_at_buffer_start_witness :
  lines (handleBackspace Ref.host (moveToLineStart (handleInput Ref.host Ref.editor (str "ab"))))
  = [str "ab"].
Proof.
  apply (proj1 (proj1 (delete_at_buffer_start Ref.host
                         (moveToLineStart (handleInput Ref.host Ref.editor (str "ab")))
                         ltac:(reflexivity) ltac:(reflexivity)))).
Defined.

Lemma delete_at_buffer_end_witness :
  lines (handleForwardDelete Ref.host (handleInput Ref.host Ref.editor (str "ab")))
  = [str "ab"].
Proof.
  apply (proj1 (proj1 (delete_at_buffer_end Ref.host
                         (handleInput Ref.host Ref.editor (str "ab"))
                         ltac:(vm_compute; lia) ltac:(vm_compute; discriminate)))).
Defined.


Lemma deletion_keeps_bounds_witness :
  inBounds (handleBackspace Ref.host (handleInput Ref.host Ref.editor (str "ab"))).
Proof.
  apply (proj1 (deletion_keeps_bounds Ref.host ref_segment_concat
                  (handleInput Ref.host Ref.editor (str "ab"))
                  ltac:(split; vm_compute; [lia | split; discriminate]))).
Defined.

Lemma horizontal_motion_keeps_bounds_witness :
  inBounds (moveCursor Ref.host (handleInput Ref.host Ref.editor (str "ab")) 0 (-1)).
Proof.
  apply (proj1 (proj2 (proj2 (proj2 (horizontal_motion_keeps_bounds Ref.host ref_segment_concat
                  (handleInput Ref.host Ref.editor (str "ab"))
                  ltac:(split; vm_compute; [lia | split; discriminate])))))).
Defined.

Lemma vertical_motion_not_past_end_witness :
  notPastEnd
    (moveCursor Ref.host
       (handleInputs Ref.host Ref.editor (removelast Example.typeThenUp)) (-1) 0).
Proof.
  apply (proj1 (vertical_motion_not_past_end Ref.host
                  (handleInputs Ref.host Ref.editor (removelast Example.typeThenUp))
                  ltac:(split; vm_compute; [lia | discriminate]))).
Defined.

(* ===================================================================== *)
(** ** Further properties of the history *)
(* ===================================================================== *)

Section HistoryNavigation.

Lemma setTextInternal_getText (e : Editor) (text : jsstring) :
  getText (setTextInternal e text) = normalizeNewlines text.
Proof.
  unfold getText.
  change (lines (setTextInternal e text))
    with (match split LF (normalizeNewlines text) with
          | [] => [[]]
          | _ :: _ => split LF (normalizeNewlines text)
          end).
  pose proof (split_nonempty LF (normalizeNewlines text)) as Hn.
  destruct (split LF (normalizeNewlines text)) eqn:Es; [contradiction|].
  rewrite <- Es. apply join_split.
Qed.

Lemma navigateHistory_moved (e : Editor) (direction : Z) :
  0 < len (history e) ->
  -1 <= historyIndex e - direction < len (history e) ->
  navigateHistory e direction =
    if historyIndex e - direction =? -1
    then setTextInternal (e<|historyIndex := historyIndex e - direction|>) []
    else setTextInternal (e<|historyIndex := historyIndex e - direction|>)
           (lineAt (history e) (Z.to_nat (historyIndex e - direction))).
Proof.
  intros Hp Hr. unfold navigateHistory. cbv zeta.
  assert (E0 : (length (history e) =? 0)%nat = false).
  { apply Nat.eqb_neq. unfold len in Hp. lia. }
  assert (E1 : (historyIndex e - direction <? -1) = false) by lia.
  assert (E2 : (historyIndex e - direction >=? len (history e)) = false) by lia.
  rewrite E0, E1, E2. reflexivity.
Qed.

Lemma navigateHistory_stays (e : Editor) (direction : Z) :
  historyIndex e - direction < -1 \/ len (history e) <= historyIndex e - direction ->
  navigateHistory e direction = e.
Proof.
  intros Hr. unfold navigateHistory. cbv zeta.
  destruct (length (history e) =? 0)%nat; [reflexivity|].
  destruct Hr as [Hr|Hr].
  - assert (E1 : (historyIndex e - direction <? -1) = true) by lia.
    rewrite E1. reflexivity.
  - assert (E2 : (historyIndex e - direction >=? len (history e)) = true) by lia.
    rewrite E2, orb_true_r. reflexivity.
Qed.

(** X16: browsing the history: a step up ([direction] -1) or down (1) never
    changes the history list and keeps the index between -1 and the last
    entry.  A step that would leave this range changes nothing at all; any
    other step shows the entry at the new index, with its line ends
    normalised, or the empty text at index -1. *)
Theorem navigateHistory_spec (e : Editor) (direction : Z) :
  -1 <= historyIndex e < len (history e) ->
  direction = 1 \/ direction = -1 ->
  let e' := navigateHistory e direction in
  let i := historyIndex e - direction in
  history e' = history e
  /\ -1 <= historyIndex e' < len (history e)
  /\ (i < -1 \/ len (history e) <= i -> e' = e)
  /\ (-1 <= i < len (history e) ->
      historyIndex e' = i
      /\ getText e' = if i =? -1 then []
                      else normalizeNewlines (lineAt (history e) (Z.to_nat i))).
Proof.
  intros Hr Hd e' i.
  destruct (Z_lt_dec i (-1)) as [Hlo|Hlo];
    [|destruct (Z_le_dec (len (history e)) i) as [Hhi|Hhi]].
  - assert (E : e' = e) by (apply navigateHistory_stays; left; exact Hlo).
    rewrite E. repeat split; lia.
  - assert (E : e' = e) by (apply navigateHistory_stays; right; exact Hhi).
    rewrite E. repeat split; lia.
  - assert (Hin : -1 <= i < len (history e)) by lia.
    assert (E : e' = _) by (apply navigateHistory_moved; [subst i; lia | exact Hin]).
    fold i in E.
    assert (F : history e' = history e /\ historyIndex e' = i
                /\ getText e' = if i =? -1 then []
                                else normalizeNewlines (lineAt (history e) (Z.to_nat i))).
    { rewrite E. destruct (i =? -1).
      - split; [reflexivity|]. split; [reflexivity|].
        apply (setTextInternal_getText _ []).
      - split; [reflexivity|]. split; [reflexivity|].
        apply setTextInternal_getText. }
    destruct F as (F1 & F2 & F3).
    split; [exact F1|]. split; [lia|]. split; [intros; lia|].
    intros _. split; assumption.
Qed.

Lemma addToHistory_first (e : Editor) (text : jsstring) :
  trim text <> [] ->
  history (addToHistory e text) <> []
  /\ lineAt (history (addToHistory e text)) 0 = trim text.
Proof.
  intros Hne. rewrite addToHistory_history.
  apply isEmpty_false in Hne. rewrite Hne.
  destruct ((0 <? length (history e))%nat && streq (lineAt (history e) 0) (trim text)) eqn:Hdup.
  - apply andb_true_iff in Hdup as [Hpos Heq].
    apply streq_spec in Heq. split; [|exact Heq].
    destruct (history e); [discriminate Hpos | discriminate].
  - destruct (100 <? length (trim text :: history e))%nat eqn:Hcap;
      [|split; [discriminate | reflexivity]].
    destruct (history e) as [|b t]; [discriminate Hcap|].
    split; [|reflexivity]. cbn [removelast]. destruct t; discriminate.
Qed.

(** X17: a text added to the history is what Up recalls: on an editor that is
    not browsing its history, after [addToHistory] a step up shows the
    trimmed text, whatever was in the buffer, and a step down after that
    leaves an empty buffer: the text that was being edited is not
    restored. *)
Theorem history_recall (e : Editor) (text : jsstring) :
  trim text <> [] -> historyIndex e = -1 ->
  let up := navigateHistory (addToHistory e text) (-1) in
  let down := navigateHistory up 1 in
  getText up = normalizeNewlines (trim text)
  /\ historyIndex up = 0
  /\ lines down = [[]]
  /\ historyIndex down = -1.
Proof.
  intros Hne Hi up down.
  destruct (addToHistory_first e text Hne) as [Hh H0].
  set (a := addToHistory e text) in *.
  assert (Ia : historyIndex a = -1).
  { subst a. unfold addToHistory. cbv zeta.
    destruct (isEmpty _); [exact Hi|]. destruct (_ && _); exact Hi. }
  assert (Hlen : 0 < len (history a)).
  { destruct (history a); [congruence | unfold len; cbn [length]; lia]. }
  assert (Eu : up = setTextInternal (a<|historyIndex := 0|>) (lineAt (history a) 0)).
  { unfold up. rewrite navigateHistory_moved by (rewrite ?Ia; lia).
    rewrite Ia. reflexivity. }
  assert (Iu : historyIndex up = 0) by (rewrite Eu; reflexivity).
  assert (Hu : history up = history a) by (rewrite Eu; reflexivity).
  assert (Ed : down = setTextInternal (up<|historyIndex := -1|>) []).
  { unfold down. rewrite navigateHistory_moved by (rewrite ?Iu, ?Hu; lia).
    rewrite Iu. reflexivity. }
  split; [rewrite Eu, setTextInternal_getText, H0; reflexivity|].
  split; [exact Iu|].
  rewrite Ed. split; reflexivity.
Qed.

End HistoryNavigation.

Lemma navigateHistory_spec_witness :
  historyIndex (navigateHistory (addToHistory Ref.editor (str "ls")) (-1)) = 0.
Proof.
  apply (proj1 (proj2 (proj2 (proj2
           (navigateHistory_spec (addToHistory Ref.editor (str "ls")) (-1)
              ltac:(vm_compute; split; [discriminate | reflexivity])
              ltac:(right; reflexivity))))
           ltac:(vm_compute; split; [discriminate | reflexivity]))).
Defined.

Lemma history_recall_witness :
  getText (navigateHistory (addToHistory (handleInput Ref.host Ref.editor (str "draft"))
                              (str " git status ")) (-1))
  = str "git status".
Proof.
  apply (proj1 (history_recall (handleInput Ref.host Ref.editor (str "draft"))
                  (str " git status ")
                  ltac:(vm_compute; discriminate) ltac:(reflexivity))).
Defined.

(* ===================================================================== *)
(** ** Bracketed paste in [handleInput] *)
(* ===================================================================== *)

Section SearchFacts.

Lemma startsWith_length (s p : jsstring) :
  startsWith s p = true -> len p <= len s.
Proof.
  revert s; induction p as [|d p IH]; intros s Hs.
  - pose proof (len_nonneg s). change (len (@nil Z)) with 0. lia.
  - destruct s as [|c s]; [discriminate|].
    cbn [startsWith] in Hs. apply andb_true_iff in Hs as [_ Hs].
    specialize (IH s Hs). unfold len in *. cbn [length]. lia.
Qed.

Lemma startsWith_prefix (s t p : jsstring) :
  startsWith s p = true -> startsWith (s ++ t) p = true.
Proof.
  revert s; induction p as [|d p IH]; intros s Hs; [destruct (s ++ t); reflexivity|].
  destruct s as [|c s]; [discriminate|].
  cbn [startsWith app] in *. apply andb_true_iff in Hs as [Hc Hs].
  rewrite Hc, (IH s Hs). reflexivity.
Qed.

Lemma startsWith_straddle (s t p : jsstring) :
  startsWith (s ++ t) p = true -> startsWith s p = false -> len s < len p.
Proof.
  revert s; induction p as [|d p IH]; intros s Hst Hs.
  - destruct s; discriminate.
  - destruct s as [|c s].
    + unfold len. cbn [length]. lia.
    + cbn [startsWith app] in *.
      apply andb_true_iff in Hst as [Hc Hst]. rewrite Hc in Hs. cbn [andb] in Hs.
      specialize (IH s Hst Hs). unfold len in *. cbn [length]. lia.
Qed.

Lemma indexOf_bound (s p : jsstring) (i : Z) :
  indexOf s p = Some i -> 0 <= i /\ i + len p <= len s.
Proof.
  revert i; induction s as [|c s IH]; intros i; cbn [indexOf].
  - destruct (startsWith [] p) eqn:Es; [|discriminate].
    intros E; injection E as <-. apply startsWith_length in Es. lia.
  - destruct (startsWith (c :: s) p) eqn:Es.
    + intros E; injection E as <-. apply startsWith_length in Es. lia.
    + destruct (indexOf s p) as [j|]; [|discriminate].
      cbn [option_map]. intros E; injection E as <-.
      destruct (IH j eq_refl). unfold len in *. cbn [length]. lia.
Qed.

Lemma indexOf_prefix (s t p : jsstring) (i : Z) :
  indexOf s p = Some i -> indexOf (s ++ t) p = Some i.
Proof.
  revert i; induction s as [|c s IH]; intros i; cbn [indexOf].
  - destruct (startsWith [] p) eqn:Es; [|discriminate].
    intros E; injection E as <-.
    destruct p; [|discriminate]. destruct t; reflexivity.
  - destruct (startsWith (c :: s) p) eqn:Es.
    + intros E; injection E as <-.
      change ((c :: s) ++ t) with (c :: s ++ t). cbn [indexOf].
      change (c :: s ++ t) with ((c :: s) ++ t).
      rewrite (startsWith_prefix _ t _ Es). reflexivity.
    + destruct (indexOf s p) as [j|] eqn:Ej; [|discriminate].
      cbn [option_map]. intros E; injection E as <-.
      change ((c :: s) ++ t) with (c :: s ++ t). cbn [indexOf].
      change (c :: s ++ t) with ((c :: s) ++ t).
      destruct (startsWith ((c :: s) ++ t) p) eqn:Est.
      * pose proof (startsWith_straddle _ _ _ Est Es) as Hl.
        destruct (indexOf_bound s p j Ej) as [A B].
        unfold len in *. cbn [length] in Hl. lia.
      * rewrite (IH j eq_refl). reflexivity.
Qed.

(** Before the first occurrence is complete, nothing is found. *)
Lemma indexOf_proper_prefix (a y s p : jsstring) (i : Z) :
  a ++ y = s -> indexOf s p = Some i -> len a < i + len p -> indexOf a p = None.
Proof.
  intros <- Hs Hl. destruct (indexOf a p) as [j|] eqn:Ea; [|reflexivity].
  rewrite (indexOf_prefix a y p j Ea) in Hs. injection Hs as ->.
  destruct (indexOf_bound a p i Ea). lia.
Qed.

Lemma removeFirst_start (x : jsstring) : removeFirst (pasteStart ++ x) pasteStart = x.
Proof. destruct x; reflexivity. Qed.

Lemma includes_start (x : jsstring) : includes (pasteStart ++ x) pasteStart = true.
Proof. destruct x; reflexivity. Qed.

End SearchFacts.

Section PasteInput.
Context (H : Host).

Lemma outside_showSuggestions (e : Editor) (s : option Suggestions) :
  outsidePaste (showSuggestions e s) = showSuggestions (outsidePaste e) s.
Proof.
  unfold showSuggestions. destruct s as [sg|]; [|reflexivity].
  destruct (0 <? length (items sg))%nat; reflexivity.
Qed.

Lemma outside_tryTrigger (b : bool) (e : Editor) :
  outsidePaste (tryTriggerAutocomplete b e) = tryTriggerAutocomplete b (outsidePaste e).
Proof.
  unfold tryTriggerAutocomplete.
  change (autocompleteProvider (outsidePaste e)) with (autocompleteProvider e).
  change (lines (outsidePaste e)) with (lines e).
  change (cursorLine (outsidePaste e)) with (cursorLine e).
  change (cursorCol (outsidePaste e)) with (cursorCol e).
  destruct (autocompleteProvider e) as [p|]; [|reflexivity].
  destruct (b && _); [reflexivity | apply outside_showSuggestions].
Qed.

Lemma outside_update (e : Editor) :
  outsidePaste (updateAutocomplete e) = updateAutocomplete (outsidePaste e).
Proof.
  unfold updateAutocomplete.
  change (isAutocompleting (outsidePaste e)) with (isAutocompleting e).
  change (autocompleteProvider (outsidePaste e)) with (autocompleteProvider e).
  change (lines (outsidePaste e)) with (lines e).
  change (cursorLine (outsidePaste e)) with (cursorLine e).
  change (cursorCol (outsidePaste e)) with (cursorCol e).
  destruct (negb (isAutocompleting e)); [reflexivity|].
  destruct (autocompleteProvider e) as [p|]; [|reflexivity].
  destruct (getSuggestions p _ _ _) as [sg|]; [|reflexivity].
  destruct (0 <? length (items sg))%nat; reflexivity.
Qed.

Lemma outside_insertCharacter (e : Editor) (c : jsstring) :
  outsidePaste (insertCharacter e c) = insertCharacter (outsidePaste e) c.
Proof.
  unfold insertCharacter. cbv zeta.
  change (insertCharacterText (outsidePaste e) c)
    with (outsidePaste (insertCharacterText e c)).
  set (e4 := insertCharacterText e c).
  change (isAutocompleting (outsidePaste e4)) with (isAutocompleting e4).
  change (isAtStartOfMessage (outsidePaste e4)) with (isAtStartOfMessage e4).
  change (lines (outsidePaste e4)) with (lines e4).
  change (cursorLine (outsidePaste e4)) with (cursorLine e4).
  change (cursorCol (outsidePaste e4)) with (cursorCol e4).
  destruct (negb (isAutocompleting e4)); [|apply outside_update].
  destruct (streq c [47] && isAtStartOfMessage e4); [apply outside_tryTrigger|].
  destruct (streq c [64]).
  - destruct (_ || _); [apply outside_tryTrigger | reflexivity].
  - destruct (existsb isCommandUnit c); [|reflexivity].
    destruct (startsWith _ _); [apply outside_tryTrigger|].
    destruct (endsInAtReference _); [apply outside_tryTrigger | reflexivity].
Qed.

Lemma outside_insert_fold (cs : list jsstring) (e : Editor) :
  outsidePaste (fold_left insertCharacter cs e)
  = fold_left insertCharacter cs (outsidePaste e).
Proof.
  revert e; induction cs as [|c cs IH]; intros e; cbn [fold_left]; [reflexivity|].
  rewrite IH, outside_insertCharacter. reflexivity.
Qed.

(** A paste does not look at the state of the bracketed-paste reader. *)
Lemma outside_handlePaste (e : Editor) (pastedText : jsstring) :
  outsidePaste (handlePaste e pastedText) = handlePaste (outsidePaste e) pastedText.
Proof.
  unfold handlePaste. cbv zeta.
  change (filteredPaste ((outsidePaste e)<|historyIndex := -1|>) pastedText)
    with (filteredPaste (e<|historyIndex := -1|>) pastedText).
  destruct (_ || _); [rewrite outside_insert_fold; reflexivity|].
  destruct (_ =? 1); [rewrite outside_insert_fold; reflexivity|].
  reflexivity.
Qed.

Lemma outsidePaste_idle (e : Editor) :
  isInPaste e = false -> pasteBuffer e = [] -> outsidePaste e = e.
Proof. destruct e; cbn; intros -> ->; reflexivity. Qed.

Lemma substring_content (content tail : jsstring) :
  substring (content ++ tail) 0 (len content) = content.
Proof.
  unfold substring, len. rewrite Z.sub_0_r, Nat2Z.id. cbn [Z.to_nat skipn].
  rewrite firstn_app, firstn_all, Nat.sub_diag. cbn [firstn]. apply app_nil_r.
Qed.

Lemma substringFrom_rest (content rest : jsstring) :
  substringFrom (content ++ pasteEnd ++ rest) (len content + 6) = rest.
Proof.
  unfold substringFrom, len.
  replace (Z.to_nat (Z.of_nat (length content) + 6)) with (length (content ++ pasteEnd))
    by (rewrite length_app; change (length pasteEnd) with 6%nat; lia).
  rewrite app_assoc. apply skipn_length_app.
Qed.

(** While the end marker has not arrived, the input is collected.  [e1]
    and [data1] are the state and the input after the start marker, if
    there is one, has been taken off. *)
Lemma paste_collect (fuel : nat) (e e1 : Editor) (data data1 : jsstring) :
  (if includes data pasteStart
   then (e<|isInPaste := true|><|pasteBuffer := []|>, removeFirst data pasteStart)
   else (e, data)) = (e1, data1) ->
  isInPaste e1 = true ->
  indexOf (pasteBuffer e1 ++ data1) pasteEnd = None ->
  handleInputFuel H fuel e data = Some (e1<|pasteBuffer := pasteBuffer e1 ++ data1|>).
Proof.
  intros Hst Hin Hidx.
  destruct fuel; cbn [handleInputFuel]; rewrite Hst; cbv beta iota zeta; rewrite Hin;
    change (pasteBuffer (e1<|pasteBuffer := pasteBuffer e1 ++ data1|>))
      with (pasteBuffer e1 ++ data1);
    rewrite Hidx; reflexivity.
Qed.

(** When the end marker arrives, what was collected before it is pasted
    and what follows it is handled as further input. *)
Lemma paste_finish (fuel : nat) (e e1 : Editor) (data data1 content rest : jsstring) :
  (if includes data pasteStart
   then (e<|isInPaste := true|><|pasteBuffer := []|>, removeFirst data pasteStart)
   else (e, data)) = (e1, data1) ->
  isInPaste e1 = true ->
  pasteBuffer e1 ++ data1 = content ++ pasteEnd ++ rest ->
  indexOf (content ++ pasteEnd) pasteEnd = Some (len content) ->
  content <> [] ->
  handleInputFuel H fuel e data =
    match rest, fuel with
    | [], _ => Some (handlePaste (outsidePaste e1) content)
    | _ :: _, S f => handleInputFuel H f (handlePaste (outsidePaste e1) content) rest
    | _ :: _, O => None
    end.
Proof.
  intros Hst Hin Hbuf Hidx Hne.
  assert (Hidx' : indexOf (content ++ pasteEnd ++ rest) pasteEnd = Some (len content)).
  { rewrite app_assoc. apply indexOf_prefix, Hidx. }
  assert (Hpos : (len content >? 0) = true).
  { destruct content; [congruence | apply Z.gtb_lt; unfold len; cbn [length]; lia]. }
  set (e2 := e1<|pasteBuffer := content ++ pasteEnd ++ rest|>).
  assert (E5 : outsidePaste (handlePaste e2 content) = handlePaste (outsidePaste e1) content).
  { rewrite outside_handlePaste. reflexivity. }
  assert (Hb : pasteBuffer ((handlePaste e2 content)<|isInPaste := false|>)
               = content ++ pasteEnd ++ rest).
  { change (pasteBuffer ((handlePaste e2 content)<|isInPaste := false|>))
      with (pasteBuffer (handlePaste e2 content)).
    rewrite (handlePaste_pasteBuffer e2 content). reflexivity. }
  assert (Hlen : (len rest >? 0) = match rest with [] => false | _ :: _ => true end).
  { destruct rest; [reflexivity | apply Z.gtb_lt; unfold len; cbn [length]; lia]. }
  destruct fuel; cbn [handleInputFuel]; rewrite Hst; cbv beta iota zeta; rewrite Hin;
    change (pasteBuffer (e1<|pasteBuffer := pasteBuffer e1 ++ data1|>))
      with (pasteBuffer e1 ++ data1);
    rewrite Hbuf; fold e2; rewrite Hidx', substring_content, Hpos, Hb, substringFrom_rest,
      Hlen;
    fold (outsidePaste (handlePaste e2 content)); rewrite E5;
    destruct rest; reflexivity.
Qed.

Lemma paste_begin (e : Editor) (x : jsstring) :
  (if includes (pasteStart ++ x) pasteStart
   then (e<|isInPaste := true|><|pasteBuffer := []|>,
         removeFirst (pasteStart ++ x) pasteStart)
   else (e, pasteStart ++ x))
  = (e<|isInPaste := true|><|pasteBuffer := []|>, x).
Proof. rewrite includes_start, removeFirst_start. reflexivity. Qed.

Lemma paste_continue (e : Editor) (y : jsstring) :
  includes y pasteStart = false ->
  (if includes y pasteStart
   then (e<|isInPaste := true|><|pasteBuffer := []|>, removeFirst y pasteStart)
   else (e, y))
  = (e, y).
Proof. intros ->. reflexivity. Qed.

(** More fuel than needed changes nothing. *)
Lemma handleInputFuel_mono (f f' : nat) (e r : Editor) (d : jsstring) :
  (f <= f')%nat ->
  handleInputFuel H f e d = Some r -> handleInputFuel H f' e d = Some r.
Proof.
  revert f' e d; induction f as [|f IH]; intros f' e d Hle Hs;
    destruct f' as [|f']; try lia; try exact Hs;
    cbn [handleInputFuel] in *;
    destruct (if includes d pasteStart then _ else _) as [e1 d1];
    (destruct (isInPaste e1); [|exact Hs]);
    cbv zeta in *;
    (destruct (indexOf _ pasteEnd); [|exact Hs]);
    (destruct (len (substringFrom _ _) >? 0); [|exact Hs]).
  - discriminate Hs.
  - apply (IH f'); [lia | exact Hs].
Qed.

(** The one-piece case, in the form the split cases reuse. *)
Lemma paste_one_piece (e : Editor) (content : jsstring) :
  content <> [] ->
  indexOf (content ++ pasteEnd) pasteEnd = Some (len content) ->
  handleInput H e (pasteStart ++ content ++ pasteEnd)
  = handlePaste (outsidePaste e) content.
Proof.
  intros Hne Hidx. unfold handleInput.
  rewrite (paste_finish _ e _ _ _ content [] (paste_begin e (content ++ pasteEnd))).
  - reflexivity.
  - reflexivity.
  - rewrite app_nil_r; reflexivity.
  - exact Hidx.
  - exact Hne.
Qed.

(** X18: a bracketed paste that arrives in one piece: the text between the
    markers is pasted, and the reader is back outside a paste.  A start
    marker discards whatever an unfinished paste had collected. *)
Theorem bracketed_paste_whole (e : Editor) (content : jsstring) :
  content <> [] ->
  indexOf (content ++ pasteEnd) pasteEnd = Some (len content) ->
  handleInput H e (pasteStart ++ content ++ pasteEnd)
  = handlePaste (outsidePaste e) content.
Proof.
  intros Hne Hidx. unfold handleInput.
  rewrite (paste_finish _ e _ _ _ content [] (paste_begin e (content ++ pasteEnd)));
    [reflexivity | reflexivity | rewrite app_nil_r; reflexivity | exact Hidx | exact Hne].
Qed.

(** X19: a bracketed paste that arrives in two pieces, cut anywhere after the
    start marker, also inside the end marker, gives what it gives in one
    piece. *)
Theorem bracketed_paste_split (e : Editor) (content a y : jsstring) :
  content <> [] ->
  indexOf (content ++ pasteEnd) pasteEnd = Some (len content) ->
  a ++ y = content ++ pasteEnd -> y <> [] ->
  includes y pasteStart = false ->
  handleInputs H e [pasteStart ++ a; y]
  = handleInput H e (pasteStart ++ content ++ pasteEnd).
Proof.
  intros Hne Hidx Hay Hy Hinc.
  rewrite (paste_one_piece e content Hne Hidx).
  unfold handleInputs. cbn [fold_left].
  set (e1 := e<|isInPaste := true|><|pasteBuffer := []|>).
  assert (E1 : handleInput H e (pasteStart ++ a) = e1<|pasteBuffer := a|>).
  { unfold handleInput.
    rewrite (paste_collect _ e e1 _ a (paste_begin e a)); [reflexivity | reflexivity |].
    change (pasteBuffer e1 ++ a) with a.
    apply (indexOf_proper_prefix a y _ _ _ Hay Hidx).
    apply (f_equal len) in Hay. rewrite !len_app in Hay.
    change (len pasteEnd) with 6 in *.
    assert (0 < len y) by (destruct y; [congruence | unfold len; cbn [length]; lia]).
    lia. }
  rewrite E1. unfold handleInput.
  rewrite (paste_finish _ (e1<|pasteBuffer := a|>) _ _ _ content []
             (paste_continue _ y Hinc));
    [reflexivity | reflexivity | | exact Hidx | exact Hne].
  change (pasteBuffer (e1<|pasteBuffer := a|>)) with a.
  rewrite Hay, app_nil_r. reflexivity.
Qed.

(** X20: what follows the end marker in the same piece of input is handled as
    input of its own, after the paste. *)
Theorem bracketed_paste_then_input (e : Editor) (content rest : jsstring) :
  content <> [] ->
  indexOf (content ++ pasteEnd) pasteEnd = Some (len content) ->
  rest <> [] ->
  handleInput H e (pasteStart ++ content ++ pasteEnd ++ rest)
  = handleInput H (handleInput H e (pasteStart ++ content ++ pasteEnd)) rest.
Proof.
  intros Hne Hidx Hr.
  rewrite (paste_one_piece e content Hne Hidx).
  set (e5 := handlePaste (outsidePaste e) content).
  assert (Hb : pasteBuffer e5 = []) by (apply handlePaste_pasteBuffer).
  unfold handleInput at 1.
  rewrite (paste_finish _ e _ _ _ content rest
             (paste_begin e (content ++ pasteEnd ++ rest)));
    [| reflexivity | reflexivity | exact Hidx | exact Hne].
  destruct rest as [|c rest]; [congruence|].
  rewrite length_app. change (length pasteStart) with 6%nat.
  rewrite Nat.add_comm with (n := length (pasteBuffer e)). cbn [Nat.add].
  fold e5.
  rewrite (handleInputFuel_mono (length (pasteBuffer e5) + length (c :: rest)) _ e5
             (handleInput H e5 (c :: rest)) (c :: rest));
    [reflexivity | | apply handleInput_returns].
  rewrite Hb, !length_app. change (length pasteEnd) with 6%nat. cbn [length Nat.add]. lia.
Qed.

End PasteInput.

Lemma bracketed_paste_whole_witness :
  handleInput Ref.host Ref.editor (pasteStart ++ str "hi" ++ pasteEnd)
  = handlePaste (outsidePaste Ref.editor) (str "hi").
Proof.
  exact (bracketed_paste_whole Ref.host Ref.editor (str "hi")
           ltac:(discriminate) ltac:(reflexivity)).
Defined.

Lemma bracketed_paste_split_witness :
  handleInputs Ref.host Ref.editor
    [pasteStart ++ str "hi" ++ [ESC; 91]; str "201~"]
  = handleInput Ref.host Ref.editor (pasteStart ++ str "hi" ++ pasteEnd).
Proof.
  apply (bracketed_paste_split Ref.host Ref.editor (str "hi")
           (str "hi" ++ [ESC; 91]) (str "201~")
           ltac:(discriminate) ltac:(reflexivity) ltac:(reflexivity)
           ltac:(discriminate) ltac:(reflexivity)).
Defined.

Lemma bracketed_paste_then_input_witness :
  handleInput Ref.host Ref.editor (pasteStart ++ str "hi" ++ pasteEnd ++ str "!")
  = handleInput Ref.host
      (handleInput Ref.host Ref.editor (pasteStart ++ str "hi" ++ pasteEnd)) (str "!").
Proof.
  apply (bracketed_paste_then_input Ref.host Ref.editor (str "hi") (str "!")
           ltac:(discriminate) ltac:(reflexivity) ltac:(discriminate)).
Defined.

(* ===================================================================== *)
(** ** Marker expansion on text without markers *)
(* ===================================================================== *)

Section PlainText.

Lemma includes_tail (c : Z) (s p : jsstring) :
  includes (c :: s) p = false -> includes s p = false.
Proof.
  unfold includes. cbn [indexOf].
  destruct (startsWith (c :: s) p); [discriminate|].
  destruct (indexOf s p); [discriminate | reflexivity].
Qed.

Lemma includes_suffix (a s p : jsstring) :
  includes (a ++ s) p = false -> includes s p = false.
Proof.
  induction a as [|c a IH]; [auto|].
  intros Hi. apply IH, (includes_tail c), Hi.
Qed.

Lemma includes_prefix (s b p : jsstring) :
  includes (s ++ b) p = false -> includes s p = false.
Proof.
  unfold includes. destruct (indexOf s p) as [i|] eqn:E; [|reflexivity].
  rewrite (indexOf_prefix s b p i E). discriminate.
Qed.

Lemma includes_trim (s p : jsstring) :
  includes s p = false -> includes (trim s) p = false.
Proof.
  intros Hi. unfold trim.
  destruct (trimStart_suffix s) as (a & Ea & _).
  destruct (trimEnd_prefix (trimStart s)) as (b & Eb).
  rewrite Ea, Eb in Hi.
  apply includes_suffix in Hi. apply includes_prefix in Hi. exact Hi.
Qed.

Lemma startsWith_app_false (s p q : jsstring) :
  startsWith s p = false -> startsWith s (p ++ q) = false.
Proof.
  revert s; induction p as [|d p IH]; intros s Hs.
  - destruct s; discriminate.
  - destruct s as [|c s]; [reflexivity|].
    cbn [startsWith app] in *.
    destruct (c =? d); [cbn [andb] in *; apply IH, Hs | reflexivity].
Qed.

Lemma matchAt_plain (pasteId : Z) (s : jsstring) :
  includes s (str "[paste #") = false -> Marker.matchAt pasteId s = None.
Proof.
  intros Hi. unfold Marker.matchAt, Marker.head.
  assert (Hs : startsWith s (str "[paste #") = false).
  { unfold includes in Hi. destruct s; cbn [indexOf] in Hi;
      destruct (startsWith _ (str "[paste #")); [discriminate | reflexivity
                                                | discriminate | reflexivity]. }
  rewrite (startsWith_app_false _ _ (toDecimal pasteId) Hs). reflexivity.
Qed.

Lemma replaceFrom_plain (fuel : nat) (pasteId : Z) (content done s : jsstring) :
  (length s < fuel)%nat ->
  includes s (str "[paste #") = false ->
  Marker.replaceFrom fuel pasteId content done s = s.
Proof.
  revert done s; induction fuel as [|f IH]; intros done s Hf Hi; [lia|].
  cbn [Marker.replaceFrom]. rewrite (matchAt_plain pasteId s Hi).
  destruct s as [|c r]; [reflexivity|].
  f_equal. apply IH; [cbn [length] in Hf; lia | apply (includes_tail c), Hi].
Qed.

Lemma expand_plain (pastes : list (Z * jsstring)) (s : jsstring) :
  includes s (str "[paste #") = false -> Marker.expand pastes s = s.
Proof.
  intros Hi. unfold Marker.expand.
  induction pastes as [|[k v] ps IH]; [reflexivity|].
  cbn [fold_left fst snd]. unfold Marker.replaceMarkers.
  rewrite replaceFrom_plain by (try lia; exact Hi). exact IH.
Qed.

(** X21: text in which the opening of a marker does not occur is never altered
    by the expansion of paste markers, whatever the paste table holds:
    [getExpandedText] returns the text as it is, and a submit hands the
    trimmed text to the submit callback. *)
Theorem plain_text_not_expanded (e : Editor) :
  includes (getText e) (str "[paste #") = false ->
  disableSubmit e = false ->
  getExpandedText e = getText e
  /\ onSubmit (submit e)
     = option_map (fun log => log ++ [trim (getText e)]) (onSubmit e).
Proof.
  intros Hi Hd. split.
  - unfold getExpandedText. apply expand_plain, Hi.
  - rewrite (submit_onSubmit e Hd).
    rewrite (expand_plain (pastes e) (trim (join LF (lines e))))
      by (apply includes_trim, Hi).
    reflexivity.
Qed.

End PlainText.

Lemma plain_text_not_expanded_witness :
  getExpandedText (handleInput Ref.host Ref.editor (str " a[1] ")) = str " a[1] ".
Proof.
  apply (proj1 (plain_text_not_expanded
                  (handleInput Ref.host Ref.editor (str " a[1] "))
                  ltac:(vm_compute; reflexivity) ltac:(vm_compute; reflexivity))).
Defined.

(* ===================================================================== *)
(** ** What the Kitty decoder can return, and the backslash prefix *)
(* ===================================================================== *)

Section DecoderRange.



End DecoderRange.


Section BackslashPrefix.
Context (H : Host).

Lemma handleInput_key (e : Editor) (data : jsstring) :
  includes data pasteStart = false -> isInPaste e = false ->
  handleInput H e data = handleKey H e data.
Proof.
  intros Hi Hp. unfold handleInput.
  rewrite (handleInputFuel_key H _ e data Hi Hp). reflexivity.
Qed.

Lemma pending_reset (e : Editor) :
  pendingShiftEnter e = false -> e<|pendingShiftEnter := false|> = e.
Proof. destruct e; cbn; intros ->; reflexivity. Qed.

(** X23: a backslash is held back until the next key: if that key is Enter
    (a carriage return) the two together break the line and no backslash
    is inserted; before any other key the backslash is inserted first and
    the key is then handled as usual. *)
Theorem backslash_then_key (e : Editor) (data : jsstring) :
  isInPaste e = false -> pendingShiftEnter e = false ->
  includes data pasteStart = false ->
  handleInputs H e [[92]; data]
  = if streq data [CR] then addNewLine e
    else handleInput H (insertCharacter e [92]) data.
Proof.
  intros Hp Hs Hi. unfold handleInputs. cbn [fold_left].
  assert (E1 : handleInput H e [92] = e<|pendingShiftEnter := true|>).
  { rewrite handleInput_key by (try reflexivity; exact Hp).
    unfold handleKey. rewrite Hs. reflexivity. }
  rewrite E1.
  rewrite handleInput_key by (try exact Hi; exact Hp).
  unfold handleKey at 1.
  change (pendingShiftEnter (e<|pendingShiftEnter := true|>)) with true.
  change ((e<|pendingShiftEnter := true|>)<|pendingShiftEnter := false|>)
    with (e<|pendingShiftEnter := false|>).
  rewrite (pending_reset e Hs). cbn [andb].
  destruct (streq data [CR]); [reflexivity|].
  set (e1 := insertCharacter e [92]).
  destruct (overlay_fields _ _ (insertCharacter_overlay e [92]))
    as (_ & _ & _ & _ & _ & _ & _ & _ & _ & _ & _ & _ & _ & Ep & Es).
  fold e1 in Ep, Es.
  change (isInPaste (insertCharacterText e [92])) with (isInPaste e) in Ep.
  change (pendingShiftEnter (insertCharacterText e [92])) with (pendingShiftEnter e) in Es.
  rewrite handleInput_key by (try exact Hi; rewrite Ep; exact Hp).
  unfold handleKey. rewrite Es, Hs. reflexivity.
Qed.

End BackslashPrefix.

Lemma backslash_then_key_witness :
  handleInputs Ref.host (handleInput Ref.host Ref.editor (str "ab")) [[92]; [CR]]
  = addNewLine (handleInput Ref.host Ref.editor (str "ab")).
Proof.
  exact (backslash_then_key Ref.host (handleInput Ref.host Ref.editor (str "ab")) [CR]
           ltac:(vm_compute; reflexivity) ltac:(vm_compute; reflexivity)
           ltac:(vm_compute; reflexivity)).
Defined.

(* ===================================================================== *)
(** ** What input leaves alone *)
(* ===================================================================== *)

Section SettingsFrame.
Context (H : Host).

Lemma sameSettings_refl (e : Editor) : sameSettings e e.
Proof. repeat split. Qed.

Lemma sameSettings_trans (a b c : Editor) :
  sameSettings a b -> sameSettings b c -> sameSettings a c.
Proof.
  intros (A1 & A2 & A3 & A4 & A5 & A6 & A7) (B1 & B2 & B3 & B4 & B5 & B6 & B7).
  repeat split; congruence.
Qed.

Lemma sameSettings_overlay (a b : Editor) : sameButOverlay b a -> sameSettings a b.
Proof.
  intros E. unfold sameButOverlay in E.
  repeat split;
    [ exact (f_equal history E) | exact (f_equal disableSubmit E)
    | exact (f_equal paddingX E) | exact (f_equal borderStyle E)
    | exact (f_equal terminalRows E) | exact (f_equal focused E)
    | exact (f_equal autocompleteProvider E) ].
Qed.

Ltac after step := eapply sameSettings_trans; [|step].

Lemma insertCharacter_settings (e : Editor) (c : jsstring) :
  sameSettings e (insertCharacter e c).
Proof.
  eapply sameSettings_trans;
    [|apply sameSettings_overlay, insertCharacter_overlay].
  repeat split.
Qed.

Lemma insert_fold_settings (cs : list jsstring) (e : Editor) :
  sameSettings e (fold_left insertCharacter cs e).
Proof.
  revert e; induction cs as [|c cs IH]; intros e; cbn [fold_left];
    [apply sameSettings_refl|].
  eapply sameSettings_trans; [apply insertCharacter_settings | apply IH].
Qed.

Lemma handlePaste_settings (e : Editor) (pastedText : jsstring) :
  sameSettings e (handlePaste e pastedText).
Proof.
  unfold handlePaste. cbv zeta.
  destruct (_ || _).
  { eapply sameSettings_trans; [|apply insert_fold_settings]. repeat split. }
  destruct (_ =? 1).
  { eapply sameSettings_trans; [|apply insert_fold_settings]. repeat split. }
  repeat split.
Qed.

Lemma retrigger_settings (e : Editor) : sameSettings e (retriggerAutocomplete e).
Proof. apply sameSettings_overlay, retriggerAutocomplete_overlay. Qed.

Lemma handleBackspace_settings (e : Editor) : sameSettings e (handleBackspace H e).
Proof.
  unfold handleBackspace. cbv zeta.
  eapply sameSettings_trans; [|apply retrigger_settings].
  destruct (_ >? 0); [repeat split|]. destruct (0 <? _)%nat; repeat split.
Qed.

Lemma handleForwardDelete_settings (e : Editor) :
  sameSettings e (handleForwardDelete H e).
Proof.
  unfold handleForwardDelete. cbv zeta.
  eapply sameSettings_trans; [|apply retrigger_settings].
  destruct (_ <? _); [repeat split|]. destruct (_ <? _)%nat; repeat split.
Qed.

Lemma deleteToStartOfLine_settings (e : Editor) : sameSettings e (deleteToStartOfLine e).
Proof.
  unfold deleteToStartOfLine. cbv zeta.
  destruct (_ >? 0); [repeat split|]. destruct (0 <? _)%nat; repeat split.
Qed.

Lemma deleteToEndOfLine_settings (e : Editor) : sameSettings e (deleteToEndOfLine e).
Proof.
  unfold deleteToEndOfLine. cbv zeta.
  destruct (_ <? _); [repeat split|]. destruct (_ <? _)%nat; repeat split.
Qed.

Lemma moveWordBackwards_settings (e : Editor) : sameSettings e (moveWordBackwards H e).
Proof.
  unfold moveWordBackwards. cbv zeta.
  destruct (_ =? 0); [destruct (0 <? _)%nat; repeat split|].
  destruct (popWhile _ _ _) as [g1 c1]. repeat split.
Qed.

Lemma moveWordForwards_settings (e : Editor) : sameSettings e (moveWordForwards H e).
Proof.
  unfold moveWordForwards. cbv zeta.
  destruct (_ >=? _); [destruct (_ <? _)%nat; repeat split|].
  destruct (skipWhile _ _ _) as [r1 c1]. repeat split.
Qed.

Lemma deleteWordBackwards_settings (e : Editor) :
  sameSettings e (deleteWordBackwards H e).
Proof.
  unfold deleteWordBackwards. cbv zeta.
  destruct (_ =? 0); [destruct (0 <? _)%nat; repeat split|].
  destruct (moveWordBackwards_settings (e<|historyIndex := -1|>))
    as (A1 & A2 & A3 & A4 & A5 & A6 & A7).
  repeat split; assumption.
Qed.

Lemma moveCursor_settings (e : Editor) (deltaLine deltaCol : Z) :
  sameSettings e (moveCursor H e deltaLine deltaCol).
Proof.
  unfold moveCursor. cbv zeta.
  set (e1 := if negb (deltaLine =? 0) then _ else e).
  assert (E1 : sameSettings e e1).
  { subst e1. destruct (negb _); [|apply sameSettings_refl].
    destruct (_ && _); [|apply sameSettings_refl].
    destruct (nthZ _ _); [repeat split | apply sameSettings_refl]. }
  clearbody e1.
  eapply sameSettings_trans; [exact E1|].
  destruct (negb _); [|apply sameSettings_refl].
  destruct (_ >? 0).
  - destruct (_ <? _); [repeat split|]. destruct (_ <? _)%nat; repeat split.
  - destruct (_ >? 0); [repeat split|]. destruct (0 <? _)%nat; repeat split.
Qed.

Lemma pageScroll_settings (e : Editor) (direction : Z) :
  sameSettings e (pageScroll H e direction).
Proof.
  unfold pageScroll. cbv zeta.
  destruct (nthZ _ _); [repeat split | apply sameSettings_refl].
Qed.

Lemma navigateHistory_settings (e : Editor) (direction : Z) :
  sameSettings e (navigateHistory e direction).
Proof.
  unfold navigateHistory.
  destruct (length (history e) =? 0)%nat; [apply sameSettings_refl|].
  destruct (_ || _); [apply sameSettings_refl|].
  cbv zeta. destruct (_ =? -1); repeat split.
Qed.

Lemma submit_settings (e : Editor) : sameSettings e (submit e).
Proof. unfold submit. destruct (disableSubmit e); repeat split. Qed.

Lemma autocompleteKeys_settings (e : Editor) (data : jsstring) :
  match autocompleteKeys H e data with
  | inl e' => sameSettings e e'
  | inr e' => sameSettings e e'
  end.
Proof.
  unfold autocompleteKeys.
  destruct (isAutocompleting e); [|apply sameSettings_refl].
  destruct (autocompleteList e) as [l|]; [|apply sameSettings_refl].
  destruct (kbMatches H data Action.selectCancel); [repeat split|].
  destruct (_ || _); [repeat split|].
  destruct (kbMatches H data Action.tab).
  { destruct (getSelectedItem l); [|apply sameSettings_refl].
    destruct (autocompleteProvider e) eqn:Ep; [|apply sameSettings_refl].
    repeat split; try reflexivity; symmetry; exact Ep. }
  destruct (kbMatches H data Action.selectConfirm); [|apply sameSettings_refl].
  destruct (getSelectedItem l); [|apply sameSettings_refl].
  destruct (autocompleteProvider e) eqn:Ep; [|apply sameSettings_refl].
  cbv zeta. destruct (startsWith _ _); repeat split; try reflexivity; symmetry; exact Ep.
Qed.

Lemma editingKeys_settings (e : Editor) (data : jsstring) :
  sameSettings e (editingKeys H e data).
Proof.
  unfold editingKeys. cbv zeta.
  destruct (_ && _); [apply sameSettings_overlay, handleTabCompletion_overlay|].
  destruct (kbMatches H data Action.deleteToLineEnd); [apply deleteToEndOfLine_settings|].
  destruct (kbMatches H data Action.deleteToLineStart);
    [apply deleteToStartOfLine_settings|].
  destruct (kbMatches H data Action.deleteWordBackward);
    [apply deleteWordBackwards_settings|].
  destruct (_ || _); [apply handleBackspace_settings|].
  destruct (_ || _); [apply handleForwardDelete_settings|].
  destruct (kbMatches H data Action.cursorLineStart); [repeat split|].
  destruct (kbMatches H data Action.cursorLineEnd); [repeat split|].
  destruct (kbMatches H data Action.cursorWordLeft); [apply moveWordBackwards_settings|].
  destruct (kbMatches H data Action.cursorWordRight); [apply moveWordForwards_settings|].
  destruct (isNewLineInput H data); [repeat split|].
  destruct (kbMatches H data Action.submit); [apply submit_settings|].
  destruct (kbMatches H data Action.cursorUp).
  { destruct (isEditorEmpty e); [apply navigateHistory_settings|].
    destruct (_ && _); [apply navigateHistory_settings | apply moveCursor_settings]. }
  destruct (kbMatches H data Action.cursorDown).
  { destruct (_ && _); [apply navigateHistory_settings | apply moveCursor_settings]. }
  destruct (kbMatches H data Action.cursorRight); [apply moveCursor_settings|].
  destruct (kbMatches H data Action.cursorLeft); [apply moveCursor_settings|].
  destruct (kbMatches H data Action.pageUp); [apply pageScroll_settings|].
  destruct (kbMatches H data Action.pageDown); [apply pageScroll_settings|].
  destruct (matchesKey H data shiftSpace); [apply insertCharacter_settings|].
  destruct (decodeKittyPrintable data); [apply insertCharacter_settings|].
  destruct (charCodeAt0 data) as [c|]; [|apply sameSettings_refl].
  destruct (c >=? 32); [apply insertCharacter_settings | apply sameSettings_refl].
Qed.

Lemma handleKey_settings (e : Editor) (data : jsstring) :
  sameSettings e (handleKey H e data).
Proof.
  unfold handleKey.
  destruct (pendingShiftEnter e && streq data [CR]); [repeat split|].
  set (e1 := if pendingShiftEnter e then _ else e).
  assert (E1 : sameSettings e e1).
  { subst e1. destruct (pendingShiftEnter e); [|apply sameSettings_refl].
    eapply sameSettings_trans; [|apply insertCharacter_settings]. repeat split. }
  clearbody e1.
  destruct (streq data [92]).
  { eapply sameSettings_trans; [exact E1 | repeat split]. }
  destruct (kbMatches H data Action.copy); [exact E1|].
  pose proof (autocompleteKeys_settings e1 data) as Ak.
  destruct (autocompleteKeys H e1 data) as [done | e2].
  - eapply sameSettings_trans; eassumption.
  - eapply sameSettings_trans; [exact E1|].
    eapply sameSettings_trans; [exact Ak | apply editingKeys_settings].
Qed.

Lemma handleInputFuel_settings (fuel : nat) (e e' : Editor) (data : jsstring) :
  handleInputFuel H fuel e data = Some e' -> sameSettings e e'.
Proof.
  revert e e' data; induction fuel as [|f IH]; intros e e' data;
    cbn [handleInputFuel];
    destruct (includes data pasteStart); cbv zeta.
  all: match goal with
       | |- context [isInPaste ?x] => destruct (isInPaste x) eqn:Hp
       end.
  all: try (intros E; inversion E; subst; clear E;
            first [ apply handleKey_settings
                  | eapply sameSettings_trans;
                    [|apply handleKey_settings]; solve [repeat split] ]).
  all: match goal with
       | |- context [indexOf ?b pasteEnd] => destruct (indexOf b pasteEnd) as [endIndex|]
       end.
  all: try (intros E; inversion E; subst; clear E; solve [repeat split]).
  all: match goal with
       | |- context [if len ?r >? 0 then _ else Some ?x] =>
           assert (Ex : sameSettings e x);
           [ match goal with
             | |- context [if ?c then handlePaste ?y ?p else _] =>
                 destruct c;
                 [ eapply sameSettings_trans;
                   [|eapply sameSettings_trans;
                     [apply (handlePaste_settings y p)|solve [repeat split]]];
                   solve [repeat split]
                 | solve [repeat split] ]
             end
           | destruct (len r >? 0) ]
       end.
  all: try discriminate.
  all: try (intros E; inversion E; subst; clear E; exact Ex).
  all: intros E; apply IH in E; eapply sameSettings_trans; eassumption.
Qed.

Lemma handleInput_settings (e : Editor) (data : jsstring) :
  sameSettings e (handleInput H e data).
Proof.
  unfold handleInput.
  destruct (handleInputFuel H _ e data) eqn:E;
    [eapply handleInputFuel_settings; eassumption | apply sameSettings_refl].
Qed.

(** X24: input never touches the history or the settings: after any sequence of
    input events the history list, the submit switch, the padding, the
    border style, the terminal height, the focus flag and the autocomplete
    provider are what they were.  In particular a submit does not add to
    the history; only [addToHistory] does. *)
Theorem input_keeps_settings (e : Editor) (events : list jsstring) :
  sameSettings e (handleInputs H e events).
Proof.
  unfold handleInputs.
  revert e; induction events as [|d ds IH]; intros e; cbn [fold_left];
    [apply sameSettings_refl|].
  eapply sameSettings_trans; [apply handleInput_settings | apply IH].
Qed.

End SettingsFrame.

(* ===================================================================== *)
(** ** Cleaning of pasted text, settings, and the dynamic border *)
(* ===================================================================== *)

Section CleanPaste.

Lemma replaceCRLF_keep (c : Z) (r : jsstring) :
  (c =? CR) = false -> replaceCRLF (c :: r) = c :: replaceCRLF r.
Proof. intros Hc. cbn [replaceCRLF]. rewrite Hc. destruct r; reflexivity. Qed.

Lemma normalizeNewlines_clean (s : jsstring) :
  Forall (fun c => c = LF \/ 32 <= c) s -> normalizeNewlines s = s.
Proof.
  unfold normalizeNewlines, replaceCR.
  induction 1 as [|c r Hc Hr IH]; [reflexivity|].
  assert (Ec : (c =? CR) = false) by (unfold CR, LF in *; lia).
  rewrite (replaceCRLF_keep c r Ec). cbn [map]. rewrite Ec, IH. reflexivity.
Qed.

Lemma expandTabs_clean (s : jsstring) :
  Forall (fun c => c = LF \/ 32 <= c) s -> expandTabs s = s.
Proof.
  unfold expandTabs.
  induction 1 as [|c r Hc Hr IH]; [reflexivity|].
  assert (Ec : (c =? TAB) = false) by (unfold TAB, LF in *; lia).
  cbn [flat_map]. rewrite Ec, IH. reflexivity.
Qed.

Lemma filter_clean (s : jsstring) :
  Forall (fun c => c = LF \/ 32 <= c) s ->
  filter (fun c => (c =? LF) || (c >=? 32)) s = s.
Proof.
  induction 1 as [|c r Hc Hr IH]; [reflexivity|].
  cbn [filter].
  assert (Ec : (c =? LF) || (c >=? 32) = true).
  { apply orb_true_iff. destruct Hc as [->|Hc]; [left; apply Z.eqb_refl | right; lia]. }
  rewrite Ec, IH. reflexivity.
Qed.

(** X25: the cleaning of a pasted text leaves no carriage return, no tab and no
    other control character: every code unit of the result is a line feed
    or at least 32.  Text that is already clean passes unchanged, so
    cleaning twice is cleaning once. *)
Theorem cleanPaste_clean (pastedText : jsstring) :
  Forall (fun c => c = LF \/ 32 <= c) (cleanPaste pastedText)
  /\ cleanPaste (cleanPaste pastedText) = cleanPaste pastedText.
Proof.
  assert (F : Forall (fun c => c = LF \/ 32 <= c) (cleanPaste pastedText)).
  { unfold cleanPaste. cbv zeta. apply Forall_forall. intros c Hc.
    apply filter_In in Hc as [_ Hc]. apply orb_true_iff in Hc as [Hc|Hc];
      [left; apply Z.eqb_eq, Hc | right; lia]. }
  split; [exact F|].
  set (t := cleanPaste pastedText) in *. clearbody t.
  unfold cleanPaste. cbv zeta.
  rewrite (normalizeNewlines_clean t F), (expandTabs_clean t F).
  apply filter_clean, F.
Qed.

End CleanPaste.

Section Settings.

Lemma sameBorderStyle_refl (s : EditorBorderStyle) : sameBorderStyle s s = true.
Proof. destruct s; reflexivity. Qed.

(** X26: the two setters ask for a new rendering exactly when they change the
    value, so setting the same value again asks for none.  The padding
    stored is the floor of the number given, never negative, and 0 for a
    number that is not finite; for a whole number it is what the
    constructor stores. *)
Theorem setters_request_render (e : Editor) (padding : JsNumber)
    (borderStyle' : EditorBorderStyle) :
  getPaddingX (fst (setPaddingX e padding)) = paddingOf padding
  /\ 0 <= paddingOf padding
  /\ snd (setPaddingX e padding) = negb (getPaddingX e =? paddingOf padding)
  /\ setPaddingX (fst (setPaddingX e padding)) padding = (fst (setPaddingX e padding), false)
  /\ borderStyle (fst (setBorderStyle e borderStyle')) = borderStyle'
  /\ snd (setBorderStyle e borderStyle') = negb (sameBorderStyle (borderStyle e) borderStyle')
  /\ setBorderStyle (fst (setBorderStyle e borderStyle')) borderStyle'
     = (fst (setBorderStyle e borderStyle'), false)
  /\ forall rows color p style,
       paddingX (newEditor rows color p style)
       = paddingOf (finite (QArith_base.inject_Z p)).
Proof.
  assert (P0 : 0 <= paddingOf padding) by (unfold paddingOf; destruct padding; lia).
  assert (P1 : getPaddingX (fst (setPaddingX e padding)) = paddingOf padding).
  { unfold setPaddingX, getPaddingX. cbv zeta.
    destruct (paddingX e =? paddingOf padding) eqn:E; cbn [negb fst]; [|reflexivity].
    apply Z.eqb_eq, E. }
  assert (B1 : borderStyle (fst (setBorderStyle e borderStyle')) = borderStyle').
  { unfold setBorderStyle.
    destruct (sameBorderStyle (borderStyle e) borderStyle') eqn:E; cbn [negb fst];
      [|reflexivity].
    destruct (borderStyle e), borderStyle'; (reflexivity || discriminate). }
  split; [exact P1|]. split; [exact P0|].
  split.
  { unfold setPaddingX, getPaddingX. cbv zeta.
    destruct (paddingX e =? paddingOf padding); reflexivity. }
  split.
  { unfold getPaddingX in P1. unfold setPaddingX at 1. cbv zeta.
    rewrite P1, Z.eqb_refl. reflexivity. }
  split; [exact B1|].
  split.
  { unfold setBorderStyle.
    destruct (sameBorderStyle (borderStyle e) borderStyle'); reflexivity. }
  split.
  { unfold setBorderStyle at 1. rewrite B1, sameBorderStyle_refl. reflexivity. }
  intros rows color p style. unfold paddingOf.
  rewrite Qround.Qfloor_Z. reflexivity.
Qed.

End Settings.

Section DynamicBorderFacts.






End DynamicBorderFacts.

(* ===================================================================== *)
(** ** Default dispatch, programmatic insertion, unwrapped layout *)
(* ===================================================================== *)

Section DefaultDispatch.
Context (H : Host).

Lemma autocompleteKeys_unbound (e : Editor) (data : jsstring) :
  (forall a, kbMatches H data a = false) -> autocompleteKeys H e data = inr e.
Proof.
  intros Hkb. unfold autocompleteKeys. destruct (isAutocompleting e); [|reflexivity].
  destruct (autocompleteList e); [|reflexivity]. rewrite !Hkb. reflexivity.
Qed.

Lemma includes_unit_start (c : Z) : includes [c] pasteStart = false.
Proof.
  unfold includes, pasteStart. cbn [indexOf startsWith str map list_ascii_of_string].
  rewrite andb_false_r. reflexivity.
Qed.

(** X28: a single code unit that no key binding claims, outside a paste and
    with no backslash held back: a backslash is held back, a line feed
    breaks the line, any other control character is ignored, and
    everything from the space on is inserted as typed. *)
Theorem unbound_unit_dispatch (e : Editor) (c : Z) :
  isInPaste e = false -> pendingShiftEnter e = false ->
  (forall a, kbMatches H [c] a = false) ->
  (forall k, matchesKey H [c] k = false) ->
  handleInput H e [c]
  = if c =? 92 then e<|pendingShiftEnter := true|>
    else if c =? 10 then addNewLine e
    else if c >=? 32 then insertCharacter e [c]
    else e.
Proof.
  intros Hp Hs Hkb Hmk.
  rewrite (handleInput_key H e [c] (includes_unit_start c) Hp).
  unfold handleKey. rewrite Hs. cbn [andb].
  assert (E92 : streq [c] [92] = (c =? 92)) by (cbn [streq]; apply andb_true_r).
  rewrite E92. destruct (c =? 92) eqn:Eb; [reflexivity|].
  rewrite Hkb, (autocompleteKeys_unbound e [c] Hkb).
  unfold editingKeys. cbv zeta. rewrite !Hkb, !Hmk. cbn [andb orb].
  assert (Nl : isNewLineInput H [c] = (c =? 10)).
  { unfold isNewLineInput. rewrite Hkb.
    cbn [charCodeAt0 hd_error streq str map list_ascii_of_string].
    change (len [c] >? 1) with false. change (len [c] =? 1) with true.
    rewrite !andb_false_r, !andb_true_r. cbn [orb andb].
    unfold LF. rewrite orb_false_r. reflexivity. }
  rewrite Nl. destruct (c =? 10) eqn:El; [reflexivity|].
  assert (Dk : decodeKittyPrintable [c] = None).
  { unfold decodeKittyPrintable, matchCsiU. cbn [startsWith].
    rewrite andb_false_r. reflexivity. }
  rewrite Dk. reflexivity.
Qed.

End DefaultDispatch.

Lemma unbound_unit_dispatch_witness :
  handleInput Ref.host Ref.editor [120] = insertCharacter Ref.editor [120].
Proof.
  apply (unbound_unit_dispatch Ref.host Ref.editor 120 eq_refl eq_refl).
  - intros a; destruct a; reflexivity.
  - intros k; destruct k; reflexivity.
Defined.

Section ProgrammaticInsertion.

(** X29: [insertTextAtCursor] puts exactly the text at the cursor, between what
    was before and what was after it on the line, moves the cursor to the
    end of the text and reports one change for each code point of the
    text. *)
Theorem insertTextAtCursor_inserts (e : Editor) (text : jsstring) :
  inBounds e ->
  let line := lineAt (lines e) (cursorLine e) in
  lines (insertTextAtCursor e text)
    = setLineAt (lines e) (cursorLine e)
        (slice line 0 (cursorCol e) ++ text ++ sliceFrom line (cursorCol e))
  /\ cursorLine (insertTextAtCursor e text) = cursorLine e
  /\ cursorCol (insertTextAtCursor e text) = cursorCol e + len text
  /\ exists calls,
       length calls = length (codePoints text)
       /\ onChange (insertTextAtCursor e text)
          = option_map (fun log => log ++ calls) (onChange e).
Proof.
  intros [Hi Hc] line. unfold insertTextAtCursor.
  pose proof (insert_fold_overlay (codePoints text) e e (sameButOverlay_refl e)) as Hov.
  destruct (overlay_fields _ _ Hov) as (El & Ei & Ec & _ & _ & Eo & _).
  rewrite El, Ei, Ec, Eo.
  destruct (insert_run (codePoints text) e (slice line 0 (cursorCol e)) []
              (sliceFrom line (cursorCol e)) Hi) as (A & B & C).
  { cbn [app]. symmetry. apply slice_sliceFrom. }
  { change (len (@nil Z)) with 0. fold line in Hc.
    rewrite len_slice_prefix by exact Hc. lia. }
  cbn [app] in A, C. rewrite concat_codePoints in A, C.
  split; [exact A|]. split; [exact B|].
  split; [rewrite C; fold line in Hc; rewrite len_slice_prefix by exact Hc; reflexivity|].
  apply insert_run_onChange.
Qed.

End ProgrammaticInsertion.

Lemma insertTextAtCursor_inserts_witness :
  cursorCol (insertTextAtCursor
               (moveCursor Ref.host (handleInput Ref.host Ref.editor (str "ad")) 0 (-1))
               (str "bc"))
  = cursorCol (moveCursor Ref.host (handleInput Ref.host Ref.editor (str "ad")) 0 (-1))
    + len (str "bc").
Proof.
  exact (proj1 (proj2 (proj2 (insertTextAtCursor_inserts
                  (moveCursor Ref.host (handleInput Ref.host Ref.editor (str "ad")) 0 (-1))
                  (str "bc")
                  ltac:(split; vm_compute; [lia | split; discriminate]))))).
Defined.

Section UnwrappedLayout.
Context (H : Host).

Lemma lineAt_In (ls : list jsstring) (i : nat) :
  (i < length ls)%nat -> In (lineAt ls i) ls.
Proof. intros Hi. apply nth_In, Hi. Qed.

(** X30: when every line of the buffer fits the width, the layout is the buffer
    itself: one layout line for each line, with the text of that line. *)
Theorem layoutText_unwrapped (e : Editor) (w : Z) :
  lines e <> [] ->
  Forall (fun l => visibleWidth H l <= w) (lines e) ->
  map lText (layoutText H e w) = lines e.
Proof.
  intros Hne Hfit. unfold layoutText.
  destruct (_ || _) eqn:Es.
  - destruct (lines e) as [|l [|l2 ls]] eqn:El; [congruence | | discriminate Es].
    cbn [length Nat.eqb orb andb lineAt nth] in Es.
    apply isEmpty_true in Es. subst l. reflexivity.
  - assert (G : forall idx, Forall (fun i => (i < length (lines e))%nat) idx ->
                map lText (flat_map (layoutLine H e w) idx) = map (lineAt (lines e)) idx).
    { induction 1 as [|i idx Hi His IH]; [reflexivity|].
      cbn [flat_map map]. rewrite map_app, IH. unfold layoutLine. cbv zeta.
      rewrite Forall_forall in Hfit.
      pose proof (Hfit _ (lineAt_In (lines e) i Hi)) as Hw.
      apply Z.leb_le in Hw. rewrite Hw.
      destruct (i =? cursorLine e)%nat; reflexivity. }
    rewrite G by (apply Forall_forall; intros i Hi; apply in_seq in Hi; lia).
    rewrite map_lineAt_seq by lia. cbn [skipn]. apply firstn_all.
Qed.

End UnwrappedLayout.

Lemma layoutText_unwrapped_witness :
  map lText (layoutText Ref.host
               (handleInputs Ref.host Ref.editor [str "ab"; Example.keyShiftEnter; str "c"]) 80)
  = lines (handleInputs Ref.host Ref.editor [str "ab"; Example.keyShiftEnter; str "c"]).
Proof.
  exact (layoutText_unwrapped Ref.host
           (handleInputs Ref.host Ref.editor [str "ab"; Example.keyShiftEnter; str "c"]) 80
           ltac:(vm_compute; discriminate)
           ltac:(let ls := eval vm_compute in
                   (lines (handleInputs Ref.host Ref.editor
                             [str "ab"; Example.keyShiftEnter; str "c"])) in
                 change (Forall (fun l => visibleWidth Ref.host l <= 80) ls);
                 repeat (constructor; [vm_compute; discriminate|]); constructor)).
Defined.
